(** * python_hadoop: the MapReduce execution pipeline

    A shallow embedding of [hadoop_lib/stream.py] and
    [hadoop_lib/hadoop_env.py]: the stream life cycle, the shuffle store,
    the contexts handed to user code, the job orchestrator and the file
    input adapter.  Python objects that are shared between several owners
    (the configuration dict, the three streams) live once in a store and
    are reached through references, so that aliasing is visible. *)

From Stdlib Require Import List String Ascii Bool Arith Lia DecimalString.
Import ListNotations.
Open Scope string_scope.
Open Scope list_scope.

Set Implicit Arguments.

(** ** Python outcomes: a call returns or raises; the state survives a raise *)

Inductive exn : Type :=
| AssertionError
| AttributeError
| NotImplementedError
| TypeError
| ValueError
| KeyError
| OSError
| UserError (tag : nat).

Inductive res (A : Type) : Type :=
| Ok (a : A)
| Raised (e : exn).
Arguments Raised {A} e.

Definition M (S A : Type) : Type := S -> res A * S.

Definition ret {S A} (a : A) : M S A := fun s => (Ok a, s).
Definition raise {S A} (e : exn) : M S A := fun s => (Raised e, s).
Definition bind {S A B} (m : M S A) (f : A -> M S B) : M S B :=
  fun s => match m s with
           | (Ok a, s') => f a s'
           | (Raised e, s') => (Raised e, s')
           end.
Definition get {S} : M S S := fun s => (Ok s, s).
Definition modify {S} (f : S -> S) : M S unit := fun s => (Ok tt, f s).
(** [assert c]: the Python statement of that name. *)
Definition assert {S} (c : bool) : M S unit :=
  if c then ret tt else raise AssertionError.

Declare Scope py_scope.
Delimit Scope py_scope with py.
Notation "x <- m ;; k" := (bind m (fun x => k))
  (at level 61, m at next level, right associativity) : py_scope.
Notation "m ;; k" := (bind m (fun _ => k))
  (at level 61, right associativity) : py_scope.
Open Scope py_scope.

(** [for x in l: f x], stopping at the first iteration that raises. *)
Fixpoint for_each {S R} (f : R -> M S unit) (l : list R) : M S unit :=
  match l with
  | [] => ret tt
  | x :: l' => f x ;; for_each f l'
  end.

(** [with cm as h: body].  Every [__exit__] of the repository returns
    [None], so an exception of the body is never suppressed; [__exit__]
    runs on both exits of the body and not at all when [__enter__] raises. *)
Definition with_ {S H A} (enter : M S H) (exit : M S unit) (body : H -> M S A)
  : M S A :=
  fun s => match enter s with
           | (Raised e, s1) => (Raised e, s1)
           | (Ok h, s1) =>
               match body h s1 with
               | (Ok a, s2) =>
                   match exit s2 with
                   | (Ok _, s3) => (Ok a, s3)
                   | (Raised e', s3) => (Raised e', s3)
                   end
               | (Raised e, s2) =>
                   match exit s2 with
                   | (Ok _, s3) => (Raised e, s3)
                   | (Raised e', s3) => (Raised e', s3)
                   end
               end
           end.

(** ** The objects that flow through the pipeline

    Python is dynamically typed; the pipeline only needs keys to be
    hashable (they index a [dict]).  The default record shaping of the input
    adapter makes an [int] a key and a [str] a value, and the default
    rendering of the output adapter calls [str()] on both. *)

Class PyData (Key Val : Type) : Type := {
  key_eq_dec : forall x y : Key, {x = y} + {x <> y};
  key_of_int : nat -> Key;
  val_of_str : string -> Val;
  str_of_key : Key -> string;
  str_of_val : Val -> string
}.

(** ** Python's [dict]: insertion ordered, keys compared by equality *)

Module Dict.
Section Dict.
Variables K V : Type.
Variable eq_dec : forall x y : K, {x = y} + {x <> y}.

Definition t := list (K * V).

(** [dict()] *)
Definition empty : t := [].

(** [k in d] *)
Fixpoint mem (k : K) (d : t) : bool :=
  match d with
  | [] => false
  | (k', _) :: d' => if eq_dec k k' then true else mem k d'
  end.

(** [d[k]], [None] standing for [KeyError] *)
Fixpoint getitem (k : K) (d : t) : option V :=
  match d with
  | [] => None
  | (k', v) :: d' => if eq_dec k k' then Some v else getitem k d'
  end.

(** [d[k] = v]: an existing key keeps its place, a new one goes last *)
Fixpoint setitem (k : K) (v : V) (d : t) : t :=
  match d with
  | [] => [(k, v)]
  | (k', v') :: d' =>
      if eq_dec k k' then (k', v) :: d' else (k', v') :: setitem k v d'
  end.

(** in-place change of the object stored under [k] *)
Fixpoint adjust (f : V -> V) (k : K) (d : t) : t :=
  match d with
  | [] => []
  | (k', v') :: d' =>
      if eq_dec k k' then (k', f v') :: d' else (k', v') :: adjust f k d'
  end.

(** [d.update(other)] *)
Definition update (d other : t) : t :=
  fold_left (fun acc kv => setitem (fst kv) (snd kv) acc) other d.

(** [d.items()] *)
Definition items (d : t) : list (K * V) := d.

End Dict.
End Dict.

(** ** stream.py *)

(** [Stream]: the only attribute is [open_state].  [None] is the state of an
    object on which [Stream.__init__] never ran: every subclass of
    hadoop_env.py defines its own [__init__] without calling the base one,
    so the attribute is missing until the first [__enter__]. *)
Definition open_attr := option bool.

Definition Stream_init : open_attr := Some false.

Definition Stream_is_open (o : open_attr) : res bool :=
  match o with
  | Some b => Ok b
  | None => Raised AttributeError
  end.

Definition Stream_enter (o : open_attr) : open_attr := Some true.
Definition Stream_exit (o : open_attr) : open_attr := Some false.

(** [KeyValueWriteStream.write]: [assert self.open_state] *)
Definition KeyValueWriteStream_write (o : open_attr) : res unit :=
  match o with
  | Some true => Ok tt
  | Some false => Raised AssertionError
  | None => Raised AttributeError
  end.

(** ** Text: [str.strip()] and reading lines

    A [str] is a [string] whose characters are code points below 256;
    [isspace] is the table of CPython's [str.isspace] on that range. *)

Definition isspace (c : ascii) : bool :=
  let n := nat_of_ascii c in
  (((9 <=? n) && (n <=? 13)) || ((28 <=? n) && (n <=? 32))
   || (n =? 133) || (n =? 160))%nat.

Fixpoint lstrip (s : string) : string :=
  match s with
  | EmptyString => EmptyString
  | String c s' => if isspace c then lstrip s' else s
  end.

Fixpoint rstrip (s : string) : string :=
  match s with
  | EmptyString => EmptyString
  | String c s' =>
      match rstrip s' with
      | EmptyString => if isspace c then EmptyString else String c EmptyString
      | r => String c r
      end
  end.

(** [s.strip()] *)
Definition strip (s : string) : string := rstrip (lstrip s).

(** Every character of [s] is white space. *)
Fixpoint all_space (s : string) : bool :=
  match s with
  | EmptyString => true
  | String c s' => isspace c && all_space s'
  end.

(** The last character of [s], if any. *)
Fixpoint last_char (s : string) : option ascii :=
  match s with
  | EmptyString => None
  | String c EmptyString => Some c
  | String _ s' => last_char s'
  end.

Definition first_char (s : string) : option ascii :=
  match s with
  | EmptyString => None
  | String c _ => Some c
  end.

(** The files the adapters see: a readable file is a path with its lines;
    [unwritable] lists the paths that [open(path, "w")] refuses. *)
Definition Files := Dict.t string (list string).

(** ** hadoop_env.py: the object store *)

Section Model.
Context {Key Val U : Type} `{PyData Key Val}.

(** References: the three stream objects a job is wired to, the two context
    objects the job owns, and addresses of [dict] objects. *)
Inductive StreamRef : Type := InputObj | ShuffleObj | OutputObj.
Inductive CtxRef : Type := MapContext | ReduceContext.
Definition loc := nat.

Definition Config := Dict.t Key Val.
Definition Groups := Dict.t Key (list Val).

(** What a stream's [__enter__] returns. *)
Inductive Handle : Type :=
| HSelf (r : StreamRef)
| HRecords (records : list (Key * Val)) (ending : option exn)
| HItems (items : list (Key * list Val)).

(** *** ShuffleStream *)

Record ShuffleStream : Type := {
  shuffle_open_state : open_attr;
  shuffle_pair : Groups;
  write_phase : bool
}.

(** [__init__] (the base [__init__] is not called) *)
Definition ShuffleStream_init : ShuffleStream :=
  {| shuffle_open_state := None;
     shuffle_pair := Dict.empty Key (list Val);
     write_phase := true |}.

Definition ShuffleStream_write (key : Key) (value : Val) : M ShuffleStream unit :=
  fun self =>
    if Dict.mem key_eq_dec key (shuffle_pair self)
    then (Ok tt,
          {| shuffle_open_state := shuffle_open_state self;
             shuffle_pair :=
               Dict.adjust key_eq_dec (fun l => l ++ [value]) key (shuffle_pair self);
             write_phase := write_phase self |})
    else (Ok tt,
          {| shuffle_open_state := shuffle_open_state self;
             shuffle_pair := Dict.setitem key_eq_dec key [value] (shuffle_pair self);
             write_phase := write_phase self |}).

(** In the read phase the handle iterates the items of the dict as they are
    at entry; the reduce context writes to the output adapter, so nothing
    is added to the store while the reduce loop consumes it. *)
Definition ShuffleStream_enter : M ShuffleStream Handle :=
  fun self =>
    let self' := {| shuffle_open_state := Stream_enter (shuffle_open_state self);
                    shuffle_pair := shuffle_pair self;
                    write_phase := write_phase self |} in
    if write_phase self'
    then (Ok (HSelf ShuffleObj), self')
    else (Ok (HItems (Dict.items (shuffle_pair self'))), self').

Definition ShuffleStream_exit : M ShuffleStream unit :=
  fun self =>
    if write_phase self
    then (Ok tt, {| shuffle_open_state := Stream_exit (shuffle_open_state self);
                    shuffle_pair := shuffle_pair self;
                    write_phase := false |})
    else (Ok tt, {| shuffle_open_state := Stream_exit (shuffle_open_state self);
                    shuffle_pair := Dict.empty Key (list Val);
                    write_phase := false |}).

(** *** HadoopInput *)

Record HadoopInput : Type := {
  input_open_state : open_attr;
  paths : option (list string);
  input_format_func : nat -> string -> Key * Val
}.

Definition default_input_format_func (line_id : nat) (line : string) : Key * Val :=
  (key_of_int line_id, val_of_str (strip line)).

Definition HadoopInput_init : HadoopInput :=
  {| input_open_state := None;
     paths := None;
     input_format_func := default_input_format_func |}.

Definition HadoopInput_set_format_func (f : nat -> string -> Key * Val)
  (self : HadoopInput) : HadoopInput :=
  {| input_open_state := input_open_state self;
     paths := paths self;
     input_format_func := f |}.

(** The inner loop of [__get_assembled_input_stream]: the lines of one file. *)
Fixpoint yield_lines (format_func : nat -> string -> Key * Val)
  (current_line : nat) (lines : list string) : list (Key * Val) :=
  match lines with
  | [] => []
  | line :: rest =>
      format_func current_line line :: yield_lines format_func (S current_line) rest
  end.

(** The generator of [__get_assembled_input_stream], run to its end: the
    records it yields and how it ends ([None]: exhausted; [Some e]: [open]
    raised [e] on a path).  [current_line] is carried from file to file. *)
Fixpoint assembled_input_stream (format_func : nat -> string -> Key * Val)
  (files : Files) (ps : list string) (current_line : nat)
  : list (Key * Val) * option exn :=
  match ps with
  | [] => ([], None)
  | path :: ps' =>
      match Dict.getitem string_dec path files with
      | None => ([], Some OSError)
      | Some lines =>
          let '(rest, ending) :=
            assembled_input_stream format_func files ps'
              (current_line + List.length lines) in
          (yield_lines format_func current_line lines ++ rest, ending)
      end
  end.

Definition HadoopInput_enter (files : Files) : M HadoopInput Handle :=
  fun self =>
    let self' := {| input_open_state := Stream_enter (input_open_state self);
                    paths := paths self;
                    input_format_func := input_format_func self |} in
    match paths self' with
    | None => (Ok (HRecords [] (Some TypeError)), self')
    | Some ps =>
        let '(records, ending) :=
          assembled_input_stream (input_format_func self') files ps 0 in
        (Ok (HRecords records ending), self')
    end.

Definition HadoopInput_exit : M HadoopInput unit :=
  fun self =>
    (Ok tt, {| input_open_state := Stream_exit (input_open_state self);
               paths := paths self;
               input_format_func := input_format_func self |}).

(** *** HadoopOutput *)

(** The text file object held in [__file_stream]. *)
Record TextFile : Type := {
  closed : bool;
  written : list string
}.

Record HadoopOutput : Type := {
  output_open_state : open_attr;
  path : option string;
  output_format_func : Key -> Val -> string;
  file_stream : option TextFile
}.

Definition default_output_format_func (key : Key) (value : Val) : string :=
  (str_of_key key ++ " " ++ str_of_val value
   ++ String (ascii_of_nat 10) EmptyString)%string.

Definition HadoopOutput_init : HadoopOutput :=
  {| output_open_state := None;
     path := None;
     output_format_func := default_output_format_func;
     file_stream := None |}.

Definition HadoopOutput_write (key : Key) (value : Val) : M HadoopOutput unit :=
  fun self =>
    match file_stream self with
    | None => (Raised AssertionError, self)
    | Some f =>
        match Stream_is_open (output_open_state self) with
        | Raised e => (Raised e, self)
        | Ok false => (Raised AssertionError, self)
        | Ok true =>
            if closed f then (Raised ValueError, self)
            else (Ok tt,
                  {| output_open_state := output_open_state self;
                     path := path self;
                     output_format_func := output_format_func self;
                     file_stream :=
                       Some {| closed := false;
                               written := written f
                                            ++ [output_format_func self key value] |} |})
        end
    end.

Definition HadoopOutput_enter (unwritable : list string) : M HadoopOutput Handle :=
  fun self =>
    let self' := {| output_open_state := Stream_enter (output_open_state self);
                    path := path self;
                    output_format_func := output_format_func self;
                    file_stream := file_stream self |} in
    match path self' with
    | None => (Raised TypeError, self')
    | Some p =>
        if in_dec string_dec p unwritable then (Raised OSError, self')
        else (Ok (HSelf OutputObj),
              {| output_open_state := output_open_state self';
                 path := path self';
                 output_format_func := output_format_func self';
                 file_stream := Some {| closed := false; written := [] |} |})
    end.

Definition HadoopOutput_exit : M HadoopOutput unit :=
  fun self =>
    let self' := {| output_open_state := Stream_exit (output_open_state self);
                    path := path self;
                    output_format_func := output_format_func self;
                    file_stream := file_stream self |} in
    match file_stream self' with
    | None => (Raised AttributeError, self')
    | Some f =>
        (Ok tt,
         {| output_open_state := output_open_state self';
            path := path self';
            output_format_func := output_format_func self';
            file_stream := Some {| closed := true; written := written f |} |})
    end.

(** *** HadoopContext *)

Record HadoopContext : Type := {
  context_open_state : open_attr;
  context_config : loc;
  key_value_input_stream : option StreamRef;
  key_value_output_stream : option StreamRef
}.

(** [__init__] (the base [__init__] is not called) *)
Definition HadoopContext_init (config : loc)
  (key_value_input_stream key_value_output_stream : option StreamRef)
  : HadoopContext :=
  {| context_open_state := None;
     context_config := config;
     key_value_input_stream := key_value_input_stream;
     key_value_output_stream := key_value_output_stream |}.

(** *** Mapper and Reducer: user code

    A callback is a finite tree of the things user code does with the
    context it is handed: write a pair, read the mapping that
    [get_configuration()] returns, assign an item of that mapping, change
    its own instance state, raise, return. *)

Inductive UserCode : Type :=
| Return
| Raise (e : exn)
| SetSelf (u : U) (next : UserCode)
| ContextWrite (key : Key) (value : Val) (next : UserCode)
| GetConfiguration (next : Config -> UserCode)
| ConfigurationSetItem (name : Key) (value : Val) (next : UserCode).

Record Mapper : Type := {
  mapper_setup : U -> UserCode;
  mapper_map : Key -> Val -> U -> UserCode;
  mapper_cleanup : U -> UserCode
}.

Record Reducer : Type := {
  reducer_setup : U -> UserCode;
  reducer_reduce : Key -> list Val -> U -> UserCode;
  reducer_cleanup : U -> UserCode
}.

(** The base classes: [setup] and [cleanup] return, [map] and [reduce]
    raise [NotImplementedError]. *)
Definition Mapper_base : Mapper :=
  {| mapper_setup := fun _ => Return;
     mapper_map := fun _ _ _ => Raise NotImplementedError;
     mapper_cleanup := fun _ => Return |}.

Definition Reducer_base : Reducer :=
  {| reducer_setup := fun _ => Return;
     reducer_reduce := fun _ _ _ => Raise NotImplementedError;
     reducer_cleanup := fun _ => Return |}.

(** *** HadoopJob *)

Record HadoopJob : Type := {
  job_config : loc;
  mapper : option Mapper;
  reducer : option Reducer;
  input_stream : option StreamRef;
  shuffle_stream : option StreamRef;
  output_stream : option StreamRef;
  map_context : option HadoopContext;
  reduce_context : option HadoopContext;
  successful : bool
}.

(** The hooks [start_job] invokes, in order of invocation. *)
Inductive Call : Type :=
| MapperSetup
| MapperMap (key : Key) (value : Val)
| MapperCleanup
| ReducerSetup
| ReducerReduce (key : Key) (values : list Val)
| ReducerCleanup.

(** *** The store *)

Record World : Type := {
  dicts : list Config;
  files : Files;
  unwritable : list string;
  input : HadoopInput;
  shuffle : ShuffleStream;
  output : HadoopOutput;
  job : HadoopJob;
  user : U;
  calls : list Call
}.

Definition set_dicts (x : list Config) (w : World) : World :=
  {| dicts := x; files := files w; unwritable := unwritable w; input := input w;
     shuffle := shuffle w; output := output w; job := job w; user := user w;
     calls := calls w |}.

Definition set_input (x : HadoopInput) (w : World) : World :=
  {| dicts := dicts w; files := files w; unwritable := unwritable w; input := x;
     shuffle := shuffle w; output := output w; job := job w; user := user w;
     calls := calls w |}.

Definition set_shuffle (x : ShuffleStream) (w : World) : World :=
  {| dicts := dicts w; files := files w; unwritable := unwritable w; input := input w;
     shuffle := x; output := output w; job := job w; user := user w;
     calls := calls w |}.

Definition set_output (x : HadoopOutput) (w : World) : World :=
  {| dicts := dicts w; files := files w; unwritable := unwritable w; input := input w;
     shuffle := shuffle w; output := x; job := job w; user := user w;
     calls := calls w |}.

Definition set_job (x : HadoopJob) (w : World) : World :=
  {| dicts := dicts w; files := files w; unwritable := unwritable w; input := input w;
     shuffle := shuffle w; output := output w; job := x; user := user w;
     calls := calls w |}.

Definition set_user (x : U) (w : World) : World :=
  {| dicts := dicts w; files := files w; unwritable := unwritable w; input := input w;
     shuffle := shuffle w; output := output w; job := job w; user := x;
     calls := calls w |}.

Definition log_call (c : Call) (w : World) : World :=
  {| dicts := dicts w; files := files w; unwritable := unwritable w; input := input w;
     shuffle := shuffle w; output := output w; job := job w; user := user w;
     calls := calls w ++ [c] |}.

(** A method of one stream object, run on that object in the store. *)
Definition on_input {A} (m : M HadoopInput A) : M World A :=
  fun w => let '(r, x) := m (input w) in (r, set_input x w).
Definition on_shuffle {A} (m : M ShuffleStream A) : M World A :=
  fun w => let '(r, x) := m (shuffle w) in (r, set_shuffle x w).
Definition on_output {A} (m : M HadoopOutput A) : M World A :=
  fun w => let '(r, x) := m (output w) in (r, set_output x w).

(** Method dispatch on a stream reference; [None] is Python's [None]. *)
Definition stream_is_open (r : option StreamRef) : M World bool :=
  fun w =>
    match r with
    | Some InputObj => (Stream_is_open (input_open_state (input w)), w)
    | Some ShuffleObj => (Stream_is_open (shuffle_open_state (shuffle w)), w)
    | Some OutputObj => (Stream_is_open (output_open_state (output w)), w)
    | None => (Raised AttributeError, w)
    end.

Definition stream_enter (r : option StreamRef) : M World Handle :=
  match r with
  | Some InputObj => fun w => on_input (HadoopInput_enter (files w)) w
  | Some ShuffleObj => on_shuffle ShuffleStream_enter
  | Some OutputObj => fun w => on_output (HadoopOutput_enter (unwritable w)) w
  | None => raise AttributeError
  end.

Definition stream_exit (r : option StreamRef) : M World unit :=
  match r with
  | Some InputObj => on_input HadoopInput_exit
  | Some ShuffleObj => on_shuffle ShuffleStream_exit
  | Some OutputObj => on_output HadoopOutput_exit
  | None => raise AttributeError
  end.

(** [HadoopInput] has no [write] method. *)
Definition stream_write (r : option StreamRef) (key : Key) (value : Val)
  : M World unit :=
  match r with
  | Some InputObj => raise AttributeError
  | Some ShuffleObj => on_shuffle (ShuffleStream_write key value)
  | Some OutputObj => on_output (HadoopOutput_write key value)
  | None => raise AttributeError
  end.

(** The [dict] object at an address; an address that holds no [dict] has
    no counterpart in Python and stops the caller. *)
Definition dict_items (d : loc) : M World Config :=
  fun w => match nth_error (dicts w) d with
           | Some c => (Ok c, w)
           | None => (Raised KeyError, w)
           end.

Fixpoint replace_nth {A} (n : nat) (x : A) (l : list A) : list A :=
  match l, n with
  | [], _ => []
  | _ :: l', O => x :: l'
  | y :: l', S n' => y :: replace_nth n' x l'
  end.

(** [d[name] = value] on the object at address [d] *)
Definition dict_setitem (d : loc) (name : Key) (value : Val) : M World unit :=
  c <- dict_items d ;;
  modify (fun w => set_dicts (replace_nth d (Dict.setitem key_eq_dec name value c) (dicts w)) w).

(** *** HadoopContext methods; [self] names the context object of the job *)

Definition context (self : CtxRef) : M World HadoopContext :=
  fun w =>
    match (match self with
           | MapContext => map_context (job w)
           | ReduceContext => reduce_context (job w)
           end) with
    | Some c => (Ok c, w)
    | None => (Raised AttributeError, w)
    end.

Definition set_context_open_state (self : CtxRef) (o : open_attr) (w : World) : World :=
  let set c := {| context_open_state := o;
                  context_config := context_config c;
                  key_value_input_stream := key_value_input_stream c;
                  key_value_output_stream := key_value_output_stream c |} in
  let j := job w in
  set_job
    {| job_config := job_config j; mapper := mapper j; reducer := reducer j;
       input_stream := input_stream j; shuffle_stream := shuffle_stream j;
       output_stream := output_stream j;
       map_context := match self with
                      | MapContext => option_map set (map_context j)
                      | ReduceContext => map_context j
                      end;
       reduce_context := match self with
                         | MapContext => reduce_context j
                         | ReduceContext => option_map set (reduce_context j)
                         end;
       successful := successful j |} w.

Definition HadoopContext_write (self : CtxRef) (key : Key) (value : Val)
  : M World unit :=
  c <- context self ;;
  b <- stream_is_open (key_value_output_stream c) ;;
  assert b ;;
  stream_write (key_value_output_stream c) key value.

Definition HadoopContext_get_configuration (self : CtxRef) : M World loc :=
  c <- context self ;;
  ret (context_config c).

Definition HadoopContext_enter (self : CtxRef) : M World Handle :=
  c <- context self ;;
  modify (set_context_open_state self (Stream_enter (context_open_state c))) ;;
  stream_enter (key_value_output_stream c) ;;
  stream_enter (key_value_input_stream c).

Definition HadoopContext_exit (self : CtxRef) : M World unit :=
  c <- context self ;;
  modify (set_context_open_state self (Stream_exit (context_open_state c))) ;;
  stream_exit (key_value_input_stream c) ;;
  stream_exit (key_value_output_stream c).

(** Running a callback that was handed the context [ctx]. *)
Fixpoint run (ctx : CtxRef) (code : UserCode) : M World unit :=
  match code with
  | Return => ret tt
  | Raise e => raise e
  | SetSelf u next => modify (set_user u) ;; run ctx next
  | ContextWrite key value next =>
      HadoopContext_write ctx key value ;; run ctx next
  | GetConfiguration next =>
      d <- HadoopContext_get_configuration ctx ;;
      c <- dict_items d ;;
      run ctx (next c)
  | ConfigurationSetItem name value next =>
      d <- HadoopContext_get_configuration ctx ;;
      dict_setitem d name value ;;
      run ctx next
  end.

(** *** HadoopJob methods *)

Definition modify_job (f : HadoopJob -> HadoopJob) : M World unit :=
  modify (fun w => set_job (f (job w)) w).

(** [dict()]: a new empty [dict] object; its address is returned. *)
Definition new_dict : M World loc :=
  fun w => (Ok (List.length (dicts w)),
            set_dicts (dicts w ++ [Dict.empty Key Val]) w).

(** [HadoopJob(config)]: the job gets a [dict] of its own, filled from the
    caller's, and a new shuffle store. *)
Definition HadoopJob_init (config : option loc) : M World unit :=
  d <- new_dict ;;
  modify_job (fun _ =>
    {| job_config := d; mapper := None; reducer := None; input_stream := None;
       shuffle_stream := None; output_stream := None; map_context := None;
       reduce_context := None; successful := false |}) ;;
  match config with
  | None => ret tt
  | Some c =>
      other <- dict_items c ;;
      mine <- dict_items d ;;
      modify (fun w =>
        set_dicts (replace_nth d (Dict.update key_eq_dec mine other) (dicts w)) w)
  end ;;
  modify (set_shuffle ShuffleStream_init) ;;
  modify_job (fun j =>
    {| job_config := job_config j; mapper := mapper j; reducer := reducer j;
       input_stream := input_stream j; shuffle_stream := Some ShuffleObj;
       output_stream := output_stream j; map_context := map_context j;
       reduce_context := reduce_context j; successful := successful j |}).

Definition HadoopJob_set_mapper (m : Mapper) : M World unit :=
  modify_job (fun j =>
    {| job_config := job_config j; mapper := Some m; reducer := reducer j;
       input_stream := input_stream j; shuffle_stream := shuffle_stream j;
       output_stream := output_stream j; map_context := map_context j;
       reduce_context := reduce_context j; successful := successful j |}).

Definition HadoopJob_set_reducer (r : Reducer) : M World unit :=
  modify_job (fun j =>
    {| job_config := job_config j; mapper := mapper j; reducer := Some r;
       input_stream := input_stream j; shuffle_stream := shuffle_stream j;
       output_stream := output_stream j; map_context := map_context j;
       reduce_context := reduce_context j; successful := successful j |}).

Definition HadoopJob_set_input_stream (s : option StreamRef) : M World unit :=
  modify_job (fun j =>
    {| job_config := job_config j; mapper := mapper j; reducer := reducer j;
       input_stream := s; shuffle_stream := shuffle_stream j;
       output_stream := output_stream j;
       map_context := Some (HadoopContext_init (job_config j) s (shuffle_stream j));
       reduce_context := reduce_context j; successful := successful j |}).

Definition HadoopJob_set_output_stream (s : option StreamRef) : M World unit :=
  modify_job (fun j =>
    {| job_config := job_config j; mapper := mapper j; reducer := reducer j;
       input_stream := input_stream j; shuffle_stream := shuffle_stream j;
       output_stream := s; map_context := map_context j;
       reduce_context := Some (HadoopContext_init (job_config j) (shuffle_stream j) s);
       successful := successful j |}).

Definition is_not_None {A} (x : option A) : bool :=
  match x with Some _ => true | None => false end.

(** [__start_check]; [self.config] is an address, never [None]. *)
Definition start_check : M World unit :=
  fun w =>
    let j := job w in
    (assert (is_not_None (mapper j)) ;;
     assert (is_not_None (reducer j)) ;;
     assert true ;;
     assert (is_not_None (input_stream j)) ;;
     assert (is_not_None (output_stream j)) ;;
     assert (is_not_None (shuffle_stream j)) ;;
     assert (is_not_None (map_context j)) ;;
     assert (is_not_None (reduce_context j))) w.

Definition the_mapper : M World Mapper :=
  fun w => match mapper (job w) with
           | Some m => (Ok m, w)
           | None => (Raised AttributeError, w)
           end.

Definition the_reducer : M World Reducer :=
  fun w => match reducer (job w) with
           | Some r => (Ok r, w)
           | None => (Raised AttributeError, w)
           end.

(** A hook is invoked on the context [ctx]: the invocation is recorded, then
    the callback runs from the user object's current state. *)
Definition invoke (ctx : CtxRef) (c : Call) (code : U -> UserCode) : M World unit :=
  modify (log_call c) ;;
  fun w => run ctx (code (user w)) w.

(** [for key, value in h]: a generator is consumed record by record and may
    end by raising; a stream object is not iterable.  The setters wire the
    map context to the input adapter and the reduce context to the shuffle
    store, so the map loop meets a generator and the reduce loop the items
    of the store; the other shape is refused here. *)
Definition for_records (h : Handle) (body : Key * Val -> M World unit)
  : M World unit :=
  match h with
  | HRecords records ending =>
      for_each body records ;;
      match ending with
      | None => ret tt
      | Some e => raise e
      end
  | HSelf _ | HItems _ => raise TypeError
  end.

Definition for_items (h : Handle) (body : Key * list Val -> M World unit)
  : M World unit :=
  match h with
  | HItems items => for_each body items
  | HSelf _ | HRecords _ _ => raise TypeError
  end.

Definition map_phase (opened_map_context : Handle) : M World unit :=
  m <- the_mapper ;;
  invoke MapContext MapperSetup (mapper_setup m) ;;
  for_records opened_map_context
    (fun kv => m <- the_mapper ;;
               invoke MapContext (MapperMap (fst kv) (snd kv))
                 (mapper_map m (fst kv) (snd kv))) ;;
  m <- the_mapper ;;
  invoke MapContext MapperCleanup (mapper_cleanup m).

Definition reduce_phase (opened_reduce_context : Handle) : M World unit :=
  r <- the_reducer ;;
  invoke ReduceContext ReducerSetup (reducer_setup r) ;;
  for_items opened_reduce_context
    (fun kvs => r <- the_reducer ;;
                invoke ReduceContext (ReducerReduce (fst kvs) (snd kvs))
                  (reducer_reduce r (fst kvs) (snd kvs))) ;;
  r <- the_reducer ;;
  invoke ReduceContext ReducerCleanup (reducer_cleanup r).

(** The two [with] blocks of [start_job]. *)
Definition map_scope : M World unit :=
  with_ (HadoopContext_enter MapContext) (HadoopContext_exit MapContext)
    map_phase.

Definition reduce_scope : M World unit :=
  with_ (HadoopContext_enter ReduceContext) (HadoopContext_exit ReduceContext)
    reduce_phase.

Definition start_job : M World unit :=
  start_check ;;
  map_scope ;;
  reduce_scope ;;
  modify_job (fun j =>
    {| job_config := job_config j; mapper := mapper j; reducer := reducer j;
       input_stream := input_stream j; shuffle_stream := shuffle_stream j;
       output_stream := output_stream j; map_context := map_context j;
       reduce_context := reduce_context j; successful := true |}).

Definition is_successful (w : World) : bool := successful (job w).

(** *** The adapters' wiring methods *)

Definition HadoopInput_set_input_paths (ps : list string) : M World unit :=
  modify (fun w =>
    set_input {| input_open_state := input_open_state (input w);
                 paths := Some ps;
                 input_format_func := input_format_func (input w) |} w) ;;
  assert (0 <? List.length ps)%nat ;;
  (fun w => for_each (fun p => assert (Dict.mem string_dec p (files w))) ps w) ;;
  HadoopJob_set_input_stream (Some InputObj).

Definition HadoopOutput_set_output_path (p : string) : M World unit :=
  modify (fun w =>
    set_output {| output_open_state := output_open_state (output w);
                  path := Some p;
                  output_format_func := output_format_func (output w);
                  file_stream := file_stream (output w) |} w) ;;
  HadoopJob_set_output_stream (Some OutputObj).

(** *** A script in the shape of demo_wordcount.py

    [boot] is the store when the script starts: the adapters constructed
    ([HadoopInput()], [HadoopOutput()]), no [dict] yet; the job object is
    initialised by [HadoopJob_init].  [configure_job] is the script up to,
    and without, [job.start_job()]. *)

Definition boot (fs : Files) (ro : list string) (u : U) : World :=
  {| dicts := [];
     files := fs;
     unwritable := ro;
     input := HadoopInput_init;
     shuffle := ShuffleStream_init;
     output := HadoopOutput_init;
     job := {| job_config := 0; mapper := None; reducer := None;
               input_stream := None; shuffle_stream := None;
               output_stream := None; map_context := None;
               reduce_context := None; successful := false |};
     user := u;
     calls := [] |}.

Definition configure_job (m : Mapper) (r : Reducer) (input_paths : list string)
  (output_path : string) : M World unit :=
  HadoopJob_init None ;;
  HadoopJob_set_mapper m ;;
  HadoopJob_set_reducer r ;;
  HadoopInput_set_input_paths input_paths ;;
  HadoopOutput_set_output_path output_path.

(** *** Vocabulary of the properties *)

(** What a context is wired to: its configuration and its two streams. *)
Definition wiring (c : option HadoopContext)
  : option (loc * option StreamRef * option StreamRef) :=
  option_map (fun c => (context_config c, key_value_input_stream c,
                        key_value_output_stream c)) c.

(** A fully configured job, as the setters leave it: mapper and reducer set,
    the map context reading the input adapter and writing the shuffle store,
    the reduce context reading the shuffle store and writing the output
    adapter, both holding the job's own configuration [dict]. *)
Definition fully_configured (w : World) : Prop :=
  is_not_None (mapper (job w)) = true /\
  is_not_None (reducer (job w)) = true /\
  input_stream (job w) = Some InputObj /\
  shuffle_stream (job w) = Some ShuffleObj /\
  output_stream (job w) = Some OutputObj /\
  wiring (map_context (job w))
    = Some (job_config (job w), Some InputObj, Some ShuffleObj) /\
  wiring (reduce_context (job w))
    = Some (job_config (job w), Some ShuffleObj, Some OutputObj) /\
  job_config (job w) < List.length (dicts w).

(** What no step of a run changes: the job's wiring and success flag, the
    files, the number of [dict] objects. *)
Definition static (w : World) :=
  (job_config (job w), mapper (job w), reducer (job w),
   (input_stream (job w), shuffle_stream (job w), output_stream (job w)),
   (wiring (map_context (job w)), wiring (reduce_context (job w))),
   successful (job w), (files w, unwritable w), List.length (dicts w)).

(** What the streams and the contexts leave alone besides: the [dict]
    objects, the user's objects, the record of the calls. *)
Definition kept (w : World) := (static w, dicts w, user w, calls w).

(** [m] leaves the part [f] of the store as it was, whether it returns or
    raises. *)
Definition frame {A X} (f : World -> X) (m : M World A) : Prop :=
  forall w, f (snd (m w)) = f w.

(** The job's configuration mapping: the [dict] at the job's address. *)
Definition configuration (w : World) : option Config :=
  nth_error (dicts w) (job_config (job w)).

(** The store after the write-phase calls [W], in order. *)
Definition write_all (W : list (Key * Val)) (s : ShuffleStream) : ShuffleStream :=
  fold_left (fun s kv => snd (ShuffleStream_write (fst kv) (snd kv) s)) W s.

(** The sub-sequence of [W]'s values whose key is [k], in write order. *)
Definition values_of (k : Key) (W : list (Key * Val)) : list Val :=
  List.map snd (filter (fun kv => if key_eq_dec (fst kv) k then true else false) W).

(** The keys of [l] in the order of their first occurrence, [seen] being
    the keys met before [l]. *)
Fixpoint first_seen_from (seen l : list Key) : list Key :=
  match l with
  | [] => []
  | k :: l' =>
      if in_dec key_eq_dec k seen then first_seen_from seen l'
      else k :: first_seen_from (k :: seen) l'
  end.

Definition first_seen (l : list Key) : list Key := first_seen_from [] l.

(** A fresh store used as the protocol prescribes: the write scope is
    entered, the calls [W] are made, the write scope is closed; then the
    read scope is entered.  [written_store] is the store when the write
    scope has closed, [read_after_writes] what entering the read scope
    returns. *)
Definition written_store (W : list (Key * Val)) : ShuffleStream :=
  snd (ShuffleStream_exit
         (write_all W (snd (ShuffleStream_enter ShuffleStream_init)))).

Definition read_after_writes (W : list (Key * Val)) : res Handle :=
  fst (ShuffleStream_enter (written_store W)).

(** The map loop of [start_job] for the mapper [m], over the records [l]. *)
Definition map_records (m : Mapper) (l : list (Key * Val)) : M World unit :=
  for_each (fun kv => invoke MapContext (MapperMap (fst kv) (snd kv))
                        (mapper_map m (fst kv) (snd kv))) l.

(** [map_phase] and [reduce_phase] with the job's mapper [m] and reducer
    [r] named once, instead of being looked up at every call. *)
Definition map_phase_of (m : Mapper) (h : Handle) : M World unit :=
  invoke MapContext MapperSetup (mapper_setup m) ;;
  for_records h (fun kv => invoke MapContext (MapperMap (fst kv) (snd kv))
                             (mapper_map m (fst kv) (snd kv))) ;;
  invoke MapContext MapperCleanup (mapper_cleanup m).

Definition reduce_phase_of (r : Reducer) (h : Handle) : M World unit :=
  invoke ReduceContext ReducerSetup (reducer_setup r) ;;
  for_items h (fun kvs => invoke ReduceContext (ReducerReduce (fst kvs) (snd kvs))
                            (reducer_reduce r (fst kvs) (snd kvs))) ;;
  invoke ReduceContext ReducerCleanup (reducer_cleanup r).

(** The list stored under [k] once [v] has been appended to the store [s]. *)
Definition appended (k : Key) (v : Val) (s : ShuffleStream) : list Val :=
  match Dict.getitem key_eq_dec k (shuffle_pair s) with
  | Some l => l ++ [v]
  | None => [v]
  end.

(** A callback that neither raises nor writes. *)
Fixpoint quiet (code : UserCode) : Prop :=
  match code with
  | Return => True
  | Raise _ => False
  | SetSelf _ next => quiet next
  | ContextWrite _ _ _ => False
  | GetConfiguration next => forall c, quiet (next c)
  | ConfigurationSetItem _ _ next => quiet next
  end.

(** A callback that never assigns to the configuration mapping. *)
Fixpoint config_reader (code : UserCode) : Prop :=
  match code with
  | Return => True
  | Raise _ => True
  | SetSelf _ next => config_reader next
  | ContextWrite _ _ next => config_reader next
  | GetConfiguration next => forall c, config_reader (next c)
  | ConfigurationSetItem _ _ _ => False
  end.

Definition mapper_reads_config (m : Mapper) : Prop :=
  (forall u, config_reader (mapper_setup m u)) /\
  (forall k v u, config_reader (mapper_map m k v u)) /\
  (forall u, config_reader (mapper_cleanup m u)).

Definition reducer_reads_config (r : Reducer) : Prop :=
  (forall u, config_reader (reducer_setup r u)) /\
  (forall k vs u, config_reader (reducer_reduce r k vs u)) /\
  (forall u, config_reader (reducer_cleanup r u)).

(** What user code cannot reach: the streams, the job, the files. *)
Definition machine (w : World) :=
  (input w, shuffle w, output w, job w, (files w, unwritable w),
   List.length (dicts w)).

(** The claims that the code does not meet, as the specification words
    them, for the counterexamples. *)

(** C1 as stated: a write to a store whose write scope has closed does not
    append to the groups. *)
Definition write_rejected_after_close (W : list (Key * Val)) (k : Key) (v : Val)
  : Prop :=
  shuffle_pair (snd (ShuffleStream_write k v (written_store W)))
  = shuffle_pair (written_store W).

(** C3 as stated: user code that holds the mapping returned by
    [get_configuration] cannot alter the job's configuration. *)
Definition configuration_read_only (w : World) : Prop :=
  forall (ctx : CtxRef) (code : UserCode),
    configuration (snd (run ctx code w)) = configuration w.

(** C8 as stated, of a run from the store [w]: the four hooks are invoked
    once each and nothing else is, the map scope leaves no group, no output
    record is written, the flag is true. *)
Definition empty_run (w : World) : Prop :=
  calls (snd (start_job w))
  = calls w ++ [MapperSetup; MapperCleanup; ReducerSetup; ReducerCleanup] /\
  shuffle_pair (shuffle (snd (map_scope w))) = [] /\
  option_map written (file_stream (output (snd (start_job w)))) = Some [] /\
  is_successful (snd (start_job w)) = true.

(** The input adapter yields no record: its generator ends at once. *)
Definition yields_no_record (w : World) : Prop :=
  exists ps, paths (input w) = Some ps /\
    assembled_input_stream (input_format_func (input w)) (files w) ps 0
    = ([], None).

(** The lines the generator reads: file after file in path order, up to
    the first path that cannot be opened. *)
Fixpoint lines_read (fs : Files) (ps : list string) : list string :=
  match ps with
  | [] => []
  | p :: ps' =>
      match Dict.getitem string_dec p fs with
      | None => []
      | Some lines => lines ++ lines_read fs ps'
      end
  end.

(** *** The rest of the adapters, and vocabulary for whole runs *)

Definition HadoopOutput_set_format_func (f : Key -> Val -> string)
  (self : HadoopOutput) : HadoopOutput :=
  {| output_open_state := output_open_state self;
     path := path self;
     output_format_func := f;
     file_stream := file_stream self |}.

(** [with out: for key, value in W: out.write(key, value)] on an output
    adapter. *)
Definition write_records (ro : list string) (W : list (Key * Val))
  : M HadoopOutput unit :=
  with_ (HadoopOutput_enter ro) HadoopOutput_exit
    (fun _ => for_each (fun kv => HadoopOutput_write (fst kv) (snd kv)) W).

(** The adapter after the calls [write(k, v)] for the pairs of [W]. *)
Definition output_write_all (W : list (Key * Val)) (o : HadoopOutput) : HadoopOutput :=
  fold_left (fun o kv => snd (HadoopOutput_write (fst kv) (snd kv) o)) W o.

(** The adapter accepts a write: it is open and holds an open file. *)
Definition accepts_writes (o : HadoopOutput) : Prop :=
  output_open_state o = Some true /\
  exists f, file_stream o = Some f /\ closed f = false.

(** A callback that only writes the pairs of [l], in order, and returns. *)
Fixpoint emits (l : list (Key * Val)) : UserCode :=
  match l with
  | [] => Return
  | kv :: l' => ContextWrite (fst kv) (snd kv) (emits l')
  end.

(** The groups of the pairs [W]: one per key, in the order of first
    occurrence, each with the key's values in order. *)
Definition groups_of (W : list (Key * Val)) : list (Key * list Val) :=
  List.map (fun k => (k, values_of k W)) (first_seen (List.map fst W)).

(** What the adapters were given: the source paths and the sink path. *)
Definition adapters (w : World) := (paths (input w), path (output w)).

(** What user code and the loops around it leave alone in the streams: the
    phase of the store, whether the sink holds a file, the given paths. *)
Definition steady (w : World) :=
  (write_phase (shuffle w), is_not_None (file_stream (output w)), adapters w).

(** The store apart from the shuffle stream, and apart from the output
    adapter. *)
Definition beside_shuffle (w : World) :=
  (input w, output w, job w, (files w, unwritable w), List.length (dicts w)).

Definition beside_output (w : World) :=
  (input w, shuffle w, job w, (files w, unwritable w), List.length (dicts w)).


(** One of the eight things [__start_check] asserts is missing. *)
Definition not_configured (w : World) : Prop :=
  mapper (job w) = None \/ reducer (job w) = None \/
  input_stream (job w) = None \/ output_stream (job w) = None \/
  shuffle_stream (job w) = None \/ map_context (job w) = None \/
  reduce_context (job w) = None.

(** The reduce loop of [start_job] for the reducer [r], over the groups. *)
Definition reduce_items (r : Reducer) (l : list (Key * list Val)) : M World unit :=
  for_each (fun kvs => invoke ReduceContext (ReducerReduce (fst kvs) (snd kvs))
                         (reducer_reduce r (fst kvs) (snd kvs))) l.

(** The lines of the file at [p]; none when there is no such file. *)
Definition file_lines (fs : Files) (p : string) : list string :=
  match Dict.getitem string_dec p fs with
  | Some lines => lines
  | None => []
  end.

End Model.

(** ** demo_wordcount.py

    The objects of the demo: keys and values are [int]s and [str]s. *)

Inductive pyobj : Type :=
| PyInt (n : nat)
| PyStr (s : string).

Definition pyobj_eq_dec (x y : pyobj) : {x = y} + {x <> y}.
Proof. decide equality; [apply Nat.eq_dec | apply string_dec]. Defined.

(** [str(n)] for a non-negative [int] *)
Definition str_of_nat (n : nat) : string :=
  DecimalString.NilZero.string_of_uint (Nat.to_uint n).

Definition str_of_pyobj (x : pyobj) : string :=
  match x with
  | PyInt n => str_of_nat n
  | PyStr s => s
  end.

#[export] Instance pyobj_data : PyData pyobj pyobj :=
  {| key_eq_dec := pyobj_eq_dec;
     key_of_int := PyInt;
     val_of_str := PyStr;
     str_of_key := str_of_pyobj;
     str_of_val := str_of_pyobj |}.

(** [s.split()]: the maximal runs of characters that are not white space;
    [word] is the run being read. *)
Fixpoint split_from (word s : string) : list string :=
  match s with
  | EmptyString => match word with EmptyString => [] | _ => [word] end
  | String c s' =>
      if isspace c
      then match word with
           | EmptyString => split_from EmptyString s'
           | _ => word :: split_from EmptyString s'
           end
      else split_from (word ++ String c EmptyString)%string s'
  end.

Definition split (s : string) : list string := split_from EmptyString s.

(** [sum(values)]: [None] when a value is not an [int] ([TypeError]) *)
Fixpoint sum (values : list pyobj) : option nat :=
  match values with
  | [] => Some 0
  | PyInt n :: rest => option_map (Nat.add n) (sum rest)
  | PyStr _ :: _ => None
  end.

Fixpoint write_words (words : list string) : @UserCode pyobj pyobj unit :=
  match words with
  | [] => Return
  | word :: rest => ContextWrite (PyStr word) (PyInt 1) (write_words rest)
  end.

Definition WordCountMapper : @Mapper pyobj pyobj unit :=
  {| mapper_setup := mapper_setup Mapper_base;
     mapper_map := fun _ value _ =>
       match value with
       | PyStr s => write_words (split s)
       | PyInt _ => Raise AttributeError
       end;
     mapper_cleanup := mapper_cleanup Mapper_base |}.

Definition WordCountReducer : @Reducer pyobj pyobj unit :=
  {| reducer_setup := reducer_setup Reducer_base;
     reducer_reduce := fun key values _ =>
       match sum values with
       | Some n => ContextWrite key (PyInt n) Return
       | None => Raise TypeError
       end;
     reducer_cleanup := reducer_cleanup Reducer_base |}.

Definition nl : string := String (ascii_of_nat 10) EmptyString.

Definition demo_files : Files :=
  [("test_input.txt", [("a b a" ++ nl)%string; ("b c" ++ nl)%string])].

Definition demo_world : @World pyobj pyobj unit :=
  snd (configure_job WordCountMapper WordCountReducer
         ["test_input.txt"] "test_output.txt" (boot demo_files [] tt)).

(** ** Sample runs *)

Definition sample_writes : list (pyobj * pyobj) :=
  [(PyStr "a", PyInt 1); (PyStr "b", PyInt 2); (PyStr "a", PyInt 3)].

(** A mapper whose [map] raises on the record of key 1. *)
Definition failing_mapper : @Mapper pyobj pyobj unit :=
  {| mapper_setup := mapper_setup Mapper_base;
     mapper_map := fun key value u =>
       match key with
       | PyInt 1 => Raise (UserError 1)
       | _ => mapper_map WordCountMapper key value u
       end;
     mapper_cleanup := mapper_cleanup Mapper_base |}.

Definition failing_world : @World pyobj pyobj unit :=
  snd (configure_job failing_mapper WordCountReducer
         ["test_input.txt"] "test_output.txt" (boot demo_files [] tt)).

Definition failing_entered : @World pyobj pyobj unit :=
  snd (HadoopContext_enter MapContext failing_world).

Definition failing_set_up : @World pyobj pyobj unit :=
  snd (invoke MapContext MapperSetup (mapper_setup failing_mapper) failing_entered).

Definition failing_mapped : @World pyobj pyobj unit :=
  snd (map_records failing_mapper [(PyInt 0, PyStr "a b a")] failing_set_up).

Definition failing_raised : @World pyobj pyobj unit :=
  snd (invoke MapContext (MapperMap (PyInt 1) (PyStr "b c"))
         (mapper_map failing_mapper (PyInt 1) (PyStr "b c")) failing_mapped).

(** A job over one empty file. *)
Definition empty_files : Files := [("empty.txt", [])].

Definition empty_world : @World pyobj pyobj unit :=
  snd (configure_job WordCountMapper WordCountReducer
         ["empty.txt"] "test_output.txt" (boot empty_files [] tt)).

(** A mapper whose [cleanup] writes a pair, over the same empty file. *)
Definition emitting_mapper : @Mapper pyobj pyobj unit :=
  {| mapper_setup := mapper_setup Mapper_base;
     mapper_map := mapper_map WordCountMapper;
     mapper_cleanup := fun _ => ContextWrite (PyStr "total") (PyInt 0) Return |}.

Definition emitting_world : @World pyobj pyobj unit :=
  snd (configure_job emitting_mapper WordCountReducer
         ["empty.txt"] "test_output.txt" (boot empty_files [] tt)).

(** Two source files of two lines and one line. *)
Definition two_files : Files :=
  [("a.txt", [(" x" ++ nl)%string; ("y " ++ nl)%string]);
   ("b.txt", [("z" ++ nl)%string])].

Definition two_files_input : @HadoopInput pyobj pyobj :=
  {| input_open_state := None;
     paths := Some ["a.txt"; "b.txt"];
     input_format_func := default_input_format_func |}.

(** The word count callbacks as emitters: [map] emits [(word, 1)] per
    token, [reduce] emits [(key, sum(values))]. *)
Definition word_count_map (key value : pyobj) : list (pyobj * pyobj) :=
  match value with
  | PyStr s => List.map (fun word => (PyStr word, PyInt 1)) (split s)
  | PyInt _ => []
  end.

Definition word_count_reduce (key : pyobj) (values : list pyobj)
  : list (pyobj * pyobj) :=
  match sum values with
  | Some n => [(key, PyInt n)]
  | None => []
  end.

(** A job whose mapper does not override [map]. *)
Definition abstract_world : @World pyobj pyobj unit :=
  snd (configure_job Mapper_base WordCountReducer
         ["test_input.txt"] "test_output.txt" (boot demo_files [] tt)).

(** A job whose reducer raises on the group of [b]. *)
Definition failing_reducer : @Reducer pyobj pyobj unit :=
  {| reducer_setup := reducer_setup Reducer_base;
     reducer_reduce := fun key values u =>
       match key with
       | PyStr "b" => Raise (UserError 2)
       | _ => reducer_reduce WordCountReducer key values u
       end;
     reducer_cleanup := reducer_cleanup Reducer_base |}.

Definition reduce_failing_world : @World pyobj pyobj unit :=
  snd (configure_job WordCountMapper failing_reducer
         ["test_input.txt"] "test_output.txt" (boot demo_files [] tt)).

(** The demo job with a sink that cannot be opened. *)
Definition no_sink_world : @World pyobj pyobj unit :=
  snd (configure_job WordCountMapper WordCountReducer
         ["test_input.txt"] "test_output.txt"
         (boot demo_files ["test_output.txt"] tt)).

Definition reduce_failing_mapped : @World pyobj pyobj unit :=
  snd (map_scope reduce_failing_world).

Definition reduce_failing_entered : @World pyobj pyobj unit :=
  snd (HadoopContext_enter ReduceContext reduce_failing_mapped).

Definition reduce_failing_set_up : @World pyobj pyobj unit :=
  snd (invoke ReduceContext ReducerSetup (reducer_setup failing_reducer)
         reduce_failing_entered).

Definition reduce_failing_reduced : @World pyobj pyobj unit :=
  snd (reduce_items failing_reducer [(PyStr "a", [PyInt 1; PyInt 1])]
         reduce_failing_set_up).

Definition reduce_failing_raised : @World pyobj pyobj unit :=
  snd (invoke ReduceContext (ReducerReduce (PyStr "b") [PyInt 1; PyInt 1])
         (reducer_reduce failing_reducer (PyStr "b") [PyInt 1; PyInt 1])
         reduce_failing_reduced).

(** A store in which the caller of [HadoopJob(config)] holds a [dict]. *)
Definition caller_world : @World pyobj pyobj unit :=
  set_dicts [[(PyStr "separator", PyStr ","); (PyStr "limit", PyInt 10)]]
    (boot demo_files [] tt).

(** The records of the demo input. *)
Definition demo_records : list (pyobj * pyobj) :=
  [(PyInt 0, PyStr "a b a"); (PyInt 1, PyStr "b c")].

(** An output adapter with its path set. *)
Definition sample_output : @HadoopOutput pyobj pyobj :=
  {| output_open_state := None;
     path := Some "test_output.txt";
     output_format_func := default_output_format_func;
     file_stream := None |}.

(** * Properties *)

Unset Implicit Arguments.

(** ** The insertion-ordered dict *)

Section DictFacts.
Variables K V : Type.
Variable eq_dec : forall x y : K, {x = y} + {x <> y}.

Lemma mem_true_iff (k : K) (d : Dict.t K V) :
  Dict.mem eq_dec k d = true <-> In k (List.map fst d).
Proof.
  induction d as [|[k' v'] d IH]; simpl.
  - split; [discriminate | tauto].
  - destruct (eq_dec k k') as [->|Hne].
    + split; auto.
    + rewrite IH. split; [auto | intros [Heq|Hin]; [congruence | exact Hin]].
Qed.

Lemma mem_false_iff (k : K) (d : Dict.t K V) :
  Dict.mem eq_dec k d = false <-> ~ In k (List.map fst d).
Proof.
  rewrite <- mem_true_iff. destruct (Dict.mem eq_dec k d); split; congruence.
Qed.

Lemma setitem_absent (k : K) (v : V) (d : Dict.t K V) :
  ~ In k (List.map fst d) -> Dict.setitem eq_dec k v d = d ++ [(k, v)].
Proof.
  induction d as [|[k' v'] d IH]; simpl; intros Hnin.
  - reflexivity.
  - destruct (eq_dec k k') as [->|Hne].
    + exfalso. apply Hnin. now left.
    + rewrite IH; [reflexivity | tauto].
Qed.

Lemma adjust_keys (f : V -> V) (k : K) (d : Dict.t K V) :
  List.map fst (Dict.adjust eq_dec f k d) = List.map fst d.
Proof.
  induction d as [|[k' v'] d IH]; simpl.
  - reflexivity.
  - destruct (eq_dec k k'); simpl; [reflexivity | now rewrite IH].
Qed.

Lemma getitem_In (k : K) (v : V) (d : Dict.t K V) :
  NoDup (List.map fst d) -> In (k, v) d -> Dict.getitem eq_dec k d = Some v.
Proof.
  induction d as [|[k' v'] d IH]; simpl; intros Hnd Hin.
  - contradiction.
  - inversion Hnd as [|? ? Hnotin Hnd']; subst.
    destruct Hin as [Heq|Hin].
    + inversion Heq; subst. destruct (eq_dec k k); congruence.
    + destruct (eq_dec k k') as [->|Hne].
      * exfalso. apply Hnotin. apply (in_map fst) in Hin. exact Hin.
      * now apply IH.
Qed.

Lemma getitem_adjust_same (f : V -> V) (k : K) (d : Dict.t K V) :
  Dict.getitem eq_dec k (Dict.adjust eq_dec f k d)
  = option_map f (Dict.getitem eq_dec k d).
Proof.
  induction d as [|[k' v'] d IH]; simpl.
  - reflexivity.
  - destruct (eq_dec k k') as [->|Hne]; simpl.
    + destruct (eq_dec k' k'); congruence.
    + destruct (eq_dec k k'); congruence.
Qed.

Lemma getitem_setitem_same (k : K) (v : V) (d : Dict.t K V) :
  Dict.getitem eq_dec k (Dict.setitem eq_dec k v d) = Some v.
Proof.
  induction d as [|[k' v'] d IH]; simpl.
  - destruct (eq_dec k k); congruence.
  - destruct (eq_dec k k') as [->|Hne]; simpl.
    + destruct (eq_dec k' k'); congruence.
    + destruct (eq_dec k k'); congruence.
Qed.

Lemma getitem_None_iff (k : K) (d : Dict.t K V) :
  Dict.getitem eq_dec k d = None <-> Dict.mem eq_dec k d = false.
Proof.
  induction d as [|[k' v'] d IH]; simpl.
  - tauto.
  - destruct (eq_dec k k'); [split; discriminate | exact IH].
Qed.

End DictFacts.

(** ** The shuffle store *)

Section ShuffleFacts.
Context {Key Val : Type} `{PyData Key Val}.

Lemma first_seen_from_In (seen l : list Key) (x : Key) :
  In x (first_seen_from seen l) <-> In x l /\ ~ In x seen.
Proof.
  revert seen. induction l as [|k l IH]; simpl; intros seen.
  - tauto.
  - destruct (in_dec key_eq_dec k seen) as [Hin|Hnin].
    + rewrite IH. split.
      * intros [? ?]. auto.
      * intros [[->|?] ?]; [contradiction | auto].
    + simpl. rewrite IH. simpl. split.
      * intros [->|[? ?]]; auto.
      * intros [[->|?] ?]; [now left|].
        destruct (key_eq_dec k x) as [->|Hne]; [now left|].
        right. split; [assumption|]. intros [?|?]; auto.
Qed.

Lemma first_seen_from_NoDup (seen l : list Key) :
  NoDup (first_seen_from seen l).
Proof.
  revert seen. induction l as [|k l IH]; simpl; intros seen.
  - constructor.
  - destruct (in_dec key_eq_dec k seen).
    + apply IH.
    + constructor; [|apply IH].
      rewrite first_seen_from_In. simpl. tauto.
Qed.

Lemma first_seen_from_ext (s1 s2 l : list Key) :
  (forall x, In x s1 <-> In x s2) ->
  first_seen_from s1 l = first_seen_from s2 l.
Proof.
  revert s1 s2. induction l as [|k l IH]; simpl; intros s1 s2 Hext.
  - reflexivity.
  - destruct (in_dec key_eq_dec k s1) as [H1|H1];
      destruct (in_dec key_eq_dec k s2) as [H2|H2].
    + now apply IH.
    + exfalso. apply H2, Hext, H1.
    + exfalso. apply H1, Hext, H2.
    + f_equal. apply IH. intros x. simpl. rewrite Hext. tauto.
Qed.

Lemma values_of_cons_same (k : Key) (v : Val) (W : list (Key * Val)) :
  values_of k ((k, v) :: W) = v :: values_of k W.
Proof.
  unfold values_of. simpl. destruct (key_eq_dec k k); [reflexivity | congruence].
Qed.

Lemma values_of_cons_other (k k' : Key) (v : Val) (W : list (Key * Val)) :
  k <> k' -> values_of k' ((k, v) :: W) = values_of k' W.
Proof.
  intros Hne. unfold values_of. simpl.
  destruct (key_eq_dec k k'); [congruence | reflexivity].
Qed.

Lemma values_of_nil_iff (k : Key) (W : list (Key * Val)) :
  ~ In k (List.map fst W) -> values_of k W = [].
Proof.
  induction W as [|[k' v'] W IH]; simpl; intros Hnin.
  - reflexivity.
  - rewrite values_of_cons_other; [apply IH; tauto | intros ->; tauto].
Qed.

(** One write, whatever the phase and the open state. *)
Lemma ShuffleStream_write_spec (k : Key) (v : Val) (s : @ShuffleStream Key Val) :
  ShuffleStream_write k v s
  = (Ok tt,
     {| shuffle_open_state := shuffle_open_state s;
        shuffle_pair :=
          if Dict.mem key_eq_dec k (shuffle_pair s)
          then Dict.adjust key_eq_dec (fun l => l ++ [v]) k (shuffle_pair s)
          else Dict.setitem key_eq_dec k [v] (shuffle_pair s);
        write_phase := write_phase s |}).
Proof.
  unfold ShuffleStream_write. destruct (Dict.mem key_eq_dec k (shuffle_pair s)); reflexivity.
Qed.

Lemma write_all_cons (k : Key) (v : Val) (W : list (Key * Val)) (s : @ShuffleStream Key Val) :
  write_all ((k, v) :: W) s = write_all W (snd (ShuffleStream_write k v s)).
Proof. reflexivity. Qed.

Lemma write_all_open_state (W : list (Key * Val)) (s : @ShuffleStream Key Val) :
  shuffle_open_state (write_all W s) = shuffle_open_state s
  /\ write_phase (write_all W s) = write_phase s.
Proof.
  revert s. induction W as [|[k v] W IH]; intros s.
  - auto.
  - rewrite write_all_cons.
    destruct (IH (snd (ShuffleStream_write k v s))) as [E1 E2].
    rewrite E1, E2, ShuffleStream_write_spec. auto.
Qed.

(** Appending [v] to the list under [k], then extending every list by the
    values that [W] holds for its key, is extending by the values of
    [(k, v) :: W]. *)
Lemma adjust_then_extend (k : Key) (v : Val) (W : list (Key * Val))
  (d : Dict.t Key (list Val)) :
  NoDup (List.map fst d) ->
  List.map (fun kv => (fst kv, snd kv ++ values_of (fst kv) W))
    (Dict.adjust key_eq_dec (fun l => l ++ [v]) k d)
  = List.map (fun kv => (fst kv, snd kv ++ values_of (fst kv) ((k, v) :: W))) d.
Proof.
  induction d as [|[k' vs] d IH]; simpl; intros Hnd.
  - reflexivity.
  - inversion Hnd as [|? ? Hnotin Hnd']; subst.
    destruct (key_eq_dec k k') as [->|Hne]; simpl.
    + rewrite values_of_cons_same, <- app_assoc. simpl. f_equal.
      apply map_ext_in. intros [k0 vs0] Hin. simpl.
      rewrite values_of_cons_other; [reflexivity|].
      intros ->. apply Hnotin. apply (in_map fst) in Hin. exact Hin.
    + rewrite values_of_cons_other by assumption. f_equal. now apply IH.
Qed.

(** The groups after the writes [W], from a store whose keys are distinct:
    every list present grows by the values written for its key, and the
    keys that were not there follow, in the order of their first write. *)
Lemma write_all_groups (W : list (Key * Val)) :
  forall s : @ShuffleStream Key Val,
    NoDup (List.map fst (shuffle_pair s)) ->
    shuffle_pair (write_all W s)
    = List.map (fun kv => (fst kv, snd kv ++ values_of (fst kv) W)) (shuffle_pair s)
      ++ List.map (fun k => (k, values_of k W))
           (first_seen_from (List.map fst (shuffle_pair s)) (List.map fst W)).
Proof.
  induction W as [|[k v] W IH]; intros s Hnd.
  - simpl. rewrite app_nil_r. rewrite <- (map_id (shuffle_pair s)) at 1.
    apply map_ext. intros [k vs]. simpl. unfold values_of. simpl.
    now rewrite app_nil_r.
  - rewrite write_all_cons, ShuffleStream_write_spec.
    simpl. destruct (Dict.mem key_eq_dec k (shuffle_pair s)) eqn:Hmem.
    + apply mem_true_iff in Hmem.
      rewrite IH; simpl; [|rewrite adjust_keys; exact Hnd].
      rewrite adjust_keys, adjust_then_extend by exact Hnd.
      destruct (in_dec key_eq_dec k (List.map fst (shuffle_pair s))); [|contradiction].
      f_equal. apply map_ext_in. intros k' Hin.
      apply first_seen_from_In in Hin. destruct Hin as [_ Hnew].
      rewrite values_of_cons_other; [reflexivity | intros ->; contradiction].
    + apply mem_false_iff in Hmem.
      rewrite IH; simpl; rewrite setitem_absent by exact Hmem.
      2:{ rewrite map_app. simpl. apply NoDup_app.
          - exact Hnd.
          - constructor; [intros [] | constructor].
          - intros x Hx [<-|[]]. contradiction. }
      destruct (in_dec key_eq_dec k (List.map fst (shuffle_pair s))); [contradiction|].
      rewrite !map_app. simpl. rewrite <- app_assoc. simpl.
      rewrite values_of_cons_same. f_equal.
      * apply map_ext_in. intros [k' vs] Hin. simpl.
        rewrite values_of_cons_other; [reflexivity|].
        intros ->. apply Hmem. apply (in_map fst) in Hin. exact Hin.
      * f_equal.
        rewrite (first_seen_from_ext _ (k :: List.map fst (shuffle_pair s))).
        2:{ intros x. rewrite in_app_iff. simpl. tauto. }
        apply map_ext_in. intros k' Hin.
        apply first_seen_from_In in Hin. destruct Hin as [_ Hnew].
        rewrite values_of_cons_other; [reflexivity|].
        intros ->. apply Hnew. now left.
Qed.

(** What the read scope yields after the writes [W] to a fresh store. *)
Lemma read_after_writes_spec (W : list (Key * Val)) :
  read_after_writes W
  = Ok (HItems (List.map (fun k => (k, values_of k W)) (first_seen (List.map fst W)))).
Proof.
  unfold read_after_writes, written_store.
  set (s1 := snd (ShuffleStream_enter ShuffleStream_init)).
  assert (Hs1 : shuffle_pair s1 = [] /\ write_phase s1 = true) by (split; reflexivity).
  destruct Hs1 as [Hp Hw].
  pose proof (write_all_open_state W s1) as [_ Hphase].
  pose proof (write_all_groups W s1) as Hg.
  rewrite Hp in Hg. simpl in Hg. specialize (Hg (NoDup_nil _)).
  unfold ShuffleStream_exit. rewrite Hphase, Hw. simpl.
  unfold ShuffleStream_enter. simpl. rewrite Hg. reflexivity.
Qed.

(** C2 (grouping correctness).  For every sequence [W] of write-phase
    calls made to a fresh ShuffleStream, entering the read scope after the
    write scope has closed yields an iterator of groups in which every
    distinct key of [W] has exactly one group, that group being the
    sub-sequence of [W]'s values written under the key, in write order; and
    there is no other group. *)
Theorem shuffle_groups_are_subsequences (W : list (Key * Val)) :
  exists groups : list (Key * list Val),
    read_after_writes W = Ok (HItems groups) /\
    NoDup (List.map fst groups) /\
    (forall k, In k (List.map fst W) ->
       In (k, values_of k W) groups /\
       Dict.getitem key_eq_dec k groups = Some (values_of k W)) /\
    (forall k vs, In (k, vs) groups ->
       In k (List.map fst W) /\ vs = values_of k W).
Proof.
  exists (List.map (fun k => (k, values_of k W)) (first_seen (List.map fst W))).
  assert (Hkeys : List.map fst
            (List.map (fun k => (k, values_of k W)) (first_seen (List.map fst W)))
          = first_seen (List.map fst W)).
  { rewrite map_map. simpl. apply map_id. }
  assert (Hnd : NoDup (List.map fst
            (List.map (fun k => (k, values_of k W)) (first_seen (List.map fst W))))).
  { rewrite Hkeys. apply first_seen_from_NoDup. }
  split; [apply read_after_writes_spec|].
  split; [exact Hnd|].
  split.
  - intros k Hk.
    assert (Hin : In (k, values_of k W)
              (List.map (fun k => (k, values_of k W)) (first_seen (List.map fst W)))).
    { apply in_map_iff. exists k. split; [reflexivity|].
      apply first_seen_from_In. split; [exact Hk | intros []]. }
    split; [exact Hin | now apply getitem_In].
  - intros k vs Hin. apply in_map_iff in Hin.
    destruct Hin as [k' [Heq Hk']]. inversion Heq; subst.
    apply first_seen_from_In in Hk'. tauto.
Qed.

(** C9 (enumeration order).  For every sequence [W] of write-phase calls to
    a fresh ShuffleStream, the read scope enumerates the groups in the order
    in which their keys were first written: the keys of the yielded groups
    are [first_seen] of the keys of [W].  The result is a function of [W]:
    the same writes give the same enumeration. *)
Theorem shuffle_groups_in_first_write_order (W : list (Key * Val)) :
  exists groups : list (Key * list Val),
    read_after_writes W = Ok (HItems groups) /\
    List.map fst groups = first_seen (List.map fst W) /\
    NoDup (first_seen (List.map fst W)) /\
    (forall k, In k (first_seen (List.map fst W)) <-> In k (List.map fst W)).
Proof.
  exists (List.map (fun k => (k, values_of k W)) (first_seen (List.map fst W))).
  split; [apply read_after_writes_spec|].
  split; [rewrite map_map; simpl; apply map_id|].
  split; [apply first_seen_from_NoDup|].
  intros k. unfold first_seen. rewrite first_seen_from_In. simpl. tauto.
Qed.

(** C4 (single-pass drain).  For every ShuffleStream in its read phase (its
    write scope has closed), one full read scope, entered and exited, leaves
    no group in the store, and entering the read scope again yields an
    iterator over no groups. *)
Theorem second_read_scope_is_empty (s : @ShuffleStream Key Val) :
  write_phase s = false ->
  let drained := snd (ShuffleStream_exit (snd (ShuffleStream_enter s))) in
  shuffle_pair drained = [] /\
  write_phase drained = false /\
  fst (ShuffleStream_enter drained) = Ok (HItems []).
Proof.
  intros Hphase. unfold ShuffleStream_enter, ShuffleStream_exit. simpl.
  rewrite Hphase. simpl. auto.
Qed.

End ShuffleFacts.

(** ** Stepping through a sequence *)

Lemma bind_ok {S A B} (m : M S A) (k : A -> M S B) (s s' : S) (a : A) :
  m s = (Ok a, s') -> bind m k s = k a s'.
Proof. intros Hm. unfold bind. now rewrite Hm. Qed.

Lemma bind_raised {S A B} (m : M S A) (k : A -> M S B) (s s' : S) (e : exn) :
  m s = (Raised e, s') -> bind m k s = (Raised e, s').
Proof. intros Hm. unfold bind. now rewrite Hm. Qed.

Lemma for_each_app {S R} (body : R -> M S unit) (l1 l2 : list R) (s : S) :
  for_each body (l1 ++ l2) s = (for_each body l1 ;; for_each body l2) s.
Proof.
  revert s. induction l1 as [|x l1 IH]; intros s; simpl.
  - reflexivity.
  - unfold bind in *. destruct (body x s) as [[[]|e] s1]; [apply IH | reflexivity].
Qed.

(** ** Frames: what the steps of a run leave alone *)

Section Frames.
Context {Key Val U : Type} `{PyData Key Val}.
Context {X : Type} (f : @World Key Val U -> X).

Lemma frame_ret {A} (a : A) : frame f (ret a).
Proof. intros w. reflexivity. Qed.

Lemma frame_raise {A} (e : exn) : frame f (@raise _ A e).
Proof. intros w. reflexivity. Qed.

Lemma frame_assert (c : bool) : frame f (assert c).
Proof. intros w. destruct c; reflexivity. Qed.

Lemma frame_bind {A B} (m : M World A) (k : A -> M World B) :
  frame f m -> (forall a, frame f (k a)) -> frame f (bind m k).
Proof.
  intros Hm Hk w. unfold bind. specialize (Hm w).
  destruct (m w) as [[a|e] w1]; simpl in *.
  - rewrite Hk. exact Hm.
  - exact Hm.
Qed.

Lemma frame_modify (g : World -> World) :
  (forall w, f (g w) = f w) -> frame f (modify g).
Proof. intros Hg w. apply Hg. Qed.

Lemma frame_for_each {R} (body : R -> M World unit) (l : list R) :
  (forall x, frame f (body x)) -> frame f (for_each body l).
Proof.
  intros Hbody. induction l as [|x l IH]; simpl.
  - apply frame_ret.
  - apply frame_bind; [apply Hbody | intros _; exact IH].
Qed.

Lemma frame_with {Hd A} (enter : M World Hd) (exit : M World unit)
  (body : Hd -> M World A) :
  frame f enter -> frame f exit -> (forall h, frame f (body h)) ->
  frame f (with_ enter exit body).
Proof.
  intros He Hx Hb w. unfold with_. specialize (He w).
  destruct (enter w) as [[h|e] w1]; simpl in *; [|exact He].
  specialize (Hb h w1).
  destruct (body h w1) as [[a|e] w2]; simpl in *;
    specialize (Hx w2); destruct (exit w2) as [[[]|e'] w3]; simpl in *; congruence.
Qed.

Lemma frame_part {A Y} (g : X -> Y) (m : M World A) :
  frame f m -> frame (fun w => g (f w)) m.
Proof. intros Hm w. now rewrite Hm. Qed.

(** A step that reads the store to choose what to run. *)
Lemma frame_reading {A} (m : World -> M World A) :
  (forall w0, frame f (m w0)) -> frame f (fun w => m w w).
Proof. intros Hm w. apply Hm. Qed.

End Frames.

Section WorldFacts.
Context {Key Val U : Type} `{PyData Key Val}.

Lemma frame_on_input {A} (m : M (@HadoopInput Key Val) A) :
  frame (@kept Key Val U) (on_input m).
Proof. intros w. unfold on_input. destruct (m (input w)); reflexivity. Qed.

Lemma frame_on_shuffle {A} (m : M (@ShuffleStream Key Val) A) :
  frame (@kept Key Val U) (on_shuffle m).
Proof. intros w. unfold on_shuffle. destruct (m (shuffle w)); reflexivity. Qed.

Lemma frame_on_output {A} (m : M (@HadoopOutput Key Val) A) :
  frame (@kept Key Val U) (on_output m).
Proof. intros w. unfold on_output. destruct (m (output w)); reflexivity. Qed.

Lemma frame_stream_is_open (r : option StreamRef) :
  frame (@kept Key Val U) (stream_is_open r).
Proof. intros w. destruct r as [[| |]|]; reflexivity. Qed.

Lemma stream_is_open_reads (r : option StreamRef) (w : @World Key Val U) :
  snd (stream_is_open r w) = w.
Proof. destruct r as [[| |]|]; reflexivity. Qed.

Lemma frame_stream_enter (r : option StreamRef) :
  frame (@kept Key Val U) (stream_enter r).
Proof.
  destruct r as [[| |]|]; simpl.
  - apply (frame_reading _ (fun w0 => on_input (HadoopInput_enter (files w0)))).
    intros w0. apply frame_on_input.
  - apply frame_on_shuffle.
  - apply (frame_reading _ (fun w0 => on_output (HadoopOutput_enter (unwritable w0)))).
    intros w0. apply frame_on_output.
  - apply frame_raise.
Qed.

Lemma frame_stream_exit (r : option StreamRef) :
  frame (@kept Key Val U) (stream_exit r).
Proof.
  destruct r as [[| |]|]; simpl;
    [apply frame_on_input | apply frame_on_shuffle | apply frame_on_output
    | apply frame_raise].
Qed.

Lemma frame_stream_write (r : option StreamRef) (k : Key) (v : Val) :
  frame (@kept Key Val U) (stream_write r k v).
Proof.
  destruct r as [[| |]|]; simpl;
    [apply frame_raise | apply frame_on_shuffle | apply frame_on_output
    | apply frame_raise].
Qed.

Lemma context_reads (self : CtxRef) (w : @World Key Val U) :
  snd (context self w) = w.
Proof.
  unfold context.
  destruct self; [destruct (map_context (job w)) | destruct (reduce_context (job w))];
    reflexivity.
Qed.

Lemma frame_context {X} (f : @World Key Val U -> X) (self : CtxRef) :
  frame f (context self).
Proof. intros w. now rewrite context_reads. Qed.

Lemma set_context_open_state_kept (self : CtxRef) (o : open_attr)
  (w : @World Key Val U) :
  kept (set_context_open_state self o w) = kept w.
Proof.
  unfold kept, static, set_context_open_state. simpl.
  destruct self; simpl;
    [destruct (map_context (job w)) | destruct (reduce_context (job w))];
    reflexivity.
Qed.

Lemma frame_HadoopContext_write (self : CtxRef) (k : Key) (v : Val) :
  frame (@kept Key Val U) (HadoopContext_write self k v).
Proof.
  unfold HadoopContext_write.
  apply frame_bind; [apply frame_context | intros c].
  apply frame_bind; [apply frame_stream_is_open | intros b].
  apply frame_bind; [apply frame_assert | intros _].
  apply frame_stream_write.
Qed.

Lemma frame_HadoopContext_get_configuration {X} (f : @World Key Val U -> X)
  (self : CtxRef) :
  frame f (HadoopContext_get_configuration self).
Proof.
  unfold HadoopContext_get_configuration.
  apply frame_bind; [apply frame_context | intros c; apply frame_ret].
Qed.

Lemma frame_HadoopContext_enter (self : CtxRef) :
  frame (@kept Key Val U) (HadoopContext_enter self).
Proof.
  unfold HadoopContext_enter.
  apply frame_bind; [apply frame_context | intros c].
  apply frame_bind;
    [apply frame_modify; intros w; apply set_context_open_state_kept | intros _].
  apply frame_bind; [apply frame_stream_enter | intros _].
  apply frame_stream_enter.
Qed.

Lemma frame_HadoopContext_exit (self : CtxRef) :
  frame (@kept Key Val U) (HadoopContext_exit self).
Proof.
  unfold HadoopContext_exit.
  apply frame_bind; [apply frame_context | intros c].
  apply frame_bind;
    [apply frame_modify; intros w; apply set_context_open_state_kept | intros _].
  apply frame_bind; [apply frame_stream_exit | intros _].
  apply frame_stream_exit.
Qed.

Lemma replace_nth_length {A} (n : nat) (x : A) (l : list A) :
  List.length (replace_nth n x l) = List.length l.
Proof.
  revert n. induction l as [|y l IH]; intros [|n]; simpl; auto.
Qed.

Lemma dict_items_reads (d : loc) (w : @World Key Val U) :
  snd (dict_items d w) = w.
Proof. unfold dict_items. destruct (nth_error (dicts w) d); reflexivity. Qed.

Lemma frame_dict_items {X} (f : @World Key Val U -> X) (d : loc) :
  frame f (dict_items d).
Proof. intros w. now rewrite dict_items_reads. Qed.

Lemma frame_dict_setitem (d : loc) (name : Key) (value : Val) :
  frame (@static Key Val U) (dict_setitem d name value).
Proof.
  unfold dict_setitem.
  apply frame_bind; [apply frame_dict_items | intros c].
  apply frame_modify. intros w. unfold static. simpl.
  now rewrite replace_nth_length.
Qed.

Lemma frame_kept_static {A} (m : M (@World Key Val U) A) :
  frame kept m -> frame static m.
Proof. intros Hm w. specialize (Hm w). unfold kept in Hm. congruence. Qed.

Lemma frame_kept_dicts {A} (m : M (@World Key Val U) A) :
  frame kept m -> frame (@dicts Key Val U) m.
Proof. intros Hm w. specialize (Hm w). unfold kept in Hm. congruence. Qed.

(** User code changes neither the wiring nor the success flag. *)
Lemma frame_run (ctx : CtxRef) (code : @UserCode Key Val U) :
  frame static (run ctx code).
Proof.
  induction code as [|e|u next IH|k v next IH|next IH|name value next IH]; simpl.
  - apply frame_ret.
  - apply frame_raise.
  - apply frame_bind; [apply frame_modify; reflexivity | intros _; exact IH].
  - apply frame_bind;
      [apply frame_kept_static, frame_HadoopContext_write | intros _; exact IH].
  - apply frame_bind; [apply frame_HadoopContext_get_configuration | intros d].
    apply frame_bind; [apply frame_dict_items | intros c; apply IH].
  - apply frame_bind; [apply frame_HadoopContext_get_configuration | intros d].
    apply frame_bind; [apply frame_dict_setitem | intros _; exact IH].
Qed.

Lemma frame_invoke (ctx : CtxRef) (c : Call) (code : U -> @UserCode Key Val U) :
  frame static (invoke ctx c code).
Proof.
  unfold invoke.
  apply frame_bind; [apply frame_modify; reflexivity | intros _].
  apply (frame_reading _ (fun w0 => run ctx (code (user w0)))).
  intros w0. apply frame_run.
Qed.

Lemma the_mapper_reads (w : @World Key Val U) : snd (the_mapper w) = w.
Proof. unfold the_mapper. destruct (mapper (job w)); reflexivity. Qed.

Lemma the_reducer_reads (w : @World Key Val U) : snd (the_reducer w) = w.
Proof. unfold the_reducer. destruct (reducer (job w)); reflexivity. Qed.

Lemma frame_the_mapper {X} (f : @World Key Val U -> X) : frame f the_mapper.
Proof. intros w. now rewrite the_mapper_reads. Qed.

Lemma frame_the_reducer {X} (f : @World Key Val U -> X) : frame f the_reducer.
Proof. intros w. now rewrite the_reducer_reads. Qed.

Lemma frame_map_phase (h : Handle) : frame (@static Key Val U) (map_phase h).
Proof.
  unfold map_phase.
  apply frame_bind; [apply frame_the_mapper | intros m].
  apply frame_bind; [apply frame_invoke | intros _].
  apply frame_bind.
  - destruct h as [r|records ending|items]; simpl; try apply frame_raise.
    apply frame_bind.
    + apply frame_for_each. intros kv.
      apply frame_bind; [apply frame_the_mapper | intros m'; apply frame_invoke].
    + intros _. destruct ending; [apply frame_raise | apply frame_ret].
  - intros _. apply frame_bind; [apply frame_the_mapper | intros m'; apply frame_invoke].
Qed.

Lemma frame_reduce_phase (h : Handle) : frame (@static Key Val U) (reduce_phase h).
Proof.
  unfold reduce_phase.
  apply frame_bind; [apply frame_the_reducer | intros r].
  apply frame_bind; [apply frame_invoke | intros _].
  apply frame_bind.
  - destruct h as [s|records ending|items]; simpl; try apply frame_raise.
    apply frame_for_each. intros kv.
    apply frame_bind; [apply frame_the_reducer | intros r'; apply frame_invoke].
  - intros _. apply frame_bind; [apply frame_the_reducer | intros r'; apply frame_invoke].
Qed.

Lemma frame_map_scope : frame (@static Key Val U) map_scope.
Proof.
  unfold map_scope. apply frame_with.
  - apply frame_kept_static, frame_HadoopContext_enter.
  - apply frame_kept_static, frame_HadoopContext_exit.
  - apply frame_map_phase.
Qed.

Lemma frame_reduce_scope : frame (@static Key Val U) reduce_scope.
Proof.
  unfold reduce_scope. apply frame_with.
  - apply frame_kept_static, frame_HadoopContext_enter.
  - apply frame_kept_static, frame_HadoopContext_exit.
  - apply frame_reduce_phase.
Qed.

Lemma start_check_reads (w : @World Key Val U) : snd (start_check w) = w.
Proof.
  unfold start_check, bind, assert.
  repeat match goal with
         | |- context [is_not_None ?x] => destruct (is_not_None x); simpl
         end; reflexivity.
Qed.

Lemma static_successful (w w' : @World Key Val U) :
  static w' = static w -> is_successful w' = is_successful w.
Proof. unfold static, is_successful. intros Heq. congruence. Qed.

Lemma getitem_after_write (k : Key) (v : Val) (s : @ShuffleStream Key Val) :
  Dict.getitem key_eq_dec k (shuffle_pair (snd (ShuffleStream_write k v s)))
  = Some (appended k v s).
Proof.
  rewrite ShuffleStream_write_spec. simpl. unfold appended.
  destruct (Dict.mem key_eq_dec k (shuffle_pair s)) eqn:Hmem.
  - rewrite getitem_adjust_same.
    destruct (Dict.getitem key_eq_dec k (shuffle_pair s)) eqn:Hget; [reflexivity|].
    apply getitem_None_iff in Hget. congruence.
  - rewrite getitem_setitem_same.
    apply getitem_None_iff in Hmem. now rewrite Hmem.
Qed.

(** C7 (context write guard).  For every context [c] of the job: when the
    writable stream it wraps is closed, [context.write(key, value)] fails
    with an assertion error and changes nothing; whenever [is_open()] does
    not answer true the call raises and changes nothing; when the stream is
    open the call is the stream's own [write]. *)
Theorem context_write_guard (self : CtxRef) (c : HadoopContext) (k : Key) (v : Val)
  (w : @World Key Val U) :
  context self w = (Ok c, w) ->
  (stream_is_open (key_value_output_stream c) w = (Ok false, w) ->
   HadoopContext_write self k v w = (Raised AssertionError, w)) /\
  (fst (stream_is_open (key_value_output_stream c) w) <> Ok true ->
   exists e, HadoopContext_write self k v w = (Raised e, w)) /\
  (stream_is_open (key_value_output_stream c) w = (Ok true, w) ->
   HadoopContext_write self k v w
   = stream_write (key_value_output_stream c) k v w).
Proof.
  intros Hc. unfold HadoopContext_write, bind. rewrite Hc.
  split; [|split].
  - intros Hclosed. rewrite Hclosed. reflexivity.
  - intros Hnot.
    assert (Hsame : snd (stream_is_open (key_value_output_stream c) w) = w).
    { destruct (key_value_output_stream c) as [[| |]|]; reflexivity. }
    destruct (stream_is_open (key_value_output_stream c) w) as [[[|]|e] w'];
      simpl in *; subst w'.
    + congruence.
    + exists AssertionError. reflexivity.
    + exists e. reflexivity.
  - intros Hopen. rewrite Hopen. reflexivity.
Qed.

(** C1, as the code has it.  Closing the scope of a ShuffleStream leaves it
    closed and in its read phase.  From then on a write made through a
    context that wraps the store is rejected with an assertion error, and
    the store is unchanged, as long as the store is closed.  The store's own
    [write] has no guard: called directly it returns normally and appends
    the value to the key's group, and so does a context write once the
    store has been entered again. *)
Theorem write_after_scope_closed (self : CtxRef) (c : HadoopContext) (k : Key)
  (v : Val) (w : @World Key Val U) :
  context self w = (Ok c, w) ->
  key_value_output_stream c = Some ShuffleObj ->
  let closed_w := snd (stream_exit (Some ShuffleObj) w) in
  let reopened_w := snd (stream_enter (Some ShuffleObj) closed_w) in
  write_phase (shuffle closed_w) = false /\
  stream_is_open (Some ShuffleObj) closed_w = (Ok false, closed_w) /\
  HadoopContext_write self k v closed_w = (Raised AssertionError, closed_w) /\
  fst (ShuffleStream_write k v (shuffle closed_w)) = Ok tt /\
  Dict.getitem key_eq_dec k
    (shuffle_pair (snd (ShuffleStream_write k v (shuffle closed_w))))
  = Some (appended k v (shuffle closed_w)) /\
  fst (HadoopContext_write self k v reopened_w) = Ok tt /\
  Dict.getitem key_eq_dec k
    (shuffle_pair (shuffle (snd (HadoopContext_write self k v reopened_w))))
  = Some (appended k v (shuffle reopened_w)).
Proof.
  intros Hc Hout closed_w reopened_w.
  assert (Hjob : job closed_w = job w).
  { unfold closed_w. simpl. unfold on_shuffle, ShuffleStream_exit.
    destruct (write_phase (shuffle w)); reflexivity. }
  assert (Hjob' : job reopened_w = job w).
  { unfold reopened_w. simpl. unfold on_shuffle, ShuffleStream_enter. simpl.
    destruct (write_phase (shuffle closed_w)); simpl; exact Hjob. }
  assert (Hctx : forall w', job w' = job w -> context self w' = (Ok c, w')).
  { intros w' Hw'. unfold context in *. rewrite Hw'.
    destruct self; [destruct (map_context (job w)) | destruct (reduce_context (job w))];
      congruence. }
  assert (Hstate : shuffle_open_state (shuffle closed_w) = Some false
                   /\ write_phase (shuffle closed_w) = false).
  { unfold closed_w. simpl. unfold on_shuffle, ShuffleStream_exit.
    destruct (write_phase (shuffle w)); simpl; auto. }
  destruct Hstate as [Hopen Hphase].
  split; [exact Hphase|].
  split; [simpl; now rewrite Hopen|].
  split.
  { unfold HadoopContext_write, bind. rewrite (Hctx _ Hjob), Hout.
    simpl. now rewrite Hopen. }
  split; [now rewrite ShuffleStream_write_spec|].
  split; [apply getitem_after_write|].
  assert (Hreopen : shuffle_open_state (shuffle reopened_w) = Some true).
  { unfold reopened_w. simpl. unfold on_shuffle, ShuffleStream_enter. simpl.
    destruct (write_phase (shuffle closed_w)); reflexivity. }
  unfold HadoopContext_write, bind. rewrite (Hctx _ Hjob'), Hout.
  simpl. rewrite Hreopen. simpl. unfold on_shuffle.
  rewrite ShuffleStream_write_spec. simpl.
  split; [reflexivity|].
  pose proof (getitem_after_write k v (shuffle reopened_w)) as Hget.
  rewrite ShuffleStream_write_spec in Hget. exact Hget.
Qed.

(** C6 (success flag).  A job is constructed with its flag false.  For every
    run of [start_job] that begins with the flag false, [is_successful()] is
    true afterwards if and only if [start_job] returned, that is, both the
    map scope and the reduce scope completed; when anything raised (the
    start check, a stream, a hook of either phase) the flag is still
    false. *)
Theorem success_flag_iff_completed (w : @World Key Val U) :
  is_successful w = false ->
  (forall config w0, is_successful (snd (HadoopJob_init (U := U) config w0)) = false) /\
  (is_successful (snd (start_job w)) = true <-> fst (start_job w) = Ok tt) /\
  (fst (start_job w) = Ok tt <->
   fst (start_check w) = Ok tt /\ fst (map_scope w) = Ok tt /\
   fst (reduce_scope (snd (map_scope w))) = Ok tt) /\
  (forall e, fst (start_job w) = Raised e -> is_successful (snd (start_job w)) = false).
Proof.
  intros Hflag. split.
  { intros config w0. unfold HadoopJob_init, bind, new_dict, modify_job, modify.
    simpl. destruct config as [c|]; simpl; [|reflexivity].
    unfold dict_items. simpl.
    destruct (nth_error (dicts w0 ++ [Dict.empty Key Val]) c); simpl; [|reflexivity].
    destruct (nth_error (dicts w0 ++ [Dict.empty Key Val]) (List.length (dicts w0)));
      reflexivity. }
  unfold start_job, bind.
  pose proof (start_check_reads w) as H0.
  destruct (start_check w) as [[[]|e0] w1]; simpl in *; subst w1.
  - pose proof (static_successful _ _ (frame_map_scope w)) as H1.
    destruct (map_scope w) as [[[]|e1] w2]; simpl in *.
    + pose proof (static_successful _ _ (frame_reduce_scope w2)) as H2.
      destruct (reduce_scope w2) as [[[]|e2] w3]; simpl in *.
      * split; [split; reflexivity | split; [tauto | discriminate]].
      * split; [split; [congruence | discriminate] | split; [|intros; congruence]].
        split; [discriminate | intros (_ & _ & Habs); discriminate].
    + split; [split; [congruence | discriminate] | split; [|intros; congruence]].
      split; [discriminate | intros (_ & Habs & _); discriminate].
  - split; [split; [congruence | discriminate] | split; [|intros; congruence]].
    split; [discriminate | intros (Habs & _); discriminate].
Qed.

(** *** The map scope of a fully configured job *)

Lemma start_check_ok (w : @World Key Val U) :
  fully_configured w -> start_check w = (Ok tt, w).
Proof.
  intros (Hm & Hr & Hi & Hs & Ho & Hmc & Hrc & _).
  unfold start_check, bind. rewrite Hm, Hr, Hi, Hs, Ho. simpl.
  destruct (map_context (job w)); [|discriminate].
  destruct (reduce_context (job w)); [|discriminate].
  reflexivity.
Qed.

Lemma wiring_inv (x : option (@HadoopContext)) (cfg : loc)
  (i o : option StreamRef) :
  wiring x = Some (cfg, i, o) ->
  exists st, x = Some {| context_open_state := st; context_config := cfg;
                         key_value_input_stream := i;
                         key_value_output_stream := o |}.
Proof.
  destruct x as [[st cfg' i' o']|]; simpl; intros Heq; [|discriminate].
  inversion Heq; subst. now exists st.
Qed.

(** Leaving the map scope closes the context, the input adapter and the
    shuffle store, and does not raise. *)
Lemma exit_map_context (w : @World Key Val U) (cfg : loc) :
  wiring (map_context (job w)) = Some (cfg, Some InputObj, Some ShuffleObj) ->
  exists w',
    HadoopContext_exit MapContext w = (Ok tt, w') /\
    input_open_state (input w') = Some false /\
    shuffle_open_state (shuffle w') = Some false /\
    option_map context_open_state (map_context (job w')) = Some (Some false) /\
    shuffle w' = snd (ShuffleStream_exit (shuffle w)) /\
    output w' = output w /\ calls w' = calls w.
Proof.
  intros Hw. apply wiring_inv in Hw. destruct Hw as [st Hc].
  unfold HadoopContext_exit, bind, context. rewrite Hc. simpl.
  unfold modify, on_input, on_shuffle. simpl.
  unfold ShuffleStream_exit. simpl.
  destruct (write_phase (shuffle w)); simpl;
    (eexists; split; [reflexivity|]); simpl; rewrite Hc; simpl; repeat split.
Qed.

Lemma the_mapper_ok (m : Mapper) (w : @World Key Val U) :
  mapper (job w) = Some m -> the_mapper w = (Ok m, w).
Proof. intros Hm. unfold the_mapper. now rewrite Hm. Qed.

Lemma the_reducer_ok (r : Reducer) (w : @World Key Val U) :
  reducer (job w) = Some r -> the_reducer w = (Ok r, w).
Proof. intros Hr. unfold the_reducer. now rewrite Hr. Qed.

Lemma static_eq_of {A} (m : M (@World Key Val U) A) (w w' : World) (r : res A) :
  frame static m -> m w = (r, w') -> static w' = static w.
Proof. intros Hm Heq. specialize (Hm w). now rewrite Heq in Hm. Qed.

Lemma static_mapper (w w' : @World Key Val U) :
  static w' = static w -> mapper (job w') = mapper (job w).
Proof. unfold static. congruence. Qed.

Lemma static_reducer (w w' : @World Key Val U) :
  static w' = static w -> reducer (job w') = reducer (job w).
Proof. unfold static. congruence. Qed.

Lemma static_fully_configured (w w' : @World Key Val U) :
  static w' = static w -> fully_configured w -> fully_configured w'.
Proof.
  unfold static, fully_configured. intros Heq.
  inversion Heq as [[E1 E2 E3 E4 E5 E6 E7 E8 E9 E10 E11 E12]].
  rewrite E1, E2, E3, E4, E5, E6, E7, E8, E12. tauto.
Qed.

(** The loop of [map_phase] looks the mapper up at every record and finds
    the same one. *)
Lemma map_loop (m : Mapper) (l : list (Key * Val)) :
  forall w : @World Key Val U,
    mapper (job w) = Some m ->
    for_each (fun kv => m' <- the_mapper ;;
                        invoke MapContext (MapperMap (fst kv) (snd kv))
                          (mapper_map m' (fst kv) (snd kv))) l w
    = map_records m l w.
Proof.
  unfold map_records.
  induction l as [|kv l IH]; intros w Hm; simpl.
  - reflexivity.
  - destruct (invoke MapContext (MapperMap (fst kv) (snd kv))
                (mapper_map m (fst kv) (snd kv)) w) as [[[]|e] w1] eqn:Hinv.
    + assert (Hhead : (m' <- the_mapper ;;
                       invoke MapContext (MapperMap (fst kv) (snd kv))
                         (mapper_map m' (fst kv) (snd kv))) w = (Ok tt, w1)).
      { rewrite (bind_ok _ _ _ _ _ (the_mapper_ok _ _ Hm)). exact Hinv. }
      rewrite (bind_ok _ _ _ _ _ Hhead), (bind_ok _ _ _ _ _ Hinv). apply IH.
      rewrite (static_mapper _ _ (static_eq_of _ _ _ _ (frame_invoke _ _ _) Hinv)). exact Hm.
    + assert (Hhead : (m' <- the_mapper ;;
                       invoke MapContext (MapperMap (fst kv) (snd kv))
                         (mapper_map m' (fst kv) (snd kv))) w = (Raised e, w1)).
      { rewrite (bind_ok _ _ _ _ _ (the_mapper_ok _ _ Hm)). exact Hinv. }
      rewrite (bind_raised _ _ _ _ _ Hhead), (bind_raised _ _ _ _ _ Hinv). reflexivity.
Qed.

Lemma frame_map_records (m : Mapper) (l : list (Key * Val)) :
  frame (@static Key Val U) (map_records m l).
Proof. apply frame_for_each. intros kv. apply frame_invoke. Qed.

(** C5 (failure isolation).  For every fully configured job whose flag is
    false: if, in the map scope, [mapper.setup] and the [map] calls on the
    records [pre] return and the [map] call on the next record raises [e],
    then [start_job] raises [e] to its caller, the success flag is still
    false, and [is_open()] answers false on the input stream and on the
    shuffle store after the run; the map context itself is closed too. *)
Theorem map_failure_closes_streams (w w0 w1 w2 w3 : @World Key Val U) (m : Mapper)
  (pre post : list (Key * Val)) (k : Key) (v : Val) (ending : option exn)
  (e : exn) :
  fully_configured w ->
  is_successful w = false ->
  mapper (job w) = Some m ->
  HadoopContext_enter MapContext w
  = (Ok (HRecords (pre ++ (k, v) :: post) ending), w0) ->
  invoke MapContext MapperSetup (mapper_setup m) w0 = (Ok tt, w1) ->
  map_records m pre w1 = (Ok tt, w2) ->
  invoke MapContext (MapperMap k v) (mapper_map m k v) w2 = (Raised e, w3) ->
  fst (start_job w) = Raised e /\
  is_successful (snd (start_job w)) = false /\
  stream_is_open (Some InputObj) (snd (start_job w))
  = (Ok false, snd (start_job w)) /\
  stream_is_open (Some ShuffleObj) (snd (start_job w))
  = (Ok false, snd (start_job w)) /\
  option_map context_open_state (map_context (job (snd (start_job w))))
  = Some (Some false).
Proof.
  intros Hfull Hflag Hm Henter Hsetup Hpre Hmap.
  pose proof (static_eq_of _ _ _ _
                (frame_kept_static _ (frame_HadoopContext_enter MapContext))
                Henter) as S0.
  pose proof (static_eq_of _ _ _ _ (frame_invoke _ _ _) Hsetup) as S1.
  pose proof (static_eq_of _ _ _ _ (frame_map_records m pre) Hpre) as S2.
  pose proof (static_eq_of _ _ _ _ (frame_invoke _ _ _) Hmap) as S3.
  assert (S : static w3 = static w) by congruence.
  assert (Hm0 : mapper (job w0) = Some m) by (rewrite (static_mapper _ _ S0); exact Hm).
  assert (Hm1 : mapper (job w1) = Some m) by (rewrite (static_mapper _ _ S1); exact Hm0).
  assert (Hloop : for_each
                    (fun kv => m' <- the_mapper ;;
                               invoke MapContext (MapperMap (fst kv) (snd kv))
                                 (mapper_map m' (fst kv) (snd kv)))
                    (pre ++ (k, v) :: post) w1 = (Raised e, w3)).
  { rewrite (map_loop m _ _ Hm1). unfold map_records in *. rewrite for_each_app.
    rewrite (bind_ok _ _ _ _ _ Hpre). simpl.
    rewrite (bind_raised _ _ _ _ _ Hmap). reflexivity. }
  assert (Hphase : map_phase (HRecords (pre ++ (k, v) :: post) ending) w0
                   = (Raised e, w3)).
  { unfold map_phase. rewrite (bind_ok _ _ _ _ _ (the_mapper_ok _ _ Hm0)).
    rewrite (bind_ok _ _ _ _ _ Hsetup). apply bind_raised.
    simpl. apply bind_raised. exact Hloop. }
  pose proof Hfull as (_ & _ & _ & _ & _ & Hmc & _).
  destruct (exit_map_context w3 (job_config (job w)))
    as (w4 & Hexit & Hin & Hsh & Hctx & _).
  { unfold static in S. congruence. }
  assert (Hscope : map_scope w = (Raised e, w4)).
  { unfold map_scope, with_. rewrite Henter, Hphase, Hexit. reflexivity. }
  assert (Hrun : start_job w = (Raised e, w4)).
  { unfold start_job. rewrite (bind_ok _ _ _ _ _ (start_check_ok _ Hfull)).
    apply bind_raised. exact Hscope. }
  rewrite Hrun. simpl. rewrite Hin, Hsh. simpl.
  split; [reflexivity|]. split; [|auto].
  pose proof (static_eq_of _ _ _ _ frame_map_scope Hscope) as S4.
  rewrite (static_successful _ _ S4). exact Hflag.
Qed.

(** *** Naming the mapper and the reducer once *)

Lemma bind_same_head {S A B} (m m' : M S A) (k : A -> M S B) (s : S) :
  m s = m' s -> bind m k s = bind m' k s.
Proof. intros Heq. unfold bind. now rewrite Heq. Qed.

Lemma bind_same_tail {S A B} (m : M S A) (k k' : A -> M S B) (s : S) :
  (forall a s', m s = (Ok a, s') -> k a s' = k' a s') ->
  bind m k s = bind m k' s.
Proof.
  intros Heq. unfold bind. destruct (m s) as [[a|e] s']; [now apply Heq | reflexivity].
Qed.

Lemma map_phase_resolved (m : Mapper) (h : Handle) (w : @World Key Val U) :
  mapper (job w) = Some m -> map_phase h w = map_phase_of m h w.
Proof.
  intros Hm. unfold map_phase, map_phase_of.
  rewrite (bind_ok _ _ _ _ _ (the_mapper_ok _ _ Hm)).
  apply bind_same_tail. intros [] w1 Hsetup.
  assert (Hm1 : mapper (job w1) = Some m).
  { rewrite (static_mapper _ _ (static_eq_of _ _ _ _ (frame_invoke _ _ _) Hsetup)).
    exact Hm. }
  assert (Hloop : for_records h
            (fun kv => m' <- the_mapper ;;
                       invoke MapContext (MapperMap (fst kv) (snd kv))
                         (mapper_map m' (fst kv) (snd kv))) w1
          = for_records h
              (fun kv => invoke MapContext (MapperMap (fst kv) (snd kv))
                           (mapper_map m (fst kv) (snd kv))) w1).
  { destruct h as [r|records ending|items]; simpl; try reflexivity.
    apply bind_same_head. apply (map_loop m records w1 Hm1). }
  rewrite (bind_same_head _ _ _ _ Hloop).
  apply bind_same_tail. intros [] w2 Hrecords.
  assert (S2 : static w2 = static w1).
  { refine (static_eq_of _ _ _ _ _ Hrecords).
    destruct h as [r|records ending|items]; simpl; try apply frame_raise.
    apply frame_bind; [apply frame_map_records|].
    intros _. destruct ending; [apply frame_raise | apply frame_ret]. }
  assert (Hm2 : mapper (job w2) = Some m)
    by (rewrite (static_mapper _ _ S2); exact Hm1).
  rewrite (bind_ok _ _ _ _ _ (the_mapper_ok _ _ Hm2)). reflexivity.
Qed.

Lemma reduce_loop (r : Reducer) (l : list (Key * list Val)) :
  forall w : @World Key Val U,
    reducer (job w) = Some r ->
    for_each (fun kvs => r' <- the_reducer ;;
                         invoke ReduceContext (ReducerReduce (fst kvs) (snd kvs))
                           (reducer_reduce r' (fst kvs) (snd kvs))) l w
    = for_each (fun kvs => invoke ReduceContext (ReducerReduce (fst kvs) (snd kvs))
                             (reducer_reduce r (fst kvs) (snd kvs))) l w.
Proof.
  induction l as [|kvs l IH]; intros w Hr; simpl.
  - reflexivity.
  - rewrite (bind_same_head _ _ _ _ (bind_ok _ _ _ _ _ (the_reducer_ok _ _ Hr))).
    apply bind_same_tail. intros [] w1 Hinv. apply IH.
    rewrite (static_reducer _ _ (static_eq_of _ _ _ _ (frame_invoke _ _ _) Hinv)).
    exact Hr.
Qed.

Lemma reduce_phase_resolved (r : Reducer) (h : Handle) (w : @World Key Val U) :
  reducer (job w) = Some r -> reduce_phase h w = reduce_phase_of r h w.
Proof.
  intros Hr. unfold reduce_phase, reduce_phase_of.
  rewrite (bind_ok _ _ _ _ _ (the_reducer_ok _ _ Hr)).
  apply bind_same_tail. intros [] w1 Hsetup.
  assert (Hr1 : reducer (job w1) = Some r).
  { rewrite (static_reducer _ _ (static_eq_of _ _ _ _ (frame_invoke _ _ _) Hsetup)).
    exact Hr. }
  assert (Hloop : for_items h
            (fun kvs => r' <- the_reducer ;;
                        invoke ReduceContext (ReducerReduce (fst kvs) (snd kvs))
                          (reducer_reduce r' (fst kvs) (snd kvs))) w1
          = for_items h
              (fun kvs => invoke ReduceContext (ReducerReduce (fst kvs) (snd kvs))
                            (reducer_reduce r (fst kvs) (snd kvs))) w1).
  { destruct h as [s|records ending|items]; simpl; try reflexivity.
    apply (reduce_loop r items w1 Hr1). }
  rewrite (bind_same_head _ _ _ _ Hloop).
  apply bind_same_tail. intros [] w2 Hitems.
  assert (S2 : static w2 = static w1).
  { refine (static_eq_of _ _ _ _ _ Hitems).
    destruct h as [s|records ending|items]; simpl; try apply frame_raise.
    apply frame_for_each. intros kvs. apply frame_invoke. }
  assert (Hr2 : reducer (job w2) = Some r)
    by (rewrite (static_reducer _ _ S2); exact Hr1).
  rewrite (bind_ok _ _ _ _ _ (the_reducer_ok _ _ Hr2)). reflexivity.
Qed.

Lemma with_same_body {S Hd A} (enter : M S Hd) (exit : M S unit)
  (body body' : Hd -> M S A) (s : S) :
  (forall h s1, enter s = (Ok h, s1) -> body h s1 = body' h s1) ->
  with_ enter exit body s = with_ enter exit body' s.
Proof.
  intros Heq. unfold with_. destruct (enter s) as [[h|e] s1]; [|reflexivity].
  now rewrite (Heq h s1).
Qed.

Lemma map_scope_resolved (m : Mapper) (w : @World Key Val U) :
  mapper (job w) = Some m ->
  map_scope w
  = with_ (HadoopContext_enter MapContext) (HadoopContext_exit MapContext)
      (map_phase_of m) w.
Proof.
  intros Hm. unfold map_scope. apply with_same_body. intros h w1 Henter.
  apply map_phase_resolved.
  rewrite (static_mapper _ _
             (static_eq_of _ _ _ _
                (frame_kept_static _ (frame_HadoopContext_enter MapContext)) Henter)).
  exact Hm.
Qed.

Lemma reduce_scope_resolved (r : Reducer) (w : @World Key Val U) :
  reducer (job w) = Some r ->
  reduce_scope w
  = with_ (HadoopContext_enter ReduceContext) (HadoopContext_exit ReduceContext)
      (reduce_phase_of r) w.
Proof.
  intros Hr. unfold reduce_scope. apply with_same_body. intros h w1 Henter.
  apply reduce_phase_resolved.
  rewrite (static_reducer _ _
             (static_eq_of _ _ _ _
                (frame_kept_static _ (frame_HadoopContext_enter ReduceContext)) Henter)).
  exact Hr.
Qed.

(** *** The configuration mapping *)

Lemma frame_run_reader (ctx : CtxRef) (code : @UserCode Key Val U) :
  config_reader code -> frame (@dicts Key Val U) (run ctx code).
Proof.
  induction code as [|e|u next IH|k v next IH|next IH|name value next IH];
    simpl; intros Hreader.
  - apply frame_ret.
  - apply frame_raise.
  - apply frame_bind; [apply frame_modify; reflexivity | intros _; now apply IH].
  - apply frame_bind;
      [apply frame_kept_dicts, frame_HadoopContext_write | intros _; now apply IH].
  - apply frame_bind; [apply frame_HadoopContext_get_configuration | intros d].
    apply frame_bind; [apply frame_dict_items | intros c; now apply IH].
  - contradiction.
Qed.

Lemma frame_invoke_reader (ctx : CtxRef) (c : Call) (code : U -> @UserCode Key Val U) :
  (forall u, config_reader (code u)) -> frame (@dicts Key Val U) (invoke ctx c code).
Proof.
  intros Hreader. unfold invoke.
  apply frame_bind; [apply frame_modify; reflexivity | intros _].
  apply (frame_reading _ (fun w0 => run ctx (code (user w0)))).
  intros w0. apply frame_run_reader, Hreader.
Qed.

Lemma frame_map_phase_reader (m : Mapper) (h : Handle) :
  mapper_reads_config m -> frame (@dicts Key Val U) (map_phase_of m h).
Proof.
  intros (Hsetup & Hmap & Hcleanup). unfold map_phase_of.
  apply frame_bind; [now apply frame_invoke_reader | intros _].
  apply frame_bind; [|intros _; now apply frame_invoke_reader].
  destruct h as [r|records ending|items]; simpl; try apply frame_raise.
  apply frame_bind.
  - apply frame_for_each. intros kv. apply frame_invoke_reader. intros u. apply Hmap.
  - intros _. destruct ending; [apply frame_raise | apply frame_ret].
Qed.

Lemma frame_reduce_phase_reader (r : Reducer) (h : Handle) :
  reducer_reads_config r -> frame (@dicts Key Val U) (reduce_phase_of r h).
Proof.
  intros (Hsetup & Hreduce & Hcleanup). unfold reduce_phase_of.
  apply frame_bind; [now apply frame_invoke_reader | intros _].
  apply frame_bind; [|intros _; now apply frame_invoke_reader].
  destruct h as [s|records ending|items]; simpl; try apply frame_raise.
  apply frame_for_each. intros kvs. apply frame_invoke_reader. intros u. apply Hreduce.
Qed.

Lemma start_job_keeps_dicts (m : Mapper) (r : Reducer) (w : @World Key Val U) :
  mapper (job w) = Some m -> reducer (job w) = Some r ->
  mapper_reads_config m -> reducer_reads_config r ->
  dicts (snd (start_job w)) = dicts w.
Proof.
  intros Hm Hr Hmr Hrr. unfold start_job, bind.
  pose proof (start_check_reads w) as H0.
  destruct (start_check w) as [[[]|e0] w1]; simpl in *; subst w1; [|reflexivity].
  assert (H1 : dicts (snd (map_scope w)) = dicts w).
  { rewrite (map_scope_resolved m w Hm). apply frame_with.
    - apply frame_kept_dicts, frame_HadoopContext_enter.
    - apply frame_kept_dicts, frame_HadoopContext_exit.
    - intros h. now apply frame_map_phase_reader. }
  pose proof (frame_map_scope w) as S1.
  destruct (map_scope w) as [[[]|e1] w2]; simpl in *; [|exact H1].
  assert (Hr2 : reducer (job w2) = Some r)
    by (rewrite (static_reducer _ _ S1); exact Hr).
  assert (H2 : dicts (snd (reduce_scope w2)) = dicts w2).
  { rewrite (reduce_scope_resolved r w2 Hr2). apply frame_with.
    - apply frame_kept_dicts, frame_HadoopContext_enter.
    - apply frame_kept_dicts, frame_HadoopContext_exit.
    - intros h. now apply frame_reduce_phase_reader. }
  destruct (reduce_scope w2) as [[[]|e2] w3]; simpl in *; congruence.
Qed.

Lemma nth_error_replace_nth {A} (n : nat) (x : A) (l : list A) :
  n < List.length l -> nth_error (replace_nth n x l) n = Some x.
Proof.
  revert n. induction l as [|y l IH]; intros [|n] Hlt; simpl in *; try lia.
  - reflexivity.
  - apply IH. lia.
Qed.

Lemma get_configuration_of_job (self : CtxRef) (w : @World Key Val U) :
  fully_configured w ->
  HadoopContext_get_configuration self w = (Ok (job_config (job w)), w).
Proof.
  intros (_ & _ & _ & _ & _ & Hmc & Hrc & _).
  apply wiring_inv in Hmc. apply wiring_inv in Hrc.
  destruct Hmc as [st1 Hmc]. destruct Hrc as [st2 Hrc].
  unfold HadoopContext_get_configuration, bind, context.
  destruct self; [rewrite Hmc | rewrite Hrc]; reflexivity.
Qed.

Lemma nth_error_Some_of_lt {A} (l : list A) (n : nat) :
  n < List.length l -> exists x, nth_error l n = Some x.
Proof.
  intros Hlt. destruct (nth_error l n) as [x|] eqn:Hn; [now exists x|].
  apply nth_error_None in Hn. lia.
Qed.

(** C3, as the code has it.  The configuration is a [dict] of the job that
    both contexts hold by reference.  In a fully configured job,
    [get_configuration] of either context answers the address of that very
    [dict]; context entry, context exit and context write leave every [dict]
    as it is, and so does a whole run whose callbacks never assign to the
    mapping.  Nothing makes the mapping read-only: an item assignment made
    by user code through the returned mapping is an assignment to the job's
    configuration. *)
Theorem configuration_is_shared (w : @World Key Val U) (m : Mapper) (r : Reducer) :
  fully_configured w ->
  mapper (job w) = Some m ->
  reducer (job w) = Some r ->
  (forall self,
     HadoopContext_get_configuration self w = (Ok (job_config (job w)), w)) /\
  (forall self, dicts (snd (HadoopContext_enter self w)) = dicts w) /\
  (forall self, dicts (snd (HadoopContext_exit self w)) = dicts w) /\
  (forall self k v, dicts (snd (HadoopContext_write self k v w)) = dicts w) /\
  (mapper_reads_config m -> reducer_reads_config r ->
   configuration (snd (start_job w)) = configuration w) /\
  (forall self name value,
     configuration (snd (run self (ConfigurationSetItem name value Return) w))
     = option_map (Dict.setitem key_eq_dec name value) (configuration w)).
Proof.
  intros Hfull Hm Hr.
  split; [intros self; now apply get_configuration_of_job|].
  split; [intros self; apply (frame_kept_dicts _ (frame_HadoopContext_enter self))|].
  split; [intros self; apply (frame_kept_dicts _ (frame_HadoopContext_exit self))|].
  split; [intros self k v;
          apply (frame_kept_dicts _ (frame_HadoopContext_write self k v))|].
  split.
  - intros Hmr Hrr. unfold configuration.
    rewrite (start_job_keeps_dicts m r w Hm Hr Hmr Hrr).
    assert (S : job_config (job (snd (start_job w))) = job_config (job w)).
    { unfold start_job, bind.
      pose proof (start_check_reads w) as H0.
      destruct (start_check w) as [[[]|e0] w1]; simpl in *; subst w1; [|reflexivity].
      pose proof (frame_map_scope w) as S1.
      destruct (map_scope w) as [[[]|e1] w2]; simpl in *;
        [|unfold static in S1; congruence].
      pose proof (frame_reduce_scope w2) as S2.
      destruct (reduce_scope w2) as [[[]|e2] w3]; simpl in *;
        unfold static in S1, S2; congruence. }
    now rewrite S.
  - intros self name value. simpl.
    rewrite (bind_ok _ _ _ _ _ (get_configuration_of_job self w Hfull)).
    pose proof Hfull as (_ & _ & _ & _ & _ & _ & _ & Hlt).
    destruct (nth_error_Some_of_lt _ _ Hlt) as [c Hc].
    unfold configuration. rewrite Hc. simpl.
    unfold dict_setitem, bind, dict_items. rewrite Hc. simpl.
    now rewrite nth_error_replace_nth.
Qed.

(** *** A run over an input that yields nothing *)

Lemma machine_fully_configured (w w' : @World Key Val U) :
  machine w' = machine w -> fully_configured w -> fully_configured w'.
Proof.
  unfold machine, fully_configured. intros Heq.
  inversion Heq as [[E1 E2 E3 E4 E5 E6 E7]]. rewrite E4, E7. tauto.
Qed.

Lemma dict_items_ok (d : loc) (w : @World Key Val U) :
  d < List.length (dicts w) -> exists c, dict_items d w = (Ok c, w).
Proof.
  intros Hlt. destruct (nth_error_Some_of_lt _ _ Hlt) as [c Hc].
  exists c. unfold dict_items. now rewrite Hc.
Qed.

(** A quiet callback returns, and reaches nothing but the [dict]s and the
    user's own objects. *)
Lemma run_quiet (ctx : CtxRef) (code : @UserCode Key Val U) :
  forall w : @World Key Val U,
    fully_configured w -> quiet code ->
    exists w', run ctx code w = (Ok tt, w') /\
               machine w' = machine w /\ calls w' = calls w.
Proof.
  induction code as [|e|u next IH|k v next IH|next IH|name value next IH];
    simpl; intros w Hfull Hquiet.
  - exists w. auto.
  - contradiction.
  - destruct (IH (set_user u w)) as (w' & Hrun & Hmach & Hcalls);
      [exact Hfull | exact Hquiet |].
    exists w'. split; [|split; assumption].
    unfold bind, modify. exact Hrun.
  - contradiction.
  - rewrite (bind_ok _ _ _ _ _ (get_configuration_of_job ctx w Hfull)). cbv beta.
    pose proof Hfull as (_ & _ & _ & _ & _ & _ & _ & Hlt).
    destruct (dict_items_ok _ w Hlt) as [c Hc].
    rewrite (bind_ok _ _ _ _ _ Hc). now apply IH.
  - rewrite (bind_ok _ _ _ _ _ (get_configuration_of_job ctx w Hfull)). cbv beta.
    pose proof Hfull as (_ & _ & _ & _ & _ & _ & _ & Hlt).
    destruct (dict_items_ok _ w Hlt) as [c Hc].
    unfold dict_setitem. unfold bind at 1. rewrite (bind_ok _ _ _ _ _ Hc).
    cbv beta. unfold modify.
    set (w1 := set_dicts _ w).
    assert (Hm1 : machine w1 = machine w).
    { unfold machine, w1. simpl. now rewrite replace_nth_length. }
    destruct (IH w1) as (w' & Hrun & Hmach & Hcalls);
      [now apply (machine_fully_configured w) | exact Hquiet |].
    exists w'. split; [exact Hrun | split; [congruence | exact Hcalls]].
Qed.

Lemma invoke_quiet (ctx : CtxRef) (c : Call) (code : U -> @UserCode Key Val U)
  (w : @World Key Val U) :
  fully_configured w -> (forall u, quiet (code u)) ->
  exists w', invoke ctx c code w = (Ok tt, w') /\
             machine w' = machine w /\ calls w' = calls w ++ [c].
Proof.
  intros Hfull Hquiet. unfold invoke, bind, modify.
  destruct (run_quiet ctx (code (user (log_call c w))) (log_call c w))
    as (w' & Hrun & Hmach & Hcalls); [exact Hfull | apply Hquiet |].
  exists w'. auto.
Qed.

Lemma enter_map_context (w : @World Key Val U) (cfg : loc) (ps : list string)
  (records : list (Key * Val)) (ending : option exn) :
  wiring (map_context (job w)) = Some (cfg, Some InputObj, Some ShuffleObj) ->
  paths (input w) = Some ps ->
  assembled_input_stream (input_format_func (input w)) (files w) ps 0
  = (records, ending) ->
  exists w1,
    HadoopContext_enter MapContext w = (Ok (HRecords records ending), w1) /\
    shuffle w1 = snd (ShuffleStream_enter (shuffle w)) /\
    output w1 = output w /\ calls w1 = calls w.
Proof.
  intros Hw Hps Hgen. apply wiring_inv in Hw. destruct Hw as [st Hc].
  unfold HadoopContext_enter, bind, context. rewrite Hc. simpl.
  unfold modify, on_shuffle, on_input, ShuffleStream_enter, HadoopInput_enter. simpl.
  destruct (write_phase (shuffle w)); simpl; rewrite Hps, Hgen;
    eexists; repeat split.
Qed.

Lemma enter_reduce_context (w : @World Key Val U) (cfg : loc) (p : string) :
  wiring (reduce_context (job w)) = Some (cfg, Some ShuffleObj, Some OutputObj) ->
  path (output w) = Some p ->
  ~ In p (unwritable w) ->
  write_phase (shuffle w) = false ->
  exists w1,
    HadoopContext_enter ReduceContext w
    = (Ok (HItems (shuffle_pair (shuffle w))), w1) /\
    shuffle_pair (shuffle w1) = shuffle_pair (shuffle w) /\
    write_phase (shuffle w1) = false /\
    file_stream (output w1) = Some {| closed := false; written := [] |} /\
    calls w1 = calls w.
Proof.
  intros Hw Hp Hwritable Hphase. apply wiring_inv in Hw. destruct Hw as [st Hc].
  unfold HadoopContext_enter, bind, context. rewrite Hc. simpl.
  unfold modify, on_shuffle, on_output, ShuffleStream_enter, HadoopOutput_enter. simpl.
  rewrite Hp. destruct (in_dec string_dec p (unwritable w)); [contradiction|].
  simpl. rewrite Hphase. simpl. eexists. repeat split.
Qed.

Lemma exit_reduce_context (w : @World Key Val U) (cfg : loc) (f : TextFile) :
  wiring (reduce_context (job w)) = Some (cfg, Some ShuffleObj, Some OutputObj) ->
  file_stream (output w) = Some f ->
  write_phase (shuffle w) = false ->
  exists w',
    HadoopContext_exit ReduceContext w = (Ok tt, w') /\
    shuffle_pair (shuffle w') = [] /\
    file_stream (output w') = Some {| closed := true; written := written f |} /\
    calls w' = calls w.
Proof.
  intros Hw Hf Hphase. apply wiring_inv in Hw. destruct Hw as [st Hc].
  unfold HadoopContext_exit, bind, context. rewrite Hc. simpl.
  unfold modify, on_shuffle, on_output, ShuffleStream_exit, HadoopOutput_exit. simpl.
  rewrite Hphase. simpl. rewrite Hf. simpl. eexists. repeat split.
Qed.

Lemma machine_parts (w w' : @World Key Val U) :
  machine w' = machine w ->
  input w' = input w /\ shuffle w' = shuffle w /\ output w' = output w /\
  job w' = job w /\ unwritable w' = unwritable w.
Proof.
  unfold machine. intros Heq. inversion Heq. auto.
Qed.

Lemma map_scope_quiet (w : @World Key Val U) (m : Mapper) :
  fully_configured w ->
  mapper (job w) = Some m ->
  (forall u, quiet (mapper_setup m u)) ->
  (forall u, quiet (mapper_cleanup m u)) ->
  yields_no_record w ->
  exists w',
    map_scope w = (Ok tt, w') /\
    shuffle w' = snd (ShuffleStream_exit (snd (ShuffleStream_enter (shuffle w)))) /\
    output w' = output w /\
    calls w' = calls w ++ [MapperSetup; MapperCleanup].
Proof.
  intros Hfull Hm Hqs Hqc (ps & Hps & Hgen).
  pose proof Hfull as (_ & _ & _ & _ & _ & Hmc & _).
  destruct (enter_map_context w _ ps [] None Hmc Hps Hgen)
    as (w1 & Henter & Hsh1 & Hout1 & Hcalls1).
  assert (Hfull1 : fully_configured w1).
  { apply (static_fully_configured w); [|exact Hfull].
    apply (static_eq_of _ _ _ _
             (frame_kept_static _ (frame_HadoopContext_enter MapContext)) Henter). }
  destruct (invoke_quiet MapContext MapperSetup (mapper_setup m) w1 Hfull1 Hqs)
    as (w2 & Hinv2 & Hmach2 & Hcalls2).
  pose proof (machine_fully_configured _ _ Hmach2 Hfull1) as Hfull2.
  destruct (invoke_quiet MapContext MapperCleanup (mapper_cleanup m) w2 Hfull2 Hqc)
    as (w3 & Hinv3 & Hmach3 & Hcalls3).
  pose proof (machine_fully_configured _ _ Hmach3 Hfull2) as Hfull3.
  assert (Hphase : map_phase_of m (HRecords [] None) w1 = (Ok tt, w3)).
  { unfold map_phase_of. rewrite (bind_ok _ _ _ _ _ Hinv2). cbv beta.
    unfold for_records, for_each. unfold bind at 1 2. exact Hinv3. }
  pose proof Hfull3 as (_ & _ & _ & _ & _ & Hmc3 & _).
  destruct (exit_map_context w3 _ Hmc3)
    as (w4 & Hexit & _ & _ & _ & Hsh4 & Hout4 & Hcalls4).
  destruct (machine_parts _ _ Hmach2) as (_ & Hs2 & Ho2 & _).
  destruct (machine_parts _ _ Hmach3) as (_ & Hs3 & Ho3 & _).
  exists w4. split.
  { rewrite (map_scope_resolved m w Hm). unfold with_.
    rewrite Henter, Hphase, Hexit. reflexivity. }
  split; [congruence|].
  split; [congruence|].
  rewrite Hcalls4, Hcalls3, Hcalls2, Hcalls1, <- app_assoc. reflexivity.
Qed.

Lemma reduce_scope_quiet (w : @World Key Val U) (r : Reducer) (p : string) :
  fully_configured w ->
  reducer (job w) = Some r ->
  (forall u, quiet (reducer_setup r u)) ->
  (forall u, quiet (reducer_cleanup r u)) ->
  shuffle_pair (shuffle w) = [] ->
  write_phase (shuffle w) = false ->
  path (output w) = Some p ->
  ~ In p (unwritable w) ->
  exists w',
    reduce_scope w = (Ok tt, w') /\
    shuffle_pair (shuffle w') = [] /\
    file_stream (output w') = Some {| closed := true; written := [] |} /\
    calls w' = calls w ++ [ReducerSetup; ReducerCleanup].
Proof.
  intros Hfull Hr Hqs Hqc Hpair Hphase Hp Hwritable.
  pose proof Hfull as (_ & _ & _ & _ & _ & _ & Hrc & _).
  destruct (enter_reduce_context w _ p Hrc Hp Hwritable Hphase)
    as (w1 & Henter & Hpair1 & Hphase1 & Hfile1 & Hcalls1).
  rewrite Hpair in Henter.
  assert (Hfull1 : fully_configured w1).
  { apply (static_fully_configured w); [|exact Hfull].
    apply (static_eq_of _ _ _ _
             (frame_kept_static _ (frame_HadoopContext_enter ReduceContext)) Henter). }
  destruct (invoke_quiet ReduceContext ReducerSetup (reducer_setup r) w1 Hfull1 Hqs)
    as (w2 & Hinv2 & Hmach2 & Hcalls2).
  pose proof (machine_fully_configured _ _ Hmach2 Hfull1) as Hfull2.
  destruct (invoke_quiet ReduceContext ReducerCleanup (reducer_cleanup r) w2 Hfull2 Hqc)
    as (w3 & Hinv3 & Hmach3 & Hcalls3).
  pose proof (machine_fully_configured _ _ Hmach3 Hfull2) as Hfull3.
  assert (Hbody : reduce_phase_of r (HItems []) w1 = (Ok tt, w3)).
  { unfold reduce_phase_of. rewrite (bind_ok _ _ _ _ _ Hinv2). cbv beta.
    unfold for_items, for_each. unfold bind at 1. exact Hinv3. }
  pose proof Hfull3 as (_ & _ & _ & _ & _ & _ & Hrc3 & _).
  destruct (machine_parts _ _ Hmach2) as (_ & Hs2 & Ho2 & _).
  destruct (machine_parts _ _ Hmach3) as (_ & Hs3 & Ho3 & _).
  destruct (exit_reduce_context w3 _ {| closed := false; written := [] |} Hrc3)
    as (w4 & Hexit & Hpair4 & Hfile4 & Hcalls4); [congruence | congruence |].
  exists w4. split.
  { rewrite (reduce_scope_resolved r w Hr). unfold with_.
    rewrite Henter, Hbody, Hexit. reflexivity. }
  split; [exact Hpair4|].
  split; [exact Hfile4|].
  rewrite Hcalls4, Hcalls3, Hcalls2, Hcalls1, <- app_assoc. reflexivity.
Qed.

(** C8, as the code has it.  For every fully configured job whose store is
    as the constructor left it (no group, write phase), whose input stream
    yields zero records, whose sink can be opened, and whose four [setup]
    and [cleanup] hooks return without raising or writing (as the hooks of
    the base classes do): [start_job] returns, it invokes [mapper.setup],
    [mapper.cleanup], [reducer.setup] and [reducer.cleanup] exactly once
    each, in that order, and no other hook; the map scope leaves no shuffle
    group; no output record is written; the success flag is true. *)
Theorem empty_input_run (w : @World Key Val U) (m : Mapper) (r : Reducer)
  (p : string) :
  fully_configured w ->
  mapper (job w) = Some m ->
  reducer (job w) = Some r ->
  yields_no_record w ->
  shuffle_pair (shuffle w) = [] ->
  write_phase (shuffle w) = true ->
  path (output w) = Some p ->
  ~ In p (unwritable w) ->
  (forall u, quiet (mapper_setup m u)) ->
  (forall u, quiet (mapper_cleanup m u)) ->
  (forall u, quiet (reducer_setup r u)) ->
  (forall u, quiet (reducer_cleanup r u)) ->
  fst (start_job w) = Ok tt /\ empty_run w.
Proof.
  intros Hfull Hm Hr Hnone Hpair Hphase Hp Hwritable Hms Hmc Hrs Hrc.
  destruct (map_scope_quiet w m Hfull Hm Hms Hmc Hnone)
    as (w2 & Hmap & Hsh2 & Hout2 & Hcalls2).
  pose proof (static_eq_of _ _ _ _ frame_map_scope Hmap) as S2.
  pose proof (static_fully_configured _ _ S2 Hfull) as Hfull2.
  assert (Hstore : shuffle_pair (shuffle w2) = [] /\ write_phase (shuffle w2) = false).
  { rewrite Hsh2. unfold ShuffleStream_enter, ShuffleStream_exit. simpl.
    rewrite Hphase. simpl. auto. }
  destruct Hstore as [Hpair2 Hphase2].
  assert (Hr2 : reducer (job w2) = Some r)
    by (rewrite (static_reducer _ _ S2); exact Hr).
  assert (Hp2 : path (output w2) = Some p) by (rewrite Hout2; exact Hp).
  assert (Hw2 : ~ In p (unwritable w2)).
  { unfold static in S2. replace (unwritable w2) with (unwritable w) by congruence.
    exact Hwritable. }
  destruct (reduce_scope_quiet w2 r p Hfull2 Hr2 Hrs Hrc Hpair2 Hphase2 Hp2 Hw2)
    as (w3 & Hreduce & Hpair3 & Hfile3 & Hcalls3).
  assert (Hrun : start_job w
                 = (Ok tt, snd (modify_job (fun j =>
                      {| job_config := job_config j; mapper := mapper j;
                         reducer := reducer j; input_stream := input_stream j;
                         shuffle_stream := shuffle_stream j;
                         output_stream := output_stream j;
                         map_context := map_context j;
                         reduce_context := reduce_context j;
                         successful := true |}) w3))).
  { unfold start_job. rewrite (bind_ok _ _ _ _ _ (start_check_ok _ Hfull)).
    rewrite (bind_ok _ _ _ _ _ Hmap). rewrite (bind_ok _ _ _ _ _ Hreduce).
    reflexivity. }
  split; [now rewrite Hrun|].
  unfold empty_run. rewrite Hrun, Hmap. simpl.
  rewrite Hcalls3, Hcalls2, <- app_assoc, Hfile3. simpl. auto.
Qed.

End WorldFacts.

(** ** The input adapter *)

Section TextFacts.

Lemma lstrip_spec (s : string) :
  exists pre, s = (pre ++ lstrip s)%string /\ all_space pre = true /\
    (forall c, first_char (lstrip s) = Some c -> isspace c = false).
Proof.
  induction s as [|c s IH]; simpl.
  - exists EmptyString. repeat split. discriminate.
  - destruct (isspace c) eqn:Hc.
    + destruct IH as (pre & Heq & Hpre & Hfirst).
      exists (String c pre). simpl. rewrite Hc, Hpre. repeat split; [|exact Hfirst].
      now rewrite <- Heq.
    + exists EmptyString. repeat split. simpl. intros c' Heq. congruence.
Qed.

Lemma rstrip_spec (s : string) :
  exists suf, s = (rstrip s ++ suf)%string /\ all_space suf = true /\
    (forall c, last_char (rstrip s) = Some c -> isspace c = false).
Proof.
  induction s as [|c s IH]; simpl.
  - exists EmptyString. repeat split. discriminate.
  - destruct IH as (suf & Heq & Hsuf & Hlast).
    destruct (rstrip s) as [|c' r] eqn:Hr.
    + destruct (isspace c) eqn:Hc.
      * exists (String c suf). simpl in *. rewrite Hc, Hsuf.
        repeat split; [congruence | discriminate].
      * exists suf. simpl in *. repeat split; [congruence | assumption | congruence].
    + exists suf. simpl in *. repeat split; [congruence | assumption | exact Hlast].
Qed.

Lemma rstrip_first_char (s : string) (c : ascii) :
  first_char (rstrip s) = Some c -> first_char s = Some c.
Proof.
  destruct s as [|c0 s]; simpl; [discriminate|].
  destruct (rstrip s); [destruct (isspace c0); [discriminate|] |]; auto.
Qed.

Lemma append_assoc (a b c : string) :
  ((a ++ b) ++ c = a ++ (b ++ c))%string.
Proof. induction a as [|x a IH]; simpl; [reflexivity | now rewrite IH]. Qed.

(** [strip] removes white space at both ends and nothing else: the line is
    a run of white space, the stripped text, a run of white space; and the
    stripped text neither starts nor ends with white space. *)
Lemma strip_spec (s : string) :
  exists pre suf,
    s = (pre ++ strip s ++ suf)%string /\
    all_space pre = true /\ all_space suf = true /\
    (forall c, first_char (strip s) = Some c -> isspace c = false) /\
    (forall c, last_char (strip s) = Some c -> isspace c = false).
Proof.
  unfold strip.
  destruct (lstrip_spec s) as (pre & Hs & Hpre & Hfirst).
  destruct (rstrip_spec (lstrip s)) as (suf & Hl & Hsuf & Hlast).
  exists pre, suf. repeat split; try assumption.
  - rewrite <- Hl. exact Hs.
  - intros c Hc. apply Hfirst. now apply rstrip_first_char.
Qed.

End TextFacts.

Section InputFacts.
Context {Key Val : Type} `{PyData Key Val}.

Lemma yield_lines_app (f : nat -> string -> Key * Val) (n : nat)
  (l1 l2 : list string) :
  yield_lines f n (l1 ++ l2)
  = yield_lines f n l1 ++ yield_lines f (n + List.length l1) l2.
Proof.
  revert n. induction l1 as [|x l1 IH]; intros n; simpl.
  - now rewrite Nat.add_0_r.
  - rewrite IH. do 3 f_equal. lia.
Qed.

Lemma yield_lines_nth (f : nat -> string -> Key * Val) (lines : list string) :
  forall n i,
    nth_error (yield_lines f n lines) i
    = option_map (f (n + i)) (nth_error lines i).
Proof.
  induction lines as [|x lines IH]; intros n [|i]; simpl; try reflexivity.
  - now rewrite Nat.add_0_r.
  - rewrite IH. do 2 f_equal. lia.
Qed.

Lemma yield_lines_length (f : nat -> string -> Key * Val) (lines : list string) :
  forall n, List.length (yield_lines f n lines) = List.length lines.
Proof. induction lines as [|x lines IH]; intros n; simpl; auto. Qed.

(** The generator numbers the lines it reads consecutively from
    [current_line], across the files. *)
Lemma assembled_records (f : nat -> string -> Key * Val) (fs : Files)
  (ps : list string) :
  forall n,
    fst (assembled_input_stream f fs ps n) = yield_lines f n (lines_read fs ps).
Proof.
  induction ps as [|p ps IH]; intros n; simpl.
  - reflexivity.
  - destruct (Dict.getitem string_dec p fs) as [lines|]; [|reflexivity].
    specialize (IH (n + List.length lines)).
    destruct (assembled_input_stream f fs ps (n + List.length lines)) as [rest ending].
    simpl in *. rewrite IH. now rewrite yield_lines_app.
Qed.

Lemma assembled_readable (f : nat -> string -> Key * Val) (fs : Files)
  (ps : list string) :
  (forall p, In p ps -> Dict.mem string_dec p fs = true) ->
  forall n,
    snd (assembled_input_stream f fs ps n) = None /\
    lines_read fs ps = flat_map (file_lines fs) ps.
Proof.
  induction ps as [|p ps IH]; intros Hall n; simpl.
  - auto.
  - assert (Hp : Dict.mem string_dec p fs = true) by (apply Hall; now left).
    unfold file_lines at 1.
    destruct (Dict.getitem string_dec p fs) as [lines|] eqn:Hget.
    + destruct (IH (fun q Hq => Hall q (or_intror Hq)) (n + List.length lines))
        as [He Hl].
      destruct (assembled_input_stream f fs ps (n + List.length lines)) as [rest ending].
      simpl in *. rewrite Hl. auto.
    + apply getitem_None_iff in Hget. congruence.
Qed.

(** C10 (record keys of the input adapter).  For every HadoopInput with the
    default shaping function and any list of source paths, entering the
    stream yields a generator whose i-th record (counting from zero over
    all the files, in path order) has key i and, as value, the i-th line
    read with the white space at both ends stripped: the index runs on from
    one file to the next.  When every path can be opened the lines read are
    the lines of all the files and the generator ends normally. *)
Theorem input_keys_accumulate (fs : Files) (ps : list string)
  (self : @HadoopInput Key Val) :
  paths self = Some ps ->
  input_format_func self = default_input_format_func ->
  exists records ending,
    fst (HadoopInput_enter fs self) = Ok (HRecords records ending) /\
    List.length records = List.length (lines_read fs ps) /\
    (forall i kv, nth_error records i = Some kv ->
       exists line,
         nth_error (lines_read fs ps) i = Some line /\
         kv = (key_of_int i, val_of_str (strip line))) /\
    (forall line, exists pre suf,
       line = (pre ++ strip line ++ suf)%string /\
       all_space pre = true /\ all_space suf = true /\
       (forall c, first_char (strip line) = Some c -> isspace c = false) /\
       (forall c, last_char (strip line) = Some c -> isspace c = false)) /\
    ((forall p, In p ps -> Dict.mem string_dec p fs = true) ->
     ending = None /\ lines_read fs ps = flat_map (file_lines fs) ps).
Proof.
  intros Hps Hf.
  exists (fst (assembled_input_stream default_input_format_func fs ps 0)),
         (snd (assembled_input_stream default_input_format_func fs ps 0)).
  split.
  { unfold HadoopInput_enter. simpl. rewrite Hps, Hf.
    destruct (assembled_input_stream default_input_format_func fs ps 0).
    reflexivity. }
  rewrite assembled_records.
  split; [apply yield_lines_length|].
  split.
  { intros i kv Hnth. rewrite yield_lines_nth in Hnth. simpl in Hnth.
    destruct (nth_error (lines_read fs ps) i) as [line|]; [|discriminate].
    exists line. split; [reflexivity|]. simpl in Hnth. now inversion Hnth. }
  split; [apply strip_spec|].
  intros Hall. now apply assembled_readable.
Qed.

End InputFacts.

(** ** The properties on the sample runs *)

Lemma pair_of_fst {A B} (x : A * B) (a : A) : fst x = a -> x = (a, snd x).
Proof. intros <-. apply surjective_pairing. Qed.

Lemma write_words_reads (words : list string) : config_reader (write_words words).
Proof. induction words as [|word words IH]; simpl; auto. Qed.

Lemma WordCountMapper_reads : mapper_reads_config WordCountMapper.
Proof.
  repeat split; simpl; auto.
  intros k v u. destruct v; simpl; [exact I | apply write_words_reads].
Qed.

Lemma WordCountReducer_reads : reducer_reads_config WordCountReducer.
Proof.
  repeat split; simpl; auto.
  intros k vs u. destruct (sum vs); simpl; exact I.
Qed.

Ltac configured :=
  unfold fully_configured; repeat split; vm_compute; solve [reflexivity | apply le_n].

Lemma demo_world_configured : fully_configured demo_world.
Proof. configured. Qed.

Lemma empty_world_configured : fully_configured empty_world.
Proof. configured. Qed.

Lemma failing_world_configured : fully_configured failing_world.
Proof. configured. Qed.

Lemma emitting_world_configured : fully_configured emitting_world.
Proof. configured. Qed.

(** C4 on a sample: after the writes [sample_writes] the store holds two
    groups; one read scope later a second read scope yields none. *)
Lemma second_read_scope_is_empty_witness :
  write_phase (written_store sample_writes) = false /\
  shuffle_pair (written_store sample_writes)
  = [(PyStr "a", [PyInt 1; PyInt 3]); (PyStr "b", [PyInt 2])] /\
  fst (ShuffleStream_enter
         (snd (ShuffleStream_exit
                 (snd (ShuffleStream_enter (written_store sample_writes))))))
  = Ok (HItems []).
Proof.
  assert (Hphase : write_phase (written_store sample_writes) = false)
    by (vm_compute; reflexivity).
  split; [exact Hphase|]. split; [vm_compute; reflexivity|].
  destruct (second_read_scope_is_empty (written_store sample_writes) Hphase)
    as (_ & _ & Hempty).
  exact Hempty.
Defined.

(** C2 on a sample: after [(a,1); (b,2); (a,3)] the group of [a] is
    [1; 3]. *)
Lemma shuffle_groups_are_subsequences_witness :
  exists groups,
    read_after_writes sample_writes = Ok (HItems groups) /\
    Dict.getitem key_eq_dec (PyStr "a") groups = Some [PyInt 1; PyInt 3].
Proof.
  destruct (shuffle_groups_are_subsequences sample_writes)
    as (groups & Hread & _ & Hall & _).
  exists groups. split; [exact Hread|].
  apply (Hall (PyStr "a")). simpl. auto.
Defined.

(** C9 on a sample: after [(a,1); (b,2); (a,3)] the groups come in the
    order [a], [b]. *)
Lemma shuffle_groups_in_first_write_order_witness :
  exists groups,
    read_after_writes sample_writes = Ok (HItems groups) /\
    List.map fst groups = [PyStr "a"; PyStr "b"].
Proof.
  destruct (shuffle_groups_in_first_write_order sample_writes)
    as (groups & Hread & Hkeys & _).
  exists groups. split; [exact Hread | exact Hkeys].
Defined.

(** C1 fails as stated: the store written with [(a,1)] and closed is in its
    read phase, and a direct [write(a, 2)] returns normally and leaves the
    group [a : 1, 2]. *)
Lemma write_after_close_is_accepted :
  write_phase (written_store [(PyStr "a", PyInt 1)]) = false /\
  fst (ShuffleStream_write (PyStr "a") (PyInt 2)
         (written_store [(PyStr "a", PyInt 1)])) = Ok tt /\
  shuffle_pair (snd (ShuffleStream_write (PyStr "a") (PyInt 2)
                       (written_store [(PyStr "a", PyInt 1)])))
  = [(PyStr "a", [PyInt 1; PyInt 2])] /\
  ~ write_rejected_after_close [(PyStr "a", PyInt 1)] (PyStr "a") (PyInt 2).
Proof.
  repeat split. unfold write_rejected_after_close. vm_compute. discriminate.
Qed.

(** C1 as amended, on the demo job: once the store is closed a write through
    the map context raises an assertion error, a direct write returns. *)
Lemma write_after_scope_closed_witness :
  fst (context MapContext demo_world)
  = Ok (HadoopContext_init 0 (Some InputObj) (Some ShuffleObj)) /\
  fst (HadoopContext_write MapContext (PyStr "a") (PyInt 1)
         (snd (stream_exit (Some ShuffleObj) demo_world)))
  = Raised AssertionError /\
  fst (ShuffleStream_write (PyStr "a") (PyInt 1)
         (shuffle (snd (stream_exit (Some ShuffleObj) demo_world)))) = Ok tt.
Proof.
  assert (Hfst : fst (context MapContext demo_world)
                 = Ok (HadoopContext_init 0 (Some InputObj) (Some ShuffleObj)))
    by (vm_compute; reflexivity).
  split; [exact Hfst|].
  apply pair_of_fst in Hfst. rewrite context_reads in Hfst.
  destruct (write_after_scope_closed MapContext
              (HadoopContext_init 0 (Some InputObj) (Some ShuffleObj))
              (PyStr "a") (PyInt 1) demo_world Hfst eq_refl)
    as (_ & _ & Hrejected & Hdirect & _).
  split; [now rewrite Hrejected | exact Hdirect].
Defined.

(** C7 on the demo job: after the run the output adapter is closed, and a
    write through the reduce context raises an assertion error. *)
Lemma context_write_guard_witness :
  fst (stream_is_open (Some OutputObj) (snd (start_job demo_world))) = Ok false /\
  fst (HadoopContext_write ReduceContext (PyStr "a") (PyInt 1)
         (snd (start_job demo_world)))
  = Raised AssertionError.
Proof.
  assert (Hopen : fst (stream_is_open (Some OutputObj) (snd (start_job demo_world)))
                  = Ok false) by (vm_compute; reflexivity).
  split; [exact Hopen|].
  assert (Hctx : fst (context ReduceContext (snd (start_job demo_world)))
                 = Ok {| context_open_state := Some false; context_config := 0;
                         key_value_input_stream := Some ShuffleObj;
                         key_value_output_stream := Some OutputObj |})
    by (vm_compute; reflexivity).
  apply pair_of_fst in Hctx. rewrite context_reads in Hctx.
  destruct (context_write_guard ReduceContext _
              (PyStr "a") (PyInt 1) (snd (start_job demo_world)) Hctx)
    as (Hclosed & _).
  rewrite Hclosed; [reflexivity|].
  apply pair_of_fst in Hopen. rewrite stream_is_open_reads in Hopen. exact Hopen.
Defined.

(** C3 fails as stated: in the demo job the configuration is empty, and user
    code that assigns [x] through the mapping returned by
    [get_configuration] leaves the job with the configuration [x : 1]. *)
Lemma configuration_can_be_altered :
  fully_configured demo_world /\
  configuration demo_world = Some [] /\
  configuration
    (snd (run MapContext (ConfigurationSetItem (PyStr "x") (PyInt 1) Return) demo_world))
  = Some [(PyStr "x", PyInt 1)] /\
  ~ configuration_read_only demo_world.
Proof.
  split; [exact demo_world_configured|].
  split; [vm_compute; reflexivity|]. split; [vm_compute; reflexivity|].
  intros Hro.
  specialize (Hro MapContext (ConfigurationSetItem (PyStr "x") (PyInt 1) Return)).
  vm_compute in Hro. discriminate.
Qed.

(** C3 as amended, on the demo job: the reduce context hands out the
    job's dict, the word count run leaves it unchanged, an assignment
    through it is an assignment to the job's configuration. *)
Lemma configuration_is_shared_witness :
  fst (HadoopContext_get_configuration ReduceContext demo_world)
  = Ok (job_config (job demo_world)) /\
  configuration (snd (start_job demo_world)) = configuration demo_world /\
  configuration
    (snd (run ReduceContext (ConfigurationSetItem (PyStr "x") (PyInt 1) Return)
            demo_world))
  = option_map (Dict.setitem key_eq_dec (PyStr "x") (PyInt 1))
      (configuration demo_world).
Proof.
  assert (Hm : mapper (job demo_world) = Some WordCountMapper)
    by (vm_compute; reflexivity).
  assert (Hr : reducer (job demo_world) = Some WordCountReducer)
    by (vm_compute; reflexivity).
  destruct (configuration_is_shared demo_world WordCountMapper WordCountReducer
              demo_world_configured Hm Hr)
    as (Hget & _ & _ & _ & Hrun & Hset).
  split; [now rewrite Hget|].
  split; [apply Hrun; [exact WordCountMapper_reads | exact WordCountReducer_reads]|].
  apply Hset.
Defined.

(** C6 on the demo job and on the job whose mapper raises: the flag is true
    after the first run, false after the second. *)
Lemma success_flag_iff_completed_witness :
  is_successful demo_world = false /\
  is_successful failing_world = false /\
  (is_successful (snd (start_job demo_world)) = true
   <-> fst (start_job demo_world) = Ok tt) /\
  is_successful (snd (start_job failing_world)) = false.
Proof.
  assert (Hdemo : is_successful demo_world = false) by (vm_compute; reflexivity).
  assert (Hfailing : is_successful failing_world = false)
    by (vm_compute; reflexivity).
  split; [exact Hdemo|]. split; [exact Hfailing|].
  destruct (success_flag_iff_completed demo_world Hdemo) as (_ & Hiff & _).
  split; [exact Hiff|].
  destruct (success_flag_iff_completed failing_world Hfailing) as (_ & _ & _ & Hfail).
  apply (Hfail (UserError 1)). vm_compute. reflexivity.
Defined.

(** C5 on the job whose mapper raises on the second record: [start_job]
    raises that error, the flag is false, the input adapter, the shuffle
    store and the map context are closed. *)
Lemma map_failure_closes_streams_witness :
  fst (start_job failing_world) = Raised (UserError 1) /\
  is_successful (snd (start_job failing_world)) = false /\
  fst (stream_is_open (Some InputObj) (snd (start_job failing_world))) = Ok false /\
  fst (stream_is_open (Some ShuffleObj) (snd (start_job failing_world))) = Ok false /\
  option_map context_open_state (map_context (job (snd (start_job failing_world))))
  = Some (Some false).
Proof.
  assert (Hflag : is_successful failing_world = false) by (vm_compute; reflexivity).
  assert (Hm : mapper (job failing_world) = Some failing_mapper)
    by (vm_compute; reflexivity).
  assert (Henter : fst (HadoopContext_enter MapContext failing_world)
                   = Ok (HRecords ([(PyInt 0, PyStr "a b a")]
                                   ++ (PyInt 1, PyStr "b c") :: []) None))
    by (vm_compute; reflexivity).
  assert (Hsetup : fst (invoke MapContext MapperSetup (mapper_setup failing_mapper)
                          failing_entered) = Ok tt) by (vm_compute; reflexivity).
  assert (Hpre : fst (map_records failing_mapper [(PyInt 0, PyStr "a b a")]
                        failing_set_up) = Ok tt) by (vm_compute; reflexivity).
  assert (Hmap : fst (invoke MapContext (MapperMap (PyInt 1) (PyStr "b c"))
                        (mapper_map failing_mapper (PyInt 1) (PyStr "b c"))
                        failing_mapped) = Raised (UserError 1))
    by (vm_compute; reflexivity).
  destruct (map_failure_closes_streams failing_world failing_entered failing_set_up
              failing_mapped failing_raised failing_mapper
              [(PyInt 0, PyStr "a b a")] [] (PyInt 1) (PyStr "b c") None (UserError 1)
              failing_world_configured Hflag Hm
              (pair_of_fst _ _ Henter) (pair_of_fst _ _ Hsetup)
              (pair_of_fst _ _ Hpre) (pair_of_fst _ _ Hmap))
    as (Hraised & Hfalse & Hinput & Hshuffle & Hctx).
  split; [exact Hraised|]. split; [exact Hfalse|].
  split; [now rewrite Hinput|]. split; [now rewrite Hshuffle | exact Hctx].
Defined.

(** C8 fails as stated: a fully configured job over an empty file whose
    [mapper.cleanup] writes one pair ends with a shuffle group, a [reduce]
    call and an output record. *)
Lemma hooks_that_write_break_empty_run :
  fully_configured emitting_world /\
  yields_no_record emitting_world /\
  fst (start_job emitting_world) = Ok tt /\
  shuffle_pair (shuffle (snd (map_scope emitting_world)))
  = [(PyStr "total", [PyInt 0])] /\
  calls (snd (start_job emitting_world))
  = [MapperSetup; MapperCleanup; ReducerSetup;
     ReducerReduce (PyStr "total") [PyInt 0]; ReducerCleanup] /\
  option_map written (file_stream (output (snd (start_job emitting_world))))
  = Some [("total 0" ++ nl)%string] /\
  ~ empty_run emitting_world.
Proof.
  split; [exact emitting_world_configured|].
  split; [exists ["empty.txt"]; split; vm_compute; reflexivity|].
  split; [vm_compute; reflexivity|]. split; [vm_compute; reflexivity|].
  split; [vm_compute; reflexivity|]. split; [vm_compute; reflexivity|].
  intros (Hcalls & _). vm_compute in Hcalls. discriminate.
Qed.

(** C8 as amended, on the word count job over an empty file. *)
Lemma empty_input_run_witness :
  yields_no_record empty_world /\
  fst (start_job empty_world) = Ok tt /\
  empty_run empty_world.
Proof.
  assert (Hnone : yields_no_record empty_world)
    by (exists ["empty.txt"]; split; vm_compute; reflexivity).
  split; [exact Hnone|].
  apply (empty_input_run empty_world WordCountMapper WordCountReducer
           "test_output.txt");
    try exact Hnone; try exact empty_world_configured;
    try (intros u; exact I); try (simpl; tauto); vm_compute; reflexivity.
Defined.

(** C10 on two files of two lines and one line: the only line of the
    second file gets the key 2, and its value is stripped. *)
Lemma input_keys_accumulate_witness :
  exists records ending,
    fst (HadoopInput_enter two_files two_files_input)
    = Ok (HRecords records ending) /\
    nth_error records 2 = Some (PyInt 2, PyStr "z") /\
    ending = None.
Proof.
  assert (Hps : paths two_files_input = Some ["a.txt"; "b.txt"]) by reflexivity.
  assert (Hf : input_format_func two_files_input = default_input_format_func)
    by reflexivity.
  destruct (input_keys_accumulate two_files ["a.txt"; "b.txt"] two_files_input
              Hps Hf)
    as (records & ending & Henter & _ & _ & _ & Hend).
  exists records, ending. split; [exact Henter|].
  split.
  - vm_compute in Henter. inversion Henter. reflexivity.
  - apply Hend. intros p [<-|[<-|[]]]; vm_compute; reflexivity.
Defined.

(** * Further properties of the code *)

(** ** One write to the shuffle store *)

Section DictMoreFacts.
Variables K V : Type.
Variable eq_dec : forall x y : K, {x = y} + {x <> y}.

Lemma getitem_adjust_other (f : V -> V) (k k' : K) (d : Dict.t K V) :
  k' <> k ->
  Dict.getitem eq_dec k' (Dict.adjust eq_dec f k d) = Dict.getitem eq_dec k' d.
Proof.
  intros Hne. induction d as [|[k0 v0] d IH]; simpl.
  - reflexivity.
  - destruct (eq_dec k k0) as [->|Hk]; simpl.
    + destruct (eq_dec k' k0); [congruence | reflexivity].
    + destruct (eq_dec k' k0); [reflexivity | exact IH].
Qed.

Lemma getitem_setitem_other (k k' : K) (v : V) (d : Dict.t K V) :
  k' <> k ->
  Dict.getitem eq_dec k' (Dict.setitem eq_dec k v d) = Dict.getitem eq_dec k' d.
Proof.
  intros Hne. induction d as [|[k0 v0] d IH]; simpl.
  - destruct (eq_dec k' k); [congruence | reflexivity].
  - destruct (eq_dec k k0) as [->|Hk]; simpl.
    + destruct (eq_dec k' k0); [congruence | reflexivity].
    + destruct (eq_dec k' k0); [reflexivity | exact IH].
Qed.

(** Filling an empty dict from a dict leaves a dict with the same items in
    the same order. *)
Lemma update_from (d other : Dict.t K V) :
  NoDup (List.map fst (d ++ other)) ->
  Dict.update eq_dec d other = d ++ other.
Proof.
  revert d. unfold Dict.update.
  induction other as [|[k v] other IH]; intros d Hnd; simpl.
  - now rewrite app_nil_r.
  - rewrite setitem_absent.
    + rewrite IH; rewrite <- app_assoc; [reflexivity | exact Hnd].
    + rewrite map_app in Hnd. simpl in Hnd.
      apply NoDup_remove_2 in Hnd. intros Hin. apply Hnd.
      apply in_or_app. now left.
Qed.

End DictMoreFacts.

Section ShuffleWrite.
Context {Key Val : Type} `{PyData Key Val}.

(** X1.  One [write(k, v)] to a ShuffleStream, in any phase: the value goes
    to the end of the group of [k] (a new group if [k] had none), every
    other key keeps its group, an existing key keeps its place in the
    enumeration and a new key goes last, and neither the phase nor the open
    state changes. *)
Theorem shuffle_write_touches_one_group (k : Key) (v : Val)
  (s : @ShuffleStream Key Val) :
  fst (ShuffleStream_write k v s) = Ok tt /\
  Dict.getitem key_eq_dec k (shuffle_pair (snd (ShuffleStream_write k v s)))
  = Some (appended k v s) /\
  (forall k', k' <> k ->
     Dict.getitem key_eq_dec k' (shuffle_pair (snd (ShuffleStream_write k v s)))
     = Dict.getitem key_eq_dec k' (shuffle_pair s)) /\
  List.map fst (shuffle_pair (snd (ShuffleStream_write k v s)))
  = (if Dict.mem key_eq_dec k (shuffle_pair s)
     then List.map fst (shuffle_pair s)
     else List.map fst (shuffle_pair s) ++ [k]) /\
  write_phase (snd (ShuffleStream_write k v s)) = write_phase s /\
  shuffle_open_state (snd (ShuffleStream_write k v s)) = shuffle_open_state s.
Proof.
  split; [now rewrite ShuffleStream_write_spec|].
  split; [apply getitem_after_write|].
  rewrite ShuffleStream_write_spec. simpl.
  destruct (Dict.mem key_eq_dec k (shuffle_pair s)) eqn:Hmem.
  - split; [intros k' Hne; now apply getitem_adjust_other|].
    split; [apply adjust_keys | auto].
  - split; [intros k' Hne; now apply getitem_setitem_other|].
    split; [|auto].
    apply mem_false_iff in Hmem. rewrite setitem_absent by exact Hmem.
    now rewrite map_app.
Qed.

End ShuffleWrite.

(** ** The output adapter *)

Section OutputFacts.
Context {Key Val : Type} `{PyData Key Val}.

Lemma HadoopOutput_write_accepted (k : Key) (v : Val) (o : @HadoopOutput Key Val) :
  accepts_writes o ->
  exists f,
    file_stream o = Some f /\
    HadoopOutput_write k v o
    = (Ok tt,
       {| output_open_state := output_open_state o;
          path := path o;
          output_format_func := output_format_func o;
          file_stream :=
            Some {| closed := false;
                    written := written f ++ [output_format_func o k v] |} |}).
Proof.
  intros (Hopen & f & Hf & Hclosed). exists f. split; [exact Hf|].
  unfold HadoopOutput_write. rewrite Hf, Hopen. simpl. now rewrite Hclosed.
Qed.

(** The writes [W] to an adapter that accepts writes all return, and add
    the renderings of the pairs to the file, in order. *)
Lemma for_each_write_accepted (W : list (Key * Val)) :
  forall o : @HadoopOutput Key Val,
    accepts_writes o ->
    exists f,
      file_stream o = Some f /\
      for_each (fun kv => HadoopOutput_write (fst kv) (snd kv)) W o
      = (Ok tt, output_write_all W o) /\
      accepts_writes (output_write_all W o) /\
      output_write_all W o
      = {| output_open_state := output_open_state o;
           path := path o;
           output_format_func := output_format_func o;
           file_stream :=
             Some {| closed := false;
                     written := written f
                                ++ List.map (fun kv => output_format_func o (fst kv) (snd kv)) W |} |}.
Proof.
  induction W as [|[k v] W IH]; intros o Hacc.
  - destruct Hacc as (Hopen & f & Hf & Hclosed). exists f.
    split; [exact Hf|]. split; [reflexivity|].
    split; [unfold accepts_writes; simpl; eauto|].
    simpl. rewrite app_nil_r. destruct o as [st p fmt fs]. simpl in *.
    subst fs. destruct f as [c wr]. simpl in *. now subst c.
  - destruct (HadoopOutput_write_accepted k v o Hacc) as (f & Hf & Hw).
    exists f. split; [exact Hf|].
    assert (Hacc1 : accepts_writes (snd (HadoopOutput_write k v o))).
    { rewrite Hw. unfold accepts_writes. simpl.
      destruct Hacc as (Hopen & _). split; [exact Hopen|]. eauto. }
    destruct (IH _ Hacc1) as (f1 & Hf1 & Hrun & Hacc' & Hall).
    simpl for_each. unfold output_write_all in *. simpl fold_left.
    split.
    { unfold bind. rewrite (surjective_pairing (HadoopOutput_write k v o)).
      rewrite Hw at 1. simpl fst. exact Hrun. }
    split; [exact Hacc'|].
    rewrite Hall. rewrite Hw in Hf1 |- *. simpl in *.
    inversion Hf1; subst f1. simpl. now rewrite <- app_assoc.
Qed.

(** X2.  For every output adapter whose path can be opened, and every
    sequence [W] of pairs: entering the adapter, writing the pairs and
    leaving it returns normally and leaves a closed adapter whose closed
    file holds exactly the renderings of the pairs by the adapter's format
    function, in write order; whatever was in the file before is gone. *)
Theorem output_records_round_trip (ro : list string) (p : string)
  (W : list (Key * Val)) (self : @HadoopOutput Key Val) :
  path self = Some p ->
  ~ In p ro ->
  fst (write_records ro W self) = Ok tt /\
  snd (write_records ro W self)
  = {| output_open_state := Some false;
       path := Some p;
       output_format_func := output_format_func self;
       file_stream :=
         Some {| closed := true;
                 written := List.map (fun kv => output_format_func self (fst kv) (snd kv)) W |} |}.
Proof.
  intros Hp Hro.
  set (o := {| output_open_state := Some true; path := Some p;
               output_format_func := output_format_func self;
               file_stream := Some {| closed := false; written := [] |} |}).
  assert (Henter : HadoopOutput_enter ro self = (Ok (HSelf OutputObj), o)).
  { unfold HadoopOutput_enter. simpl. rewrite Hp.
    destruct (in_dec string_dec p ro) as [Hin|_]; [contradiction | reflexivity]. }
  assert (Hacc : accepts_writes o) by (unfold accepts_writes, o; simpl; eauto).
  destruct (for_each_write_accepted W o Hacc) as (f & Hf & Hrun & _ & Hall).
  unfold o in Hf. simpl in Hf. inversion Hf; subst f. clear Hf.
  unfold write_records, with_. rewrite Henter, Hrun, Hall.
  unfold HadoopOutput_exit. simpl. auto.
Qed.

(** X3.  [HadoopOutput.write] outside a scope: on an adapter that was never
    entered (it holds no file) and on an adapter whose scope has been left,
    the call fails with an assertion error and the adapter, its file
    included, is unchanged. *)
Theorem output_write_outside_scope (k : Key) (v : Val) (self : @HadoopOutput Key Val) :
  (file_stream self = None ->
   HadoopOutput_write k v self = (Raised AssertionError, self)) /\
  HadoopOutput_write k v (snd (HadoopOutput_exit self))
  = (Raised AssertionError, snd (HadoopOutput_exit self)).
Proof.
  split.
  - intros Hnone. unfold HadoopOutput_write. now rewrite Hnone.
  - unfold HadoopOutput_exit, HadoopOutput_write. simpl.
    destruct (file_stream self); reflexivity.
Qed.

End OutputFacts.

(** ** The generator of the input adapter *)

Section GeneratorFacts.
Context {Key Val : Type} `{PyData Key Val}.

(** X4.  When the paths [pre] can all be opened and the next path cannot,
    the generator yields the records of the lines of the files of [pre],
    numbered on from [current_line], and then raises; the paths after the
    missing one are never opened. *)
Theorem generator_stops_at_missing_file (f : nat -> string -> Key * Val)
  (fs : Files) (pre post : list string) (p : string) (n : nat) :
  (forall q, In q pre -> Dict.mem string_dec q fs = true) ->
  Dict.mem string_dec p fs = false ->
  assembled_input_stream f fs (pre ++ p :: post) n
  = (yield_lines f n (flat_map (file_lines fs) pre), Some OSError).
Proof.
  intros Hpre Hp. revert n. induction pre as [|q pre IH]; intros n; simpl.
  - apply getitem_None_iff in Hp. now rewrite Hp.
  - assert (Hq : Dict.mem string_dec q fs = true) by (apply Hpre; now left).
    unfold file_lines at 1.
    destruct (Dict.getitem string_dec q fs) as [lines|] eqn:Hget.
    + rewrite (IH (fun x Hx => Hpre x (or_intror Hx))).
      now rewrite yield_lines_app.
    + apply getitem_None_iff in Hget. congruence.
Qed.

End GeneratorFacts.

(** ** Constructing and wiring a job *)

Section ConstructionFacts.
Context {Key Val U : Type} `{PyData Key Val}.

Lemma nth_error_replace_nth_other {A} (n m : nat) (x : A) (l : list A) :
  n <> m -> nth_error (replace_nth n x l) m = nth_error l m.
Proof.
  revert n m. induction l as [|y l IH]; intros [|n] [|m] Hne; simpl;
    try reflexivity; try congruence.
  apply IH. congruence.
Qed.

Lemma nth_error_snoc {A} (l : list A) (x : A) :
  nth_error (l ++ [x]) (List.length l) = Some x.
Proof. induction l as [|y l IH]; simpl; auto. Qed.

Lemma nth_error_before_snoc {A} (l : list A) (x y : A) (n : nat) :
  nth_error l n = Some y -> nth_error (l ++ [x]) n = Some y.
Proof.
  revert n. induction l as [|z l IH]; intros [|n]; simpl; try discriminate; auto.
Qed.

Lemma replace_nth_snoc {A} (l : list A) (x y : A) :
  replace_nth (List.length l) y (l ++ [x]) = l ++ [y].
Proof. induction l as [|z l IH]; simpl; [reflexivity | now rewrite IH]. Qed.

(** X5.  [HadoopJob(config)] copies the caller's mapping: the job gets a
    new [dict] object, distinct from the caller's, with the same items in
    the same order; the caller's [dict] is unchanged; afterwards an
    assignment to the caller's [dict] does not change the job's
    configuration, and an assignment to the job's does not change the
    caller's.  The job starts unsuccessful, with a new shuffle store. *)
Theorem job_configuration_is_a_copy (c : loc) (cfg : @Config Key Val)
  (w : @World Key Val U) :
  nth_error (dicts w) c = Some cfg ->
  NoDup (List.map fst cfg) ->
  fst (HadoopJob_init (Some c) w) = Ok tt /\
  job_config (job (snd (HadoopJob_init (Some c) w))) <> c /\
  configuration (snd (HadoopJob_init (Some c) w)) = Some cfg /\
  nth_error (dicts (snd (HadoopJob_init (Some c) w))) c = Some cfg /\
  (forall name value,
     configuration (snd (dict_setitem c name value (snd (HadoopJob_init (Some c) w))))
     = Some cfg) /\
  (forall name value,
     nth_error
       (dicts (snd (dict_setitem (job_config (job (snd (HadoopJob_init (Some c) w))))
                      name value (snd (HadoopJob_init (Some c) w))))) c
     = Some cfg) /\
  is_successful (snd (HadoopJob_init (Some c) w)) = false /\
  shuffle (snd (HadoopJob_init (Some c) w)) = ShuffleStream_init.
Proof.
  intros Hc Hnd.
  assert (Hlt : c < List.length (dicts w)).
  { apply nth_error_Some. congruence. }
  assert (Hne : List.length (dicts w) <> c) by lia.
  assert (Hupd : Dict.update key_eq_dec (Dict.empty Key Val) cfg = cfg).
  { apply (update_from _ _ key_eq_dec []). exact Hnd. }
  assert (Hrun : HadoopJob_init (Some c) w
                 = (Ok tt,
                    {| dicts := dicts w ++ [cfg];
                       files := files w; unwritable := unwritable w;
                       input := input w; shuffle := ShuffleStream_init;
                       output := output w;
                       job := {| job_config := List.length (dicts w);
                                 mapper := None; reducer := None;
                                 input_stream := None;
                                 shuffle_stream := Some ShuffleObj;
                                 output_stream := None; map_context := None;
                                 reduce_context := None; successful := false |};
                       user := user w; calls := calls w |})).
  { unfold HadoopJob_init, bind, new_dict, modify_job, modify, dict_items. simpl.
    rewrite (nth_error_before_snoc _ _ _ _ Hc). simpl.
    rewrite nth_error_snoc. simpl.
    rewrite Hupd, replace_nth_snoc. reflexivity. }
  rewrite Hrun. simpl.
  assert (Hjob : nth_error (dicts w ++ [cfg]) (List.length (dicts w)) = Some cfg)
    by apply nth_error_snoc.
  assert (Hcaller : nth_error (dicts w ++ [cfg]) c = Some cfg)
    by now apply nth_error_before_snoc.
  split; [reflexivity|]. split; [exact Hne|].
  unfold configuration. simpl.
  split; [exact Hjob|]. split; [exact Hcaller|].
  split.
  - intros name value. unfold dict_setitem, bind, dict_items, modify. simpl.
    rewrite Hcaller. simpl.
    rewrite nth_error_replace_nth_other by congruence. exact Hjob.
  - split; [|auto].
    intros name value. unfold dict_setitem, bind, dict_items, modify. simpl.
    rewrite Hjob. simpl.
    rewrite nth_error_replace_nth_other by exact Hne. exact Hcaller.
Qed.

Lemma for_each_assert {S R} (g : R -> bool) (l : list R) (s : S) :
  for_each (fun x => assert (g x)) l s
  = if forallb g l then (Ok tt, s) else (Raised AssertionError, s).
Proof.
  induction l as [|x l IH]; simpl.
  - reflexivity.
  - unfold bind, assert. destruct (g x); simpl; [exact IH | reflexivity].
Qed.

Lemma set_input_paths_steps (ps : list string) (w : @World Key Val U) :
  HadoopInput_set_input_paths ps w
  = if ((0 <? List.length ps)%nat
        && forallb (fun p => Dict.mem string_dec p (files w)) ps)%bool
    then HadoopJob_set_input_stream (Some InputObj)
           (set_input {| input_open_state := input_open_state (input w);
                         paths := Some ps;
                         input_format_func := input_format_func (input w) |} w)
    else (Raised AssertionError,
          set_input {| input_open_state := input_open_state (input w);
                       paths := Some ps;
                       input_format_func := input_format_func (input w) |} w).
Proof.
  unfold HadoopInput_set_input_paths.
  rewrite (bind_ok _ _ w _ tt (eq_refl : modify _ w = (Ok tt, _))).
  destruct (0 <? List.length ps)%nat.
  - rewrite (bind_ok _ _ _ _ tt (eq_refl : assert true _ = (Ok tt, _))).
    unfold bind. rewrite for_each_assert. cbn [files set_input andb].
    destruct (forallb _ ps); reflexivity.
  - reflexivity.
Qed.

(** X6.  [set_input_paths] with an empty tuple of paths, or with a path
    that does not exist, fails with an assertion error.  By then the paths
    are already stored in the adapter, but the job is untouched: the adapter
    is not attached to it and no map context is created. *)
Theorem set_input_paths_rejects (ps : list string) (w : @World Key Val U) :
  ps = [] \/ (exists p, In p ps /\ Dict.mem string_dec p (files w) = false) ->
  fst (HadoopInput_set_input_paths ps w) = Raised AssertionError /\
  paths (input (snd (HadoopInput_set_input_paths ps w))) = Some ps /\
  job (snd (HadoopInput_set_input_paths ps w)) = job w.
Proof.
  intros Hbad. rewrite set_input_paths_steps.
  replace ((0 <? List.length ps)%nat
           && forallb (fun p => Dict.mem string_dec p (files w)) ps)%bool
    with false; [simpl; auto|].
  symmetry. destruct Hbad as [->|(p & Hin & Hp)]; [reflexivity|].
  apply andb_false_iff. right. apply not_true_is_false. intros Hall.
  rewrite forallb_forall in Hall. specialize (Hall p Hin). congruence.
Qed.

Lemma set_input_paths_accepts (ps : list string) (w : @World Key Val U) :
  ps <> [] ->
  (forall p, In p ps -> Dict.mem string_dec p (files w) = true) ->
  HadoopInput_set_input_paths ps w
  = HadoopJob_set_input_stream (Some InputObj)
      (set_input {| input_open_state := input_open_state (input w);
                    paths := Some ps;
                    input_format_func := input_format_func (input w) |} w).
Proof.
  intros Hne Hall. rewrite set_input_paths_steps.
  replace ((0 <? List.length ps)%nat
           && forallb (fun p => Dict.mem string_dec p (files w)) ps)%bool
    with true; [reflexivity|].
  symmetry. apply andb_true_iff. split.
  - destruct ps; [congruence | reflexivity].
  - apply forallb_forall. exact Hall.
Qed.

(** X7.  The script of the demo, from any store: when the list of source
    paths is not empty and every path exists, constructing the job, setting
    the mapper and the reducer and giving the adapters their paths returns
    normally and leaves a fully configured job: that mapper and reducer, the
    given paths, an empty configuration, a new shuffle store in its write
    phase, the success flag false. *)
Theorem configure_job_ready (m : Mapper) (r : Reducer) (ps : list string)
  (out : string) (w0 : @World Key Val U) :
  ps <> [] ->
  (forall p, In p ps -> Dict.mem string_dec p (files w0) = true) ->
  fst (configure_job m r ps out w0) = Ok tt /\
  fully_configured (snd (configure_job m r ps out w0)) /\
  mapper (job (snd (configure_job m r ps out w0))) = Some m /\
  reducer (job (snd (configure_job m r ps out w0))) = Some r /\
  paths (input (snd (configure_job m r ps out w0))) = Some ps /\
  path (output (snd (configure_job m r ps out w0))) = Some out /\
  configuration (snd (configure_job m r ps out w0)) = Some [] /\
  shuffle (snd (configure_job m r ps out w0)) = ShuffleStream_init /\
  is_successful (snd (configure_job m r ps out w0)) = false.
Proof.
  intros Hne Hall.
  assert (Hrun : configure_job m r ps out w0
                 = (Ok tt,
                    {| dicts := dicts w0 ++ [Dict.empty Key Val];
                       files := files w0; unwritable := unwritable w0;
                       input := {| input_open_state := input_open_state (input w0);
                                   paths := Some ps;
                                   input_format_func := input_format_func (input w0) |};
                       shuffle := ShuffleStream_init;
                       output := {| output_open_state := output_open_state (output w0);
                                    path := Some out;
                                    output_format_func := output_format_func (output w0);
                                    file_stream := file_stream (output w0) |};
                       job := {| job_config := List.length (dicts w0);
                                 mapper := Some m; reducer := Some r;
                                 input_stream := Some InputObj;
                                 shuffle_stream := Some ShuffleObj;
                                 output_stream := Some OutputObj;
                                 map_context :=
                                   Some (HadoopContext_init (List.length (dicts w0))
                                           (Some InputObj) (Some ShuffleObj));
                                 reduce_context :=
                                   Some (HadoopContext_init (List.length (dicts w0))
                                           (Some ShuffleObj) (Some OutputObj));
                                 successful := false |};
                       user := user w0; calls := calls w0 |})).
  { unfold configure_job.
    rewrite (bind_ok _ _ w0 _ tt (eq_refl : HadoopJob_init None w0 = (Ok tt, _))).
    rewrite (bind_ok _ _ _ _ tt (eq_refl : HadoopJob_set_mapper m _ = (Ok tt, _))).
    rewrite (bind_ok _ _ _ _ tt (eq_refl : HadoopJob_set_reducer r _ = (Ok tt, _))).
    unfold bind at 1. rewrite set_input_paths_accepts by (simpl; assumption).
    reflexivity. }
  rewrite Hrun. simpl. split; [reflexivity|].
  split.
  { unfold fully_configured. simpl. repeat split. rewrite length_app. simpl. lia. }
  unfold configuration. simpl. rewrite nth_error_snoc.
  repeat split.
Qed.

(** X8.  [start_job] on a job that lacks a mapper, a reducer, an input
    stream, an output stream or a context fails the start check with an
    assertion error before anything else happens: no stream is entered, no
    hook is invoked, the store is exactly as it was. *)
Theorem start_job_needs_configuration (w : @World Key Val U) :
  not_configured w -> start_job w = (Raised AssertionError, w).
Proof.
  intros Hnot. unfold start_job. apply bind_raised.
  unfold not_configured in Hnot. unfold start_check, bind, assert.
  destruct (mapper (job w)), (reducer (job w)), (input_stream (job w)),
    (output_stream (job w)), (shuffle_stream (job w)), (map_context (job w)),
    (reduce_context (job w)); simpl; try reflexivity;
    exfalso; intuition discriminate.
Qed.

End ConstructionFacts.

(** ** The two scopes of a run *)

Section BodyFrames.
Context {Key Val U : Type} `{PyData Key Val}.
Context {X : Type} (f : @World Key Val U -> X).
Hypothesis f_user : forall u w, f (set_user u w) = f w.
Hypothesis f_dicts : forall d w, f (set_dicts d w) = f w.
Hypothesis f_log : forall c w, f (log_call c w) = f w.
Hypothesis f_write : forall r k v, frame f (stream_write r k v).

Lemma frame_stream_is_open_any (r : option StreamRef) : frame f (stream_is_open r).
Proof. intros w. now rewrite stream_is_open_reads. Qed.

Lemma frame_run_any (ctx : CtxRef) (code : @UserCode Key Val U) :
  frame f (run ctx code).
Proof.
  induction code as [|e|u next IH|k v next IH|next IH|name value next IH]; simpl.
  - apply frame_ret.
  - apply frame_raise.
  - apply frame_bind; [apply frame_modify; apply f_user | intros _; exact IH].
  - apply frame_bind; [|intros _; exact IH].
    unfold HadoopContext_write.
    apply frame_bind; [apply frame_context | intros c].
    apply frame_bind; [apply frame_stream_is_open_any | intros b].
    apply frame_bind; [apply frame_assert | intros _; apply f_write].
  - apply frame_bind; [apply frame_HadoopContext_get_configuration | intros d].
    apply frame_bind; [apply frame_dict_items | intros c; apply IH].
  - apply frame_bind; [apply frame_HadoopContext_get_configuration | intros d].
    apply frame_bind; [|intros _; exact IH].
    unfold dict_setitem.
    apply frame_bind; [apply frame_dict_items | intros c].
    apply frame_modify. intros w. apply f_dicts.
Qed.

Lemma frame_invoke_any (ctx : CtxRef) (c : Call) (code : U -> @UserCode Key Val U) :
  frame f (invoke ctx c code).
Proof.
  unfold invoke.
  apply frame_bind; [apply frame_modify; apply f_log | intros _].
  apply (frame_reading _ (fun w0 => run ctx (code (user w0)))).
  intros w0. apply frame_run_any.
Qed.

Lemma frame_map_phase_any (h : Handle) : frame f (map_phase h).
Proof.
  unfold map_phase.
  apply frame_bind; [apply frame_the_mapper | intros m].
  apply frame_bind; [apply frame_invoke_any | intros _].
  apply frame_bind.
  - destruct h as [r|records ending|items]; simpl; try apply frame_raise.
    apply frame_bind.
    + apply frame_for_each. intros kv.
      apply frame_bind; [apply frame_the_mapper | intros m'; apply frame_invoke_any].
    + intros _. destruct ending; [apply frame_raise | apply frame_ret].
  - intros _.
    apply frame_bind; [apply frame_the_mapper | intros m'; apply frame_invoke_any].
Qed.

Lemma frame_reduce_phase_any (h : Handle) : frame f (reduce_phase h).
Proof.
  unfold reduce_phase.
  apply frame_bind; [apply frame_the_reducer | intros r].
  apply frame_bind; [apply frame_invoke_any | intros _].
  apply frame_bind.
  - destruct h as [s|records ending|items]; simpl; try apply frame_raise.
    apply frame_for_each. intros kvs.
    apply frame_bind; [apply frame_the_reducer | intros r'; apply frame_invoke_any].
  - intros _.
    apply frame_bind; [apply frame_the_reducer | intros r'; apply frame_invoke_any].
Qed.

End BodyFrames.

Section ScopeFacts.
Context {Key Val U : Type} `{PyData Key Val}.

Lemma steady_stream_write (r : option StreamRef) (k : Key) (v : Val) :
  frame (@steady Key Val U) (stream_write r k v).
Proof.
  intros w. destruct r as [[| |]|]; simpl; try reflexivity.
  - unfold on_shuffle. rewrite ShuffleStream_write_spec. reflexivity.
  - unfold on_output, HadoopOutput_write.
    destruct (file_stream (output w)) as [fl|] eqn:Hf; [|unfold steady; simpl; now rewrite Hf].
    destruct (Stream_is_open (output_open_state (output w))) as [[|]|e];
      try (unfold steady; simpl; now rewrite Hf).
    destruct (closed fl); unfold steady, adapters; simpl; now rewrite Hf.
Qed.

Lemma steady_map_phase (h : Handle) : frame (@steady Key Val U) (map_phase h).
Proof.
  apply frame_map_phase_any; try reflexivity. apply steady_stream_write.
Qed.

Lemma steady_reduce_phase (h : Handle) : frame (@steady Key Val U) (reduce_phase h).
Proof.
  apply frame_reduce_phase_any; try reflexivity. apply steady_stream_write.
Qed.

Lemma steady_invoke (ctx : CtxRef) (c : Call) (code : U -> @UserCode Key Val U) :
  frame (@steady Key Val U) (invoke ctx c code).
Proof.
  apply frame_invoke_any; try reflexivity. apply steady_stream_write.
Qed.

Lemma adapters_stream_enter (r : option StreamRef) :
  frame (@adapters Key Val U) (stream_enter r).
Proof.
  intros w. destruct r as [[| |]|]; simpl; try reflexivity.
  - unfold on_input, HadoopInput_enter. simpl.
    destruct (paths (input w)) as [ps|] eqn:Hps;
      [|unfold adapters; simpl; now rewrite Hps].
    destruct (assembled_input_stream _ _ ps 0).
    unfold adapters; simpl; now rewrite Hps.
  - unfold on_shuffle, ShuffleStream_enter. simpl.
    destruct (write_phase (shuffle w)); reflexivity.
  - unfold on_output, HadoopOutput_enter. simpl.
    destruct (path (output w)) as [p|] eqn:Hp; [|unfold adapters; simpl; now rewrite Hp].
    destruct (in_dec string_dec p (unwritable w)); unfold adapters; simpl;
      now rewrite Hp.
Qed.

Lemma adapters_stream_exit (r : option StreamRef) :
  frame (@adapters Key Val U) (stream_exit r).
Proof.
  intros w. destruct r as [[| |]|]; simpl; try reflexivity.
  - unfold on_shuffle, ShuffleStream_exit.
    destruct (write_phase (shuffle w)); reflexivity.
  - unfold on_output, HadoopOutput_exit. simpl.
    destruct (file_stream (output w)); reflexivity.
Qed.

Lemma adapters_set_context_open_state (self : CtxRef) (o : open_attr)
  (w : @World Key Val U) :
  adapters (set_context_open_state self o w) = adapters w.
Proof. reflexivity. Qed.

Lemma adapters_enter (self : CtxRef) :
  frame (@adapters Key Val U) (HadoopContext_enter self).
Proof.
  unfold HadoopContext_enter.
  apply frame_bind; [apply frame_context | intros c].
  apply frame_bind; [apply frame_modify; reflexivity | intros _].
  apply frame_bind; [apply adapters_stream_enter | intros _].
  apply adapters_stream_enter.
Qed.

Lemma adapters_exit (self : CtxRef) :
  frame (@adapters Key Val U) (HadoopContext_exit self).
Proof.
  unfold HadoopContext_exit.
  apply frame_bind; [apply frame_context | intros c].
  apply frame_bind; [apply frame_modify; reflexivity | intros _].
  apply frame_bind; [apply adapters_stream_exit | intros _].
  apply adapters_stream_exit.
Qed.

Lemma steady_adapters {A} (m : M (@World Key Val U) A) :
  frame steady m -> frame adapters m.
Proof. intros Hm w. specialize (Hm w). unfold steady in Hm. congruence. Qed.

Lemma adapters_map_scope : frame (@adapters Key Val U) map_scope.
Proof.
  unfold map_scope. apply frame_with.
  - apply adapters_enter.
  - apply adapters_exit.
  - intros h. apply steady_adapters, steady_map_phase.
Qed.

(** Entering the map context of a fully configured job never raises. *)
Lemma enter_map_context_any (w : @World Key Val U) (cfg : loc) :
  wiring (map_context (job w)) = Some (cfg, Some InputObj, Some ShuffleObj) ->
  exists h w1,
    HadoopContext_enter MapContext w = (Ok h, w1) /\
    write_phase (shuffle w1) = write_phase (shuffle w) /\
    shuffle_pair (shuffle w1) = shuffle_pair (shuffle w) /\
    output w1 = output w.
Proof.
  intros Hw. apply wiring_inv in Hw. destruct Hw as [st Hc].
  unfold HadoopContext_enter, bind, context. rewrite Hc. simpl.
  unfold modify, on_shuffle, on_input, ShuffleStream_enter, HadoopInput_enter. simpl.
  destruct (write_phase (shuffle w)) eqn:Hphase; simpl;
    (destruct (paths (input w)) as [ps|];
     [destruct (assembled_input_stream (input_format_func (input w)) (files w) ps 0)|]);
    do 2 eexists; repeat split; exact Hphase.
Qed.

(** The map scope of a fully configured job, step by step: it is entered,
    the phase runs to some outcome, the exit closes the streams and returns;
    the outcome of the scope is the outcome of the phase. *)
Lemma map_scope_steps (w : @World Key Val U) :
  fully_configured w ->
  exists h w1 r2 w2 w3,
    HadoopContext_enter MapContext w = (Ok h, w1) /\
    map_phase h w1 = (r2, w2) /\
    HadoopContext_exit MapContext w2 = (Ok tt, w3) /\
    map_scope w = (r2, w3) /\
    write_phase (shuffle w2) = write_phase (shuffle w) /\
    input_open_state (input w3) = Some false /\
    shuffle_open_state (shuffle w3) = Some false /\
    option_map context_open_state (map_context (job w3)) = Some (Some false) /\
    shuffle w3 = snd (ShuffleStream_exit (shuffle w2)).
Proof.
  intros Hfull.
  pose proof Hfull as (_ & _ & _ & _ & _ & Hmc & _).
  destruct (enter_map_context_any w _ Hmc) as (h & w1 & Henter & Hp1 & _).
  pose proof (static_eq_of _ _ _ _
                (frame_kept_static _ (frame_HadoopContext_enter MapContext))
                Henter) as S1.
  pose proof (frame_map_phase h w1) as S2.
  pose proof (steady_map_phase h w1) as T2.
  destruct (map_phase h w1) as [r2 w2] eqn:Hphase. simpl in S2, T2.
  destruct (exit_map_context w2 (job_config (job w)))
    as (w3 & Hexit & Hin & Hsh & Hctx & Hstore & _).
  { unfold static in S1, S2. congruence. }
  exists h, w1, r2, w2, w3.
  split; [exact Henter|]. split; [exact Hphase|]. split; [exact Hexit|].
  split.
  { unfold map_scope, with_. rewrite Henter, Hphase, Hexit.
    destruct r2 as [[]|e]; reflexivity. }
  split; [unfold steady in T2; congruence|].
  auto.
Qed.

(** X9.  Whatever happens inside the map scope of a fully configured job
    (it completes, a hook raises, the input generator raises), when the
    scope is left the map context, the input adapter and the shuffle store
    are closed and the store is in its read phase; the paths given to the
    adapters are unchanged. *)
Theorem map_scope_always_closes (w : @World Key Val U) :
  fully_configured w ->
  input_open_state (input (snd (map_scope w))) = Some false /\
  shuffle_open_state (shuffle (snd (map_scope w))) = Some false /\
  write_phase (shuffle (snd (map_scope w))) = false /\
  option_map context_open_state (map_context (job (snd (map_scope w))))
  = Some (Some false) /\
  adapters (snd (map_scope w)) = adapters w.
Proof.
  intros Hfull.
  destruct (map_scope_steps w Hfull)
    as (h & w1 & r2 & w2 & w3 & _ & _ & _ & Hscope & _ & Hin & Hsh & Hctx & Hstore).
  rewrite (adapters_map_scope w). rewrite Hscope. simpl.
  repeat split; try assumption.
  rewrite Hstore. unfold ShuffleStream_exit.
  destruct (write_phase (shuffle w2)); reflexivity.
Qed.

(** X10.  A job is not reusable: when the shuffle store is already in its
    read phase (a run has taken place), the map scope of a fully configured
    job still runs the mapper, but leaving the scope discards every group
    of the store instead of handing them over: the store is empty and in its
    read phase when the reduce scope begins. *)
Theorem rerun_discards_map_output (w : @World Key Val U) :
  fully_configured w ->
  write_phase (shuffle w) = false ->
  shuffle_pair (shuffle (snd (map_scope w))) = [] /\
  write_phase (shuffle (snd (map_scope w))) = false /\
  fst (ShuffleStream_enter (shuffle (snd (map_scope w)))) = Ok (HItems []).
Proof.
  intros Hfull Hphase.
  destruct (map_scope_steps w Hfull)
    as (h & w1 & r2 & w2 & w3 & _ & _ & _ & Hscope & Hp2 & _ & _ & _ & Hstore).
  rewrite Hscope. simpl. rewrite Hstore. unfold ShuffleStream_exit.
  rewrite Hp2, Hphase. simpl. auto.
Qed.

Lemma adapters_path (w w' : @World Key Val U) :
  adapters w' = adapters w -> path (output w') = path (output w).
Proof. unfold adapters. congruence. Qed.

Lemma static_unwritable (w w' : @World Key Val U) :
  static w' = static w -> unwritable w' = unwritable w.
Proof. unfold static. congruence. Qed.

(** When entering the reduce context returns, the sink holds a file, and
    a handle over groups tells that the store is in its read phase. *)
Lemma entered_reduce_context (w w0 : @World Key Val U) (cfg : loc) (h : Handle) :
  wiring (reduce_context (job w)) = Some (cfg, Some ShuffleObj, Some OutputObj) ->
  HadoopContext_enter ReduceContext w = (Ok h, w0) ->
  is_not_None (file_stream (output w0)) = true /\
  write_phase (shuffle w0) = write_phase (shuffle w) /\
  (forall items, h = HItems items -> write_phase (shuffle w) = false).
Proof.
  intros Hw. apply wiring_inv in Hw. destruct Hw as [st Hc].
  unfold HadoopContext_enter, bind, context. rewrite Hc. simpl.
  unfold modify, on_shuffle, on_output, ShuffleStream_enter, HadoopOutput_enter. simpl.
  destruct (path (output w)) as [p|]; simpl; [|discriminate].
  destruct (in_dec string_dec p (unwritable w)); simpl; [discriminate|].
  destruct (write_phase (shuffle w)); simpl; intros Heq; inversion Heq; subst;
    simpl; repeat split; try reflexivity; intros items Hitems; discriminate.
Qed.

Lemma enter_reduce_context_any (w : @World Key Val U) (cfg : loc) (p : string) :
  wiring (reduce_context (job w)) = Some (cfg, Some ShuffleObj, Some OutputObj) ->
  path (output w) = Some p ->
  ~ In p (unwritable w) ->
  exists h w1, HadoopContext_enter ReduceContext w = (Ok h, w1).
Proof.
  intros Hw Hp Hwritable. apply wiring_inv in Hw. destruct Hw as [st Hc].
  unfold HadoopContext_enter, bind, context. rewrite Hc. simpl.
  unfold modify, on_shuffle, on_output, ShuffleStream_enter, HadoopOutput_enter. simpl.
  rewrite Hp. destruct (in_dec string_dec p (unwritable w)); [contradiction|].
  simpl. destruct (write_phase (shuffle w)); simpl; eauto.
Qed.

Lemma exit_reduce_context_any (w : @World Key Val U) (cfg : loc) (f : TextFile) :
  wiring (reduce_context (job w)) = Some (cfg, Some ShuffleObj, Some OutputObj) ->
  file_stream (output w) = Some f ->
  exists w',
    HadoopContext_exit ReduceContext w = (Ok tt, w') /\
    output_open_state (output w') = Some false /\
    file_stream (output w') = Some {| closed := true; written := written f |} /\
    shuffle_open_state (shuffle w') = Some false /\
    option_map context_open_state (reduce_context (job w')) = Some (Some false) /\
    shuffle w' = snd (ShuffleStream_exit (shuffle w)).
Proof.
  intros Hw Hf. apply wiring_inv in Hw. destruct Hw as [st Hc].
  unfold HadoopContext_exit, bind, context. rewrite Hc. simpl.
  unfold modify, on_shuffle, on_output, ShuffleStream_exit, HadoopOutput_exit. simpl.
  destruct (write_phase (shuffle w)); simpl; rewrite Hf; simpl;
    eexists; (split; [reflexivity|]); simpl; rewrite Hc; simpl; repeat split.
Qed.

Lemma is_not_None_Some {A} (x : option A) :
  is_not_None x = true -> exists a, x = Some a.
Proof. destruct x as [a|]; [eauto | discriminate]. Qed.

(** The reduce scope of a fully configured job whose sink can be opened,
    step by step. *)
Lemma reduce_scope_steps (w : @World Key Val U) (p : string) :
  fully_configured w ->
  path (output w) = Some p ->
  ~ In p (unwritable w) ->
  exists h w1 r2 w2 w3 f,
    HadoopContext_enter ReduceContext w = (Ok h, w1) /\
    reduce_phase h w1 = (r2, w2) /\
    reduce_scope w = (r2, w3) /\
    write_phase (shuffle w2) = write_phase (shuffle w) /\
    file_stream (output w2) = Some f /\
    output_open_state (output w3) = Some false /\
    file_stream (output w3) = Some {| closed := true; written := written f |} /\
    shuffle_open_state (shuffle w3) = Some false /\
    option_map context_open_state (reduce_context (job w3)) = Some (Some false) /\
    shuffle w3 = snd (ShuffleStream_exit (shuffle w2)).
Proof.
  intros Hfull Hp Hwritable.
  pose proof Hfull as (_ & _ & _ & _ & _ & _ & Hrc & _).
  destruct (enter_reduce_context_any w _ p Hrc Hp Hwritable) as (h & w1 & Henter).
  destruct (entered_reduce_context w w1 _ h Hrc Henter) as (Hfile1 & Hp1 & _).
  pose proof (static_eq_of _ _ _ _
                (frame_kept_static _ (frame_HadoopContext_enter ReduceContext))
                Henter) as S1.
  pose proof (frame_reduce_phase h w1) as S2.
  pose proof (steady_reduce_phase h w1) as T2.
  destruct (reduce_phase h w1) as [r2 w2] eqn:Hphase. simpl in S2, T2.
  assert (Hfile2 : is_not_None (file_stream (output w2)) = true).
  { unfold steady in T2. congruence. }
  destruct (is_not_None_Some _ Hfile2) as [f Hf].
  destruct (exit_reduce_context_any w2 (job_config (job w)) f)
    as (w3 & Hexit & Hout & Hclosed & Hsh & Hctx & Hstore);
    [unfold static in S1, S2; congruence | exact Hf |].
  exists h, w1, r2, w2, w3, f.
  split; [exact Henter|]. split; [exact Hphase|].
  split.
  { unfold reduce_scope, with_. rewrite Henter, Hphase, Hexit.
    destruct r2 as [[]|e]; reflexivity. }
  split; [unfold steady in T2; congruence|].
  auto 10.
Qed.

(** X11.  Whatever happens inside the reduce scope of a fully configured
    job whose sink can be opened (it completes, or a hook raises), when the
    scope is left the reduce context, the shuffle store and the output
    adapter are closed and the sink's file is closed; and when the store
    was in its read phase, as after a map scope, it holds no group any
    more. *)
Theorem reduce_scope_always_closes (w : @World Key Val U) (p : string) :
  fully_configured w ->
  path (output w) = Some p ->
  ~ In p (unwritable w) ->
  output_open_state (output (snd (reduce_scope w))) = Some false /\
  (exists f, file_stream (output (snd (reduce_scope w))) = Some f /\
             closed f = true) /\
  shuffle_open_state (shuffle (snd (reduce_scope w))) = Some false /\
  option_map context_open_state (reduce_context (job (snd (reduce_scope w))))
  = Some (Some false) /\
  (write_phase (shuffle w) = false ->
   shuffle_pair (shuffle (snd (reduce_scope w))) = []).
Proof.
  intros Hfull Hp Hwritable.
  destruct (reduce_scope_steps w p Hfull Hp Hwritable)
    as (h & w1 & r2 & w2 & w3 & f & _ & _ & Hscope & Hp2 & _ & Hout & Hfile
        & Hsh & Hctx & Hstore).
  rewrite Hscope. simpl.
  split; [exact Hout|]. split; [eexists; split; [exact Hfile | reflexivity]|].
  split; [exact Hsh|]. split; [exact Hctx|].
  intros Hphase. rewrite Hstore. unfold ShuffleStream_exit.
  rewrite Hp2, Hphase. reflexivity.
Qed.

Lemma frame_reduce_items (r : Reducer) (l : list (Key * list Val)) :
  frame (@static Key Val U) (reduce_items r l).
Proof. apply frame_for_each. intros kvs. apply frame_invoke. Qed.

Lemma steady_reduce_items (r : Reducer) (l : list (Key * list Val)) :
  frame (@steady Key Val U) (reduce_items r l).
Proof. apply frame_for_each. intros kvs. apply steady_invoke. Qed.

(** X12.  Failure in the reduce phase.  For every fully configured job
    whose flag is false and whose map scope completed: if, in the reduce
    scope, [reducer.setup] and the [reduce] calls on the groups [pre] return
    and the [reduce] call on the next group raises [e], then [start_job]
    raises [e], the flag is still false, the shuffle store is closed and
    emptied, the output adapter and the reduce context are closed, and the
    sink's file is closed holding what had been written before the
    failure. *)
Theorem reduce_failure_closes_streams (w wm w0 w1 w2 w3 : @World Key Val U)
  (r : Reducer) (pre post : list (Key * list Val)) (k : Key) (vs : list Val)
  (e : exn) :
  fully_configured w ->
  is_successful w = false ->
  reducer (job w) = Some r ->
  map_scope w = (Ok tt, wm) ->
  HadoopContext_enter ReduceContext wm
  = (Ok (HItems (pre ++ (k, vs) :: post)), w0) ->
  invoke ReduceContext ReducerSetup (reducer_setup r) w0 = (Ok tt, w1) ->
  reduce_items r pre w1 = (Ok tt, w2) ->
  invoke ReduceContext (ReducerReduce k vs) (reducer_reduce r k vs) w2
  = (Raised e, w3) ->
  fst (start_job w) = Raised e /\
  is_successful (snd (start_job w)) = false /\
  fst (stream_is_open (Some OutputObj) (snd (start_job w))) = Ok false /\
  fst (stream_is_open (Some ShuffleObj) (snd (start_job w))) = Ok false /\
  option_map context_open_state (reduce_context (job (snd (start_job w))))
  = Some (Some false) /\
  shuffle_pair (shuffle (snd (start_job w))) = [] /\
  exists f,
    file_stream (output w3) = Some f /\
    file_stream (output (snd (start_job w)))
    = Some {| closed := true; written := written f |}.
Proof.
  intros Hfull Hflag Hr Hmap Henter Hsetup Hpre Hreduce.
  pose proof (static_eq_of _ _ _ _ frame_map_scope Hmap) as Sm.
  pose proof (static_fully_configured _ _ Sm Hfull) as Hfullm.
  pose proof Hfullm as (_ & _ & _ & _ & _ & _ & Hrc & _).
  destruct (entered_reduce_context wm w0 _ _ Hrc Henter) as (Hfile0 & Hp0 & Hread).
  specialize (Hread _ eq_refl).
  pose proof (static_eq_of _ _ _ _
                (frame_kept_static _ (frame_HadoopContext_enter ReduceContext))
                Henter) as S0.
  pose proof (static_eq_of _ _ _ _ (frame_invoke _ _ _) Hsetup) as S1.
  pose proof (static_eq_of _ _ _ _ (frame_reduce_items r pre) Hpre) as S2.
  pose proof (static_eq_of _ _ _ _ (frame_invoke _ _ _) Hreduce) as S3.
  assert (T1 : steady w1 = steady w0).
  { pose proof (steady_invoke ReduceContext ReducerSetup (reducer_setup r) w0) as T.
    now rewrite Hsetup in T. }
  assert (T2 : steady w2 = steady w1).
  { pose proof (steady_reduce_items r pre w1) as T. now rewrite Hpre in T. }
  assert (T3 : steady w3 = steady w2).
  { pose proof (steady_invoke ReduceContext (ReducerReduce k vs)
                  (reducer_reduce r k vs) w2) as T.
    now rewrite Hreduce in T. }
  assert (Hr0 : reducer (job w0) = Some r).
  { rewrite (static_reducer _ _ S0), (static_reducer _ _ Sm). exact Hr. }
  assert (Hr1 : reducer (job w1) = Some r)
    by (rewrite (static_reducer _ _ S1); exact Hr0).
  assert (Hloop : for_each
                    (fun kvs => r' <- the_reducer ;;
                                invoke ReduceContext
                                  (ReducerReduce (fst kvs) (snd kvs))
                                  (reducer_reduce r' (fst kvs) (snd kvs)))
                    (pre ++ (k, vs) :: post) w1 = (Raised e, w3)).
  { rewrite (reduce_loop r _ _ Hr1). unfold reduce_items in Hpre.
    rewrite for_each_app. rewrite (bind_ok _ _ _ _ _ Hpre). simpl.
    rewrite (bind_raised _ _ _ _ _ Hreduce). reflexivity. }
  assert (Hphase : reduce_phase (HItems (pre ++ (k, vs) :: post)) w0
                   = (Raised e, w3)).
  { unfold reduce_phase. rewrite (bind_ok _ _ _ _ _ (the_reducer_ok _ _ Hr0)).
    rewrite (bind_ok _ _ _ _ _ Hsetup). apply bind_raised. exact Hloop. }
  assert (Hfile3 : is_not_None (file_stream (output w3)) = true).
  { unfold steady in T1, T2, T3. congruence. }
  assert (Hp3 : write_phase (shuffle w3) = false).
  { unfold steady in T1, T2, T3. congruence. }
  destruct (is_not_None_Some _ Hfile3) as [f Hf].
  destruct (exit_reduce_context_any w3 (job_config (job wm)) f)
    as (w4 & Hexit & Hout & Hclosed & Hsh & Hctx & Hstore);
    [unfold static in S0, S1, S2, S3; congruence | exact Hf |].
  assert (Hscope : reduce_scope wm = (Raised e, w4)).
  { unfold reduce_scope, with_. rewrite Henter, Hphase, Hexit. reflexivity. }
  assert (Hrun : start_job w = (Raised e, w4)).
  { unfold start_job. rewrite (bind_ok _ _ _ _ _ (start_check_ok _ Hfull)).
    rewrite (bind_ok _ _ _ _ _ Hmap). apply bind_raised. exact Hscope. }
  rewrite Hrun. simpl. rewrite Hout, Hsh. simpl.
  split; [reflexivity|].
  split.
  { pose proof (static_eq_of _ _ _ _ frame_reduce_scope Hscope) as S4.
    rewrite (static_successful _ _ S4), (static_successful _ _ Sm). exact Hflag. }
  split; [reflexivity|]. split; [reflexivity|]. split; [exact Hctx|].
  split.
  { rewrite Hstore. unfold ShuffleStream_exit. rewrite Hp3. reflexivity. }
  exists f. auto.
Qed.

(** X13.  A sink that cannot be opened.  For every fully configured job
    whose map scope completed but whose output path cannot be opened for
    writing, [start_job] raises the error of [open]; no reducer hook is
    invoked and the flag keeps its value.  The [with] statement does not run
    [__exit__] when [__enter__] raises, so the reduce context and the output
    adapter are left marked open; the shuffle store is not entered and keeps
    the groups of the map phase. *)
Theorem sink_failure_leaves_output_open (w wm : @World Key Val U) (p : string) :
  fully_configured w ->
  map_scope w = (Ok tt, wm) ->
  path (output w) = Some p ->
  In p (unwritable w) ->
  fst (start_job w) = Raised OSError /\
  is_successful (snd (start_job w)) = is_successful w /\
  fst (stream_is_open (Some OutputObj) (snd (start_job w))) = Ok true /\
  option_map context_open_state (reduce_context (job (snd (start_job w))))
  = Some (Some true) /\
  file_stream (output (snd (start_job w))) = file_stream (output wm) /\
  shuffle (snd (start_job w)) = shuffle wm /\
  calls (snd (start_job w)) = calls wm.
Proof.
  intros Hfull Hmap Hp Hin.
  pose proof (static_eq_of _ _ _ _ frame_map_scope Hmap) as Sm.
  pose proof (static_fully_configured _ _ Sm Hfull) as Hfullm.
  pose proof Hfullm as (_ & _ & _ & _ & _ & _ & Hrc & _).
  assert (Hpm : path (output wm) = Some p).
  { pose proof (adapters_map_scope w) as A. rewrite Hmap in A. simpl in A.
    rewrite (adapters_path _ _ A). exact Hp. }
  assert (Hinm : In p (unwritable wm))
    by (rewrite (static_unwritable _ _ Sm); exact Hin).
  apply wiring_inv in Hrc. destruct Hrc as [st Hc].
  assert (Henter : exists w',
            HadoopContext_enter ReduceContext wm = (Raised OSError, w') /\
            output_open_state (output w') = Some true /\
            option_map context_open_state (reduce_context (job w'))
            = Some (Some true) /\
            file_stream (output w') = file_stream (output wm) /\
            shuffle w' = shuffle wm /\ calls w' = calls wm /\
            successful (job w') = successful (job wm)).
  { unfold HadoopContext_enter, bind, context. rewrite Hc. simpl.
    unfold modify, on_output, HadoopOutput_enter. simpl. rewrite Hpm.
    destruct (in_dec string_dec p (unwritable wm)); [|contradiction].
    simpl. eexists. split; [reflexivity|]. simpl. rewrite Hc. simpl.
    repeat split. }
  destruct Henter as (w' & Henter & Hopen & Hctx & Hfile & Hsh & Hcalls & Hflag).
  assert (Hrun : start_job w = (Raised OSError, w')).
  { unfold start_job. rewrite (bind_ok _ _ _ _ _ (start_check_ok _ Hfull)).
    rewrite (bind_ok _ _ _ _ _ Hmap). apply bind_raised.
    unfold reduce_scope, with_. now rewrite Henter. }
  rewrite Hrun. simpl. rewrite Hopen. simpl.
  split; [reflexivity|].
  split; [unfold is_successful; rewrite Hflag; apply (static_successful _ _ Sm)|].
  auto 10.
Qed.

End ScopeFacts.

(** ** A whole run of emitting callbacks *)

Section EndToEnd.
Context {Key Val U : Type} `{PyData Key Val}.

Lemma set_shuffle_same (w : @World Key Val U) : set_shuffle (shuffle w) w = w.
Proof. destruct w. reflexivity. Qed.

Lemma set_output_same (w : @World Key Val U) : set_output (output w) w = w.
Proof. destruct w. reflexivity. Qed.

Lemma write_all_app (l1 l2 : list (Key * Val)) (s : @ShuffleStream Key Val) :
  write_all (l1 ++ l2) s = write_all l2 (write_all l1 s).
Proof. unfold write_all. apply fold_left_app. Qed.

Lemma output_write_all_app (l1 l2 : list (Key * Val)) (o : @HadoopOutput Key Val) :
  output_write_all (l1 ++ l2) o = output_write_all l2 (output_write_all l1 o).
Proof. unfold output_write_all. apply fold_left_app. Qed.

Lemma context_write_map (k : Key) (v : Val) (w : @World Key Val U) (cfg : loc)
  (i : option StreamRef) :
  wiring (map_context (job w)) = Some (cfg, i, Some ShuffleObj) ->
  shuffle_open_state (shuffle w) = Some true ->
  HadoopContext_write MapContext k v w
  = (Ok tt, set_shuffle (snd (ShuffleStream_write k v (shuffle w))) w).
Proof.
  intros Hw Hopen. apply wiring_inv in Hw. destruct Hw as [st Hc].
  unfold HadoopContext_write, bind, context. rewrite Hc. simpl.
  rewrite Hopen. simpl. unfold on_shuffle.
  rewrite ShuffleStream_write_spec. reflexivity.
Qed.

Lemma context_write_reduce (k : Key) (v : Val) (w : @World Key Val U) (cfg : loc)
  (i : option StreamRef) :
  wiring (reduce_context (job w)) = Some (cfg, i, Some OutputObj) ->
  accepts_writes (output w) ->
  HadoopContext_write ReduceContext k v w
  = (Ok tt, set_output (snd (HadoopOutput_write k v (output w))) w).
Proof.
  intros Hw Hacc. apply wiring_inv in Hw. destruct Hw as [st Hc].
  destruct (HadoopOutput_write_accepted k v _ Hacc) as (f & Hf & Hwrite).
  destruct Hacc as (Hopen & _).
  unfold HadoopContext_write, bind, context. rewrite Hc. simpl.
  rewrite Hopen. simpl. unfold on_output. rewrite Hwrite. reflexivity.
Qed.

(** A callback that emits [l] into the open shuffle store appends the pairs
    of [l] to it, in order, and touches nothing else. *)
Lemma run_emits_map (l : list (Key * Val)) :
  forall (w : @World Key Val U) (cfg : loc) (i : option StreamRef),
    wiring (map_context (job w)) = Some (cfg, i, Some ShuffleObj) ->
    shuffle_open_state (shuffle w) = Some true ->
    run MapContext (emits l) w
    = (Ok tt, set_shuffle (write_all l (shuffle w)) w).
Proof.
  induction l as [|[k v] l IH]; intros w cfg i Hw Hopen.
  - simpl. unfold ret. now rewrite set_shuffle_same.
  - simpl emits. simpl run.
    rewrite (bind_ok _ _ _ _ _ (context_write_map k v w cfg i Hw Hopen)).
    rewrite (IH _ cfg i); simpl.
    + reflexivity.
    + exact Hw.
    + rewrite ShuffleStream_write_spec. exact Hopen.
Qed.

Lemma run_emits_reduce (l : list (Key * Val)) :
  forall (w : @World Key Val U) (cfg : loc) (i : option StreamRef),
    wiring (reduce_context (job w)) = Some (cfg, i, Some OutputObj) ->
    accepts_writes (output w) ->
    run ReduceContext (emits l) w
    = (Ok tt, set_output (output_write_all l (output w)) w).
Proof.
  induction l as [|[k v] l IH]; intros w cfg i Hw Hacc.
  - simpl. unfold ret. now rewrite set_output_same.
  - simpl emits. simpl run.
    rewrite (bind_ok _ _ _ _ _ (context_write_reduce k v w cfg i Hw Hacc)).
    rewrite (IH _ cfg i); simpl.
    + reflexivity.
    + exact Hw.
    + destruct (for_each_write_accepted [(k, v)] _ Hacc) as (_ & _ & _ & Hacc' & _).
      exact Hacc'.
Qed.

Lemma beside_shuffle_fully_configured (w w' : @World Key Val U) :
  beside_shuffle w' = beside_shuffle w -> fully_configured w -> fully_configured w'.
Proof.
  unfold beside_shuffle, fully_configured. intros Heq.
  inversion Heq as [[E1 E2 E3 E4 E5 E6]]. rewrite E3, E6. tauto.
Qed.

Lemma beside_output_fully_configured (w w' : @World Key Val U) :
  beside_output w' = beside_output w -> fully_configured w -> fully_configured w'.
Proof.
  unfold beside_output, fully_configured. intros Heq.
  inversion Heq as [[E1 E2 E3 E4 E5 E6]]. rewrite E3, E6. tauto.
Qed.

(** The map loop of an emitting mapper over the records [R]. *)
Lemma map_records_emits (m : Mapper) (f : Key -> Val -> list (Key * Val))
  (R : list (Key * Val)) :
  forall w : @World Key Val U,
    fully_configured w ->
    shuffle_open_state (shuffle w) = Some true ->
    (forall kv u, In kv R ->
       mapper_map m (fst kv) (snd kv) u = emits (f (fst kv) (snd kv))) ->
    exists w',
      map_records m R w = (Ok tt, w') /\
      shuffle w' = write_all (flat_map (fun kv => f (fst kv) (snd kv)) R) (shuffle w) /\
      beside_shuffle w' = beside_shuffle w.
Proof.
  induction R as [|kv R IH]; intros w Hfull Hopen Hemits.
  - exists w. auto.
  - pose proof Hfull as (_ & _ & _ & _ & _ & Hmc & _).
    set (c := MapperMap (fst kv) (snd kv)).
    assert (Hinv : invoke MapContext c (mapper_map m (fst kv) (snd kv)) w
                   = (Ok tt, set_shuffle (write_all (f (fst kv) (snd kv)) (shuffle w))
                               (log_call c w))).
    { unfold invoke. unfold bind, modify.
      rewrite Hemits by now left.
      rewrite (run_emits_map _ (log_call c w) _ _ Hmc Hopen). reflexivity. }
    set (w1 := set_shuffle (write_all (f (fst kv) (snd kv)) (shuffle w)) (log_call c w))
      in Hinv.
    assert (Hb1 : beside_shuffle w1 = beside_shuffle w) by reflexivity.
    destruct (IH w1) as (w' & Hrun & Hsh & Hb).
    + apply (beside_shuffle_fully_configured w); assumption.
    + unfold w1. simpl.
      destruct (write_all_open_state (f (fst kv) (snd kv)) (shuffle w)) as [E _].
      now rewrite E.
    + intros kv' u Hin. apply Hemits. now right.
    + exists w'. split; [|split].
      * unfold map_records in *. simpl for_each.
        rewrite (bind_ok _ _ _ _ _ Hinv). exact Hrun.
      * rewrite Hsh. simpl. now rewrite write_all_app.
      * congruence.
Qed.

(** The reduce loop of an emitting reducer over the groups [G]. *)
Lemma reduce_items_emits (r : Reducer) (g : Key -> list Val -> list (Key * Val))
  (G : list (Key * list Val)) :
  forall w : @World Key Val U,
    fully_configured w ->
    accepts_writes (output w) ->
    (forall kvs u, In kvs G ->
       reducer_reduce r (fst kvs) (snd kvs) u = emits (g (fst kvs) (snd kvs))) ->
    exists w',
      reduce_items r G w = (Ok tt, w') /\
      output w'
      = output_write_all (flat_map (fun kvs => g (fst kvs) (snd kvs)) G) (output w) /\
      beside_output w' = beside_output w.
Proof.
  induction G as [|kvs G IH]; intros w Hfull Hacc Hemits.
  - exists w. auto.
  - pose proof Hfull as (_ & _ & _ & _ & _ & _ & Hrc & _).
    set (c := ReducerReduce (fst kvs) (snd kvs)).
    assert (Hinv : invoke ReduceContext c (reducer_reduce r (fst kvs) (snd kvs)) w
                   = (Ok tt,
                      set_output (output_write_all (g (fst kvs) (snd kvs)) (output w))
                        (log_call c w))).
    { unfold invoke. unfold bind, modify.
      rewrite Hemits by now left.
      rewrite (run_emits_reduce _ (log_call c w) _ _ Hrc Hacc). reflexivity. }
    set (w1 := set_output (output_write_all (g (fst kvs) (snd kvs)) (output w))
                 (log_call c w)) in Hinv.
    assert (Hb1 : beside_output w1 = beside_output w) by reflexivity.
    destruct (IH w1) as (w' & Hrun & Hout & Hb).
    + apply (beside_output_fully_configured w); assumption.
    + unfold w1. simpl.
      destruct (for_each_write_accepted (g (fst kvs) (snd kvs)) _ Hacc)
        as (_ & _ & _ & Hacc' & _).
      exact Hacc'.
    + intros kvs' u Hin. apply Hemits. now right.
    + exists w'. split; [|split].
      * unfold reduce_items in *. simpl for_each.
        rewrite (bind_ok _ _ _ _ _ Hinv). exact Hrun.
      * rewrite Hout. simpl. now rewrite output_write_all_app.
      * congruence.
Qed.

(** The store when the map scope has closed, after the writes [W] into a
    store that was empty and in its write phase. *)
Lemma store_after_map (W : list (Key * Val)) (s : @ShuffleStream Key Val) :
  shuffle_pair s = [] ->
  write_phase s = true ->
  shuffle_pair (snd (ShuffleStream_exit (write_all W (snd (ShuffleStream_enter s)))))
  = groups_of W /\
  write_phase (snd (ShuffleStream_exit (write_all W (snd (ShuffleStream_enter s)))))
  = false.
Proof.
  intros Hpair Hphase.
  set (s1 := snd (ShuffleStream_enter s)).
  assert (Hp1 : shuffle_pair s1 = []).
  { unfold s1, ShuffleStream_enter. simpl. destruct (write_phase s); exact Hpair. }
  assert (Hw1 : write_phase s1 = true).
  { unfold s1, ShuffleStream_enter. simpl. rewrite Hphase. reflexivity. }
  pose proof (write_all_open_state W s1) as [_ Hw].
  pose proof (write_all_groups W s1) as Hg.
  rewrite Hp1 in Hg. simpl in Hg. specialize (Hg (NoDup_nil _)).
  unfold ShuffleStream_exit. rewrite Hw, Hw1. simpl. split; [exact Hg | reflexivity].
Qed.

Lemma enter_reduce_context_ready (w : @World Key Val U) (cfg : loc) (p : string) :
  wiring (reduce_context (job w)) = Some (cfg, Some ShuffleObj, Some OutputObj) ->
  path (output w) = Some p ->
  ~ In p (unwritable w) ->
  write_phase (shuffle w) = false ->
  exists w1,
    HadoopContext_enter ReduceContext w
    = (Ok (HItems (shuffle_pair (shuffle w))), w1) /\
    output w1
    = {| output_open_state := Some true;
         path := Some p;
         output_format_func := output_format_func (output w);
         file_stream := Some {| closed := false; written := [] |} |} /\
    write_phase (shuffle w1) = false.
Proof.
  intros Hw Hp Hwritable Hphase. apply wiring_inv in Hw. destruct Hw as [st Hc].
  unfold HadoopContext_enter, bind, context. rewrite Hc. simpl.
  unfold modify, on_shuffle, on_output, ShuffleStream_enter, HadoopOutput_enter. simpl.
  rewrite Hp. destruct (in_dec string_dec p (unwritable w)); [contradiction|].
  simpl. rewrite Hphase. simpl. eexists. repeat split.
Qed.

(** X14.  The result of a run.  Take a fully configured job with an empty
    store in its write phase, an input that yields the records [R] and ends
    normally, a sink that can be opened, [setup] and [cleanup] hooks that
    neither raise nor write, a mapper whose [map] on each record only emits
    the pairs [f key value], and a reducer whose [reduce] on each group only
    emits the pairs [g key values].  Then [start_job] returns with the flag
    true; when the map scope closes the store holds the groups of the
    emitted pairs (one per key, in the order of first emission, values in
    emission order); and the sink's file, closed, holds exactly the
    renderings of the pairs emitted by [reduce], group after group in that
    order. *)
Theorem map_reduce_output (w : @World Key Val U) (m : Mapper) (r : Reducer)
  (p : string) (ps : list string) (R : list (Key * Val))
  (f : Key -> Val -> list (Key * Val)) (g : Key -> list Val -> list (Key * Val)) :
  fully_configured w ->
  mapper (job w) = Some m ->
  reducer (job w) = Some r ->
  shuffle_pair (shuffle w) = [] ->
  write_phase (shuffle w) = true ->
  paths (input w) = Some ps ->
  assembled_input_stream (input_format_func (input w)) (files w) ps 0 = (R, None) ->
  path (output w) = Some p ->
  ~ In p (unwritable w) ->
  (forall u, quiet (mapper_setup m u)) ->
  (forall u, quiet (mapper_cleanup m u)) ->
  (forall u, quiet (reducer_setup r u)) ->
  (forall u, quiet (reducer_cleanup r u)) ->
  (forall kv u, In kv R ->
     mapper_map m (fst kv) (snd kv) u = emits (f (fst kv) (snd kv))) ->
  (forall kvs u,
     In kvs (groups_of (flat_map (fun kv => f (fst kv) (snd kv)) R)) ->
     reducer_reduce r (fst kvs) (snd kvs) u = emits (g (fst kvs) (snd kvs))) ->
  fst (start_job w) = Ok tt /\
  is_successful (snd (start_job w)) = true /\
  shuffle_pair (shuffle (snd (map_scope w)))
  = groups_of (flat_map (fun kv => f (fst kv) (snd kv)) R) /\
  file_stream (output (snd (start_job w)))
  = Some {| closed := true;
            written :=
              List.map (fun kv => output_format_func (output w) (fst kv) (snd kv))
                (flat_map (fun kvs => g (fst kvs) (snd kvs))
                   (groups_of (flat_map (fun kv => f (fst kv) (snd kv)) R))) |}.
Proof.
  intros Hfull Hm Hr Hpair Hphase Hps Hgen Hp Hwritable Hms Hmc Hrs Hrc Hf Hg.
  set (W := flat_map (fun kv => f (fst kv) (snd kv)) R) in *.
  (* the map scope *)
  pose proof Hfull as (_ & _ & _ & _ & _ & Hwm & _).
  destruct (enter_map_context w _ ps R None Hwm Hps Hgen)
    as (w1 & Henter & Hsh1 & Hout1 & _).
  assert (Hfull1 : fully_configured w1).
  { apply (static_fully_configured w); [|exact Hfull].
    apply (static_eq_of _ _ _ _
             (frame_kept_static _ (frame_HadoopContext_enter MapContext)) Henter). }
  destruct (invoke_quiet MapContext MapperSetup (mapper_setup m) w1 Hfull1 Hms)
    as (w2 & Hinv2 & Hmach2 & _).
  pose proof (machine_fully_configured _ _ Hmach2 Hfull1) as Hfull2.
  destruct (machine_parts _ _ Hmach2) as (_ & Hs2 & Ho2 & _).
  assert (Hopen2 : shuffle_open_state (shuffle w2) = Some true).
  { rewrite Hs2, Hsh1. unfold ShuffleStream_enter. simpl.
    destruct (write_phase (shuffle w)); reflexivity. }
  destruct (map_records_emits m f R w2 Hfull2 Hopen2 Hf) as (w3 & Hloop & Hs3 & Hb3).
  fold W in Hs3.
  pose proof (beside_shuffle_fully_configured _ _ Hb3 Hfull2) as Hfull3.
  destruct (invoke_quiet MapContext MapperCleanup (mapper_cleanup m) w3 Hfull3 Hmc)
    as (w4 & Hinv4 & Hmach4 & _).
  pose proof (machine_fully_configured _ _ Hmach4 Hfull3) as Hfull4.
  destruct (machine_parts _ _ Hmach4) as (_ & Hs4 & Ho4 & _).
  assert (Hmphase : map_phase_of m (HRecords R None) w1 = (Ok tt, w4)).
  { unfold map_phase_of. rewrite (bind_ok _ _ _ _ _ Hinv2). cbv beta.
    unfold for_records. unfold map_records in Hloop.
    unfold bind at 1. unfold bind at 1. rewrite Hloop. unfold ret. exact Hinv4. }
  pose proof Hfull4 as (_ & _ & _ & _ & _ & Hwm4 & _).
  destruct (exit_map_context w4 _ Hwm4) as (w5 & Hexit5 & _ & _ & _ & Hs5 & Ho5 & _).
  assert (Hmap : map_scope w = (Ok tt, w5)).
  { rewrite (map_scope_resolved m w Hm). unfold with_.
    rewrite Henter, Hmphase, Hexit5. reflexivity. }
  assert (Hstore5 : shuffle w5
                    = snd (ShuffleStream_exit
                             (write_all W (snd (ShuffleStream_enter (shuffle w)))))).
  { rewrite Hs5, Hs4, Hs3, Hs2, Hsh1. reflexivity. }
  destruct (store_after_map W (shuffle w) Hpair Hphase) as (Hgroups & Hread).
  rewrite <- Hstore5 in Hgroups, Hread.
  assert (Hout5 : output w5 = output w).
  { assert (Ho3 : output w3 = output w2)
      by (unfold beside_shuffle in Hb3; congruence).
    congruence. }
  (* the reduce scope *)
  pose proof (static_eq_of _ _ _ _ frame_map_scope Hmap) as S5.
  pose proof (static_fully_configured _ _ S5 Hfull) as Hfull5.
  pose proof Hfull5 as (_ & _ & _ & _ & _ & _ & Hwr & _).
  assert (Hp5 : path (output w5) = Some p) by (rewrite Hout5; exact Hp).
  assert (Hw5 : ~ In p (unwritable w5))
    by (rewrite (static_unwritable _ _ S5); exact Hwritable).
  destruct (enter_reduce_context_ready w5 _ p Hwr Hp5 Hw5 Hread)
    as (w6 & Henter6 & Hout6 & Hread6).
  rewrite Hgroups in Henter6.
  assert (Hfull6 : fully_configured w6).
  { apply (static_fully_configured w5); [|exact Hfull5].
    apply (static_eq_of _ _ _ _
             (frame_kept_static _ (frame_HadoopContext_enter ReduceContext))
             Henter6). }
  destruct (invoke_quiet ReduceContext ReducerSetup (reducer_setup r) w6 Hfull6 Hrs)
    as (w7 & Hinv7 & Hmach7 & _).
  pose proof (machine_fully_configured _ _ Hmach7 Hfull6) as Hfull7.
  destruct (machine_parts _ _ Hmach7) as (_ & Hs7 & Ho7 & _).
  assert (Hacc7 : accepts_writes (output w7)).
  { rewrite Ho7, Hout6. unfold accepts_writes. simpl. eauto. }
  destruct (reduce_items_emits r g (groups_of W) w7 Hfull7 Hacc7 Hg)
    as (w8 & Hloop8 & Ho8 & Hb8).
  pose proof (beside_output_fully_configured _ _ Hb8 Hfull7) as Hfull8.
  destruct (invoke_quiet ReduceContext ReducerCleanup (reducer_cleanup r) w8 Hfull8 Hrc)
    as (w9 & Hinv9 & Hmach9 & _).
  pose proof (machine_fully_configured _ _ Hmach9 Hfull8) as Hfull9.
  destruct (machine_parts _ _ Hmach9) as (_ & Hs9 & Ho9 & _).
  assert (Hrphase : reduce_phase_of r (HItems (groups_of W)) w6 = (Ok tt, w9)).
  { unfold reduce_phase_of. rewrite (bind_ok _ _ _ _ _ Hinv7). cbv beta.
    unfold for_items. unfold reduce_items in Hloop8.
    unfold bind at 1. rewrite Hloop8. exact Hinv9. }
  destruct (for_each_write_accepted
              (flat_map (fun kvs => g (fst kvs) (snd kvs)) (groups_of W))
              (output w7) Hacc7) as (f7 & Hf7 & _ & _ & Hall).
  rewrite Ho7, Hout6 in Hf7. simpl in Hf7. inversion Hf7; subst f7. clear Hf7.
  rewrite <- Ho8 in Hall. rewrite <- Ho9 in Hall.
  rewrite Ho7, Hout6 in Hall. simpl in Hall.
  pose proof Hfull9 as (_ & _ & _ & _ & _ & _ & Hwr9 & _).
  destruct (exit_reduce_context_any w9 _ _ Hwr9 (f_equal file_stream Hall))
    as (w10 & Hexit10 & _ & Hfile10 & _).
  assert (Hreduce : reduce_scope w5 = (Ok tt, w10)).
  { assert (Hr5 : reducer (job w5) = Some r)
      by (rewrite (static_reducer _ _ S5); exact Hr).
    rewrite (reduce_scope_resolved r w5 Hr5). unfold with_.
    rewrite Henter6, Hrphase, Hexit10. reflexivity. }
  assert (Hrun : start_job w
                 = (Ok tt, snd (modify_job (fun j =>
                      {| job_config := job_config j; mapper := mapper j;
                         reducer := reducer j; input_stream := input_stream j;
                         shuffle_stream := shuffle_stream j;
                         output_stream := output_stream j;
                         map_context := map_context j;
                         reduce_context := reduce_context j;
                         successful := true |}) w10))).
  { unfold start_job. rewrite (bind_ok _ _ _ _ _ (start_check_ok _ Hfull)).
    rewrite (bind_ok _ _ _ _ _ Hmap). rewrite (bind_ok _ _ _ _ _ Hreduce).
    reflexivity. }
  rewrite Hrun, Hmap. simpl.
  split; [reflexivity|]. split; [reflexivity|]. split; [exact Hgroups|].
  rewrite Hfile10. simpl. rewrite Hout5. reflexivity.
Qed.

(** X15.  A mapper that does not override [map].  For every fully
    configured job with its store in the write phase, whose mapper has the
    base class's [map], whose [mapper.setup] neither raises nor writes and
    whose input yields at least one record: [start_job] raises [NotImplementedError] at the first
    record; [map] has been invoked once and [cleanup] not at all, the store
    has received nothing, and the map scope is closed. *)
Theorem unimplemented_map_stops_the_job (w : @World Key Val U) (m : Mapper)
  (ps : list string) (kv : Key * Val) (rest : list (Key * Val))
  (ending : option exn) :
  fully_configured w ->
  mapper (job w) = Some m ->
  mapper_map m = mapper_map Mapper_base ->
  (forall u, quiet (mapper_setup m u)) ->
  write_phase (shuffle w) = true ->
  paths (input w) = Some ps ->
  assembled_input_stream (input_format_func (input w)) (files w) ps 0
  = (kv :: rest, ending) ->
  fst (start_job w) = Raised NotImplementedError /\
  calls (snd (start_job w)) = calls w ++ [MapperSetup; MapperMap (fst kv) (snd kv)] /\
  shuffle_pair (shuffle (snd (start_job w))) = shuffle_pair (shuffle w) /\
  shuffle_open_state (shuffle (snd (start_job w))) = Some false /\
  input_open_state (input (snd (start_job w))) = Some false /\
  is_successful (snd (start_job w)) = is_successful w.
Proof.
  intros Hfull Hm Hbase Hms Hwp Hps Hgen.
  pose proof Hfull as (_ & _ & _ & _ & _ & Hwm & _).
  destruct (enter_map_context w _ ps (kv :: rest) ending Hwm Hps Hgen)
    as (w1 & Henter & Hsh1 & _ & Hcalls1).
  assert (Hfull1 : fully_configured w1).
  { apply (static_fully_configured w); [|exact Hfull].
    apply (static_eq_of _ _ _ _
             (frame_kept_static _ (frame_HadoopContext_enter MapContext)) Henter). }
  destruct (invoke_quiet MapContext MapperSetup (mapper_setup m) w1 Hfull1 Hms)
    as (w2 & Hinv2 & Hmach2 & Hcalls2).
  pose proof (machine_fully_configured _ _ Hmach2 Hfull1) as Hfull2.
  destruct (machine_parts _ _ Hmach2) as (_ & Hs2 & _).
  assert (Hinv3 : invoke MapContext (MapperMap (fst kv) (snd kv))
                    (mapper_map m (fst kv) (snd kv)) w2
                  = (Raised NotImplementedError,
                     log_call (MapperMap (fst kv) (snd kv)) w2)).
  { rewrite Hbase. reflexivity. }
  assert (Hphase : map_phase_of m (HRecords (kv :: rest) ending) w1
                   = (Raised NotImplementedError,
                      log_call (MapperMap (fst kv) (snd kv)) w2)).
  { unfold map_phase_of. rewrite (bind_ok _ _ _ _ _ Hinv2). cbv beta.
    apply bind_raised. unfold for_records. apply bind_raised.
    simpl for_each. apply bind_raised. exact Hinv3. }
  set (w3 := log_call (MapperMap (fst kv) (snd kv)) w2) in *.
  assert (Hwm3 : wiring (map_context (job w3))
                 = Some (job_config (job w3), Some InputObj, Some ShuffleObj)).
  { pose proof Hfull2 as (_ & _ & _ & _ & _ & Hwm2 & _). exact Hwm2. }
  destruct (exit_map_context w3 _ Hwm3)
    as (w4 & Hexit & Hin4 & Hsh4 & _ & Hstore4 & _ & Hcalls4).
  assert (Hmap : map_scope w = (Raised NotImplementedError, w4)).
  { rewrite (map_scope_resolved m w Hm). unfold with_.
    rewrite Henter, Hphase, Hexit. reflexivity. }
  assert (Hrun : start_job w = (Raised NotImplementedError, w4)).
  { unfold start_job. rewrite (bind_ok _ _ _ _ _ (start_check_ok _ Hfull)).
    apply bind_raised. exact Hmap. }
  rewrite Hrun. simpl.
  split; [reflexivity|].
  split.
  { rewrite Hcalls4. unfold w3. simpl. rewrite Hcalls2, Hcalls1, <- app_assoc.
    reflexivity. }
  split.
  { rewrite Hstore4. unfold w3. simpl. rewrite Hs2, Hsh1.
    unfold ShuffleStream_exit, ShuffleStream_enter. simpl.
    rewrite Hwp. reflexivity. }
  split; [exact Hsh4|]. split; [exact Hin4|].
  apply static_successful. apply (static_eq_of _ _ _ _ frame_map_scope Hmap).
Qed.

End EndToEnd.

(** ** Each phase writes to its own stream *)

Section GuardedFrames.
Context {Key Val U : Type} `{PyData Key Val}.
Context {X : Type} (f : @World Key Val U -> X) (I : @World Key Val U -> Prop).
Variable ctx : CtxRef.
Hypothesis I_of_f : forall w w', f w' = f w -> I w -> I w'.
Hypothesis f_user : forall u w, f (set_user u w) = f w.
Hypothesis f_dicts :
  forall d w, List.length d = List.length (dicts w) -> f (set_dicts d w) = f w.
Hypothesis f_log : forall c w, f (log_call c w) = f w.
Hypothesis f_write :
  forall k v w, I w -> f (snd (HadoopContext_write ctx k v w)) = f w.





End GuardedFrames.

Section OwnStream.
Context {Key Val U : Type} `{PyData Key Val}.












End OwnStream.

(** ** The further properties on the sample runs *)

(** X2 on a sample: two pairs written through the default format. *)
Lemma output_records_round_trip_witness :
  fst (write_records [] [(PyStr "a", PyInt 2); (PyStr "b", PyInt 1)] sample_output)
  = Ok tt /\
  option_map written
    (file_stream
       (snd (write_records [] [(PyStr "a", PyInt 2); (PyStr "b", PyInt 1)]
               sample_output)))
  = Some [("a 2" ++ nl)%string; ("b 1" ++ nl)%string].
Proof.
  assert (Hp : path sample_output = Some "test_output.txt") by reflexivity.
  assert (Hro : ~ In "test_output.txt" (@nil string)) by (intros []).
  destruct (output_records_round_trip [] "test_output.txt"
              [(PyStr "a", PyInt 2); (PyStr "b", PyInt 1)] sample_output Hp Hro)
    as (Hok & Hstate).
  split; [exact Hok|]. rewrite Hstate. vm_compute. reflexivity.
Defined.

(** X4 on a sample: the second of three paths is missing. *)
Lemma generator_stops_at_missing_file_witness :
  assembled_input_stream (@default_input_format_func pyobj pyobj _) two_files
    (["a.txt"] ++ "missing.txt" :: ["b.txt"]) 0
  = ([(PyInt 0, PyStr "x"); (PyInt 1, PyStr "y")], Some OSError).
Proof.
  rewrite (generator_stops_at_missing_file default_input_format_func two_files
             ["a.txt"] ["b.txt"] "missing.txt" 0).
  - vm_compute. reflexivity.
  - intros q [<-|[]]. vm_compute. reflexivity.
  - vm_compute. reflexivity.
Defined.

(** X5 on a sample: the job built from the caller's two options. *)
Lemma job_configuration_is_a_copy_witness :
  configuration (snd (HadoopJob_init (Some 0) caller_world))
  = Some [(PyStr "separator", PyStr ","); (PyStr "limit", PyInt 10)] /\
  job_config (job (snd (HadoopJob_init (Some 0) caller_world))) <> 0 /\
  configuration
    (snd (dict_setitem 0 (PyStr "limit") (PyInt 99)
            (snd (HadoopJob_init (Some 0) caller_world))))
  = Some [(PyStr "separator", PyStr ","); (PyStr "limit", PyInt 10)].
Proof.
  assert (Hc : nth_error (dicts caller_world) 0
               = Some [(PyStr "separator", PyStr ","); (PyStr "limit", PyInt 10)])
    by reflexivity.
  assert (Hnd : NoDup (List.map fst
                         [(PyStr "separator", PyStr ","); (PyStr "limit", PyInt 10)])).
  { simpl. constructor; [intros [Heq|[]]; discriminate|].
    constructor; [intros []|constructor]. }
  destruct (job_configuration_is_a_copy 0 _ caller_world Hc Hnd)
    as (_ & Hne & Hcfg & _ & Hcaller & _).
  split; [exact Hcfg|]. split; [exact Hne|]. apply Hcaller.
Defined.

(** X6 on a sample: a path that does not exist. *)
Lemma set_input_paths_rejects_witness :
  fst (HadoopInput_set_input_paths ["test_input.txt"; "missing.txt"]
         (boot (Key := pyobj) (Val := pyobj) demo_files [] tt))
  = Raised AssertionError /\
  map_context
    (job (snd (HadoopInput_set_input_paths ["test_input.txt"; "missing.txt"]
                 (boot (Key := pyobj) (Val := pyobj) demo_files [] tt))))
  = None.
Proof.
  destruct (set_input_paths_rejects ["test_input.txt"; "missing.txt"]
              (boot (Key := pyobj) (Val := pyobj) demo_files [] tt))
    as (Hraised & _ & Hjob).
  - right. exists "missing.txt". split; [simpl; auto | vm_compute; reflexivity].
  - split; [exact Hraised|]. rewrite Hjob. reflexivity.
Defined.

(** X7 on the demo: the script leaves a fully configured job. *)
Lemma configure_job_ready_witness :
  fully_configured demo_world /\ is_successful demo_world = false.
Proof.
  destruct (configure_job_ready WordCountMapper WordCountReducer
              ["test_input.txt"] "test_output.txt" (boot demo_files [] tt))
    as (_ & Hfull & _ & _ & _ & _ & _ & _ & Hflag).
  - discriminate.
  - intros p [<-|[]]. vm_compute. reflexivity.
  - split; [exact Hfull | exact Hflag].
Defined.

(** X8 on a sample: a store in which no job has been configured. *)
Lemma start_job_needs_configuration_witness :
  start_job (boot (Key := pyobj) (Val := pyobj) demo_files [] tt)
  = (Raised AssertionError, boot demo_files [] tt).
Proof.
  apply start_job_needs_configuration. left. reflexivity.
Defined.

(** X9 on the job whose mapper raises. *)
Lemma map_scope_always_closes_witness :
  fst (map_scope failing_world) = Raised (UserError 1) /\
  input_open_state (input (snd (map_scope failing_world))) = Some false /\
  shuffle_open_state (shuffle (snd (map_scope failing_world))) = Some false /\
  write_phase (shuffle (snd (map_scope failing_world))) = false.
Proof.
  split; [vm_compute; reflexivity|].
  destruct (map_scope_always_closes failing_world failing_world_configured)
    as (Hin & Hsh & Hphase & _).
  auto.
Defined.

Lemma ran_demo_configured : fully_configured (snd (start_job demo_world)).
Proof. configured. Qed.

(** X10 on the demo job run twice: the second map scope hands over
    nothing. *)
Lemma rerun_discards_map_output_witness :
  write_phase (shuffle (snd (start_job demo_world))) = false /\
  fst (map_scope (snd (start_job demo_world))) = Ok tt /\
  shuffle_pair (shuffle (snd (map_scope (snd (start_job demo_world))))) = [].
Proof.
  assert (Hphase : write_phase (shuffle (snd (start_job demo_world))) = false)
    by (vm_compute; reflexivity).
  split; [exact Hphase|]. split; [vm_compute; reflexivity|].
  destruct (rerun_discards_map_output (snd (start_job demo_world))
              ran_demo_configured Hphase) as (Hempty & _).
  exact Hempty.
Defined.

Lemma mapped_demo_configured : fully_configured (snd (map_scope demo_world)).
Proof. configured. Qed.

(** X11 on the demo job after its map scope. *)
Lemma reduce_scope_always_closes_witness :
  output_open_state (output (snd (reduce_scope (snd (map_scope demo_world)))))
  = Some false /\
  shuffle_pair (shuffle (snd (reduce_scope (snd (map_scope demo_world))))) = [].
Proof.
  assert (Hp : path (output (snd (map_scope demo_world))) = Some "test_output.txt")
    by (vm_compute; reflexivity).
  assert (Hw : ~ In "test_output.txt" (unwritable (snd (map_scope demo_world))))
    by (vm_compute; intros []).
  destruct (reduce_scope_always_closes (snd (map_scope demo_world))
              "test_output.txt" mapped_demo_configured Hp Hw)
    as (Hout & _ & _ & _ & Hempty).
  split; [exact Hout|]. apply Hempty. vm_compute. reflexivity.
Defined.

Lemma reduce_failing_world_configured : fully_configured reduce_failing_world.
Proof. configured. Qed.

(** X12 on the job whose reducer raises on the second group: the record of
    the first group stays in the closed file. *)
Lemma reduce_failure_closes_streams_witness :
  fst (start_job reduce_failing_world) = Raised (UserError 2) /\
  is_successful (snd (start_job reduce_failing_world)) = false /\
  shuffle_pair (shuffle (snd (start_job reduce_failing_world))) = [] /\
  file_stream (output (snd (start_job reduce_failing_world)))
  = Some {| closed := true; written := [("a 2" ++ nl)%string] |}.
Proof.
  assert (Hflag : is_successful reduce_failing_world = false)
    by (vm_compute; reflexivity).
  assert (Hr : reducer (job reduce_failing_world) = Some failing_reducer)
    by (vm_compute; reflexivity).
  assert (Hmap : fst (map_scope reduce_failing_world) = Ok tt)
    by (vm_compute; reflexivity).
  assert (Henter : fst (HadoopContext_enter ReduceContext reduce_failing_mapped)
                   = Ok (HItems ([(PyStr "a", [PyInt 1; PyInt 1])]
                                 ++ (PyStr "b", [PyInt 1; PyInt 1])
                                    :: [(PyStr "c", [PyInt 1])])))
    by (vm_compute; reflexivity).
  assert (Hsetup : fst (invoke ReduceContext ReducerSetup
                          (reducer_setup failing_reducer) reduce_failing_entered)
                   = Ok tt) by (vm_compute; reflexivity).
  assert (Hpre : fst (reduce_items failing_reducer [(PyStr "a", [PyInt 1; PyInt 1])]
                        reduce_failing_set_up) = Ok tt)
    by (vm_compute; reflexivity).
  assert (Hreduce : fst (invoke ReduceContext
                           (ReducerReduce (PyStr "b") [PyInt 1; PyInt 1])
                           (reducer_reduce failing_reducer (PyStr "b")
                              [PyInt 1; PyInt 1])
                           reduce_failing_reduced) = Raised (UserError 2))
    by (vm_compute; reflexivity).
  destruct (reduce_failure_closes_streams reduce_failing_world reduce_failing_mapped
              reduce_failing_entered reduce_failing_set_up reduce_failing_reduced
              reduce_failing_raised failing_reducer
              [(PyStr "a", [PyInt 1; PyInt 1])] [(PyStr "c", [PyInt 1])]
              (PyStr "b") [PyInt 1; PyInt 1] (UserError 2)
              reduce_failing_world_configured Hflag Hr
              (pair_of_fst _ _ Hmap) (pair_of_fst _ _ Henter)
              (pair_of_fst _ _ Hsetup) (pair_of_fst _ _ Hpre)
              (pair_of_fst _ _ Hreduce))
    as (Hraised & Hfalse & _ & _ & _ & Hempty & f & Hf & Hfile).
  split; [exact Hraised|]. split; [exact Hfalse|]. split; [exact Hempty|].
  rewrite Hfile. vm_compute in Hf. inversion Hf. reflexivity.
Defined.

Lemma no_sink_world_configured : fully_configured no_sink_world.
Proof. configured. Qed.

(** X13 on the demo job with an unwritable sink. *)
Lemma sink_failure_leaves_output_open_witness :
  fst (start_job no_sink_world) = Raised OSError /\
  fst (stream_is_open (Some OutputObj) (snd (start_job no_sink_world))) = Ok true /\
  shuffle_pair (shuffle (snd (start_job no_sink_world)))
  = [(PyStr "a", [PyInt 1; PyInt 1]); (PyStr "b", [PyInt 1; PyInt 1]);
     (PyStr "c", [PyInt 1])].
Proof.
  assert (Hmap : fst (map_scope no_sink_world) = Ok tt) by (vm_compute; reflexivity).
  assert (Hp : path (output no_sink_world) = Some "test_output.txt")
    by (vm_compute; reflexivity).
  assert (Hin : In "test_output.txt" (unwritable no_sink_world))
    by (vm_compute; auto).
  destruct (sink_failure_leaves_output_open no_sink_world
              (snd (map_scope no_sink_world)) "test_output.txt"
              no_sink_world_configured (pair_of_fst _ _ Hmap) Hp Hin)
    as (Hraised & _ & Hopen & _ & _ & Hstore & _).
  split; [exact Hraised|]. split; [exact Hopen|].
  rewrite Hstore. vm_compute. reflexivity.
Defined.

(** X14 on the word count demo: the groups and the output of the
    specification's example. *)
Lemma map_reduce_output_witness :
  fst (start_job demo_world) = Ok tt /\
  shuffle_pair (shuffle (snd (map_scope demo_world)))
  = [(PyStr "a", [PyInt 1; PyInt 1]); (PyStr "b", [PyInt 1; PyInt 1]);
     (PyStr "c", [PyInt 1])] /\
  file_stream (output (snd (start_job demo_world)))
  = Some {| closed := true;
            written := [("a 2" ++ nl)%string; ("b 2" ++ nl)%string;
                        ("c 1" ++ nl)%string] |}.
Proof.
  assert (Hm : mapper (job demo_world) = Some WordCountMapper)
    by (vm_compute; reflexivity).
  assert (Hr : reducer (job demo_world) = Some WordCountReducer)
    by (vm_compute; reflexivity).
  assert (Hpair : shuffle_pair (shuffle demo_world) = []) by (vm_compute; reflexivity).
  assert (Hphase : write_phase (shuffle demo_world) = true)
    by (vm_compute; reflexivity).
  assert (Hps : paths (input demo_world) = Some ["test_input.txt"])
    by (vm_compute; reflexivity).
  assert (Hgen : assembled_input_stream (input_format_func (input demo_world))
                   (files demo_world) ["test_input.txt"] 0 = (demo_records, None))
    by (vm_compute; reflexivity).
  assert (Hp : path (output demo_world) = Some "test_output.txt")
    by (vm_compute; reflexivity).
  assert (Hw : ~ In "test_output.txt" (unwritable demo_world))
    by (vm_compute; intros []).
  destruct (map_reduce_output demo_world WordCountMapper WordCountReducer
              "test_output.txt" ["test_input.txt"] demo_records
              word_count_map word_count_reduce
              demo_world_configured Hm Hr Hpair Hphase Hps Hgen Hp Hw)
    as (Hok & _ & Hgroups & Hfile).
  - intros u. exact I.
  - intros u. exact I.
  - intros u. exact I.
  - intros u. exact I.
  - intros kv u [<-|[<-|[]]]; vm_compute; reflexivity.
  - intros kvs u Hin. vm_compute in Hin.
    destruct Hin as [<-|[<-|[<-|[]]]]; vm_compute; reflexivity.
  - split; [exact Hok|]. split.
    + rewrite Hgroups. vm_compute. reflexivity.
    + rewrite Hfile. vm_compute. reflexivity.
Defined.

Lemma abstract_world_configured : fully_configured abstract_world.
Proof. configured. Qed.

(** X15 on the demo input with the base class as mapper. *)
Lemma unimplemented_map_stops_the_job_witness :
  fst (start_job abstract_world) = Raised NotImplementedError /\
  calls (snd (start_job abstract_world))
  = [MapperSetup; MapperMap (PyInt 0) (PyStr "a b a")].
Proof.
  assert (Hm : mapper (job abstract_world) = Some Mapper_base)
    by (vm_compute; reflexivity).
  assert (Hphase : write_phase (shuffle abstract_world) = true)
    by (vm_compute; reflexivity).
  assert (Hps : paths (input abstract_world) = Some ["test_input.txt"])
    by (vm_compute; reflexivity).
  assert (Hgen : assembled_input_stream (input_format_func (input abstract_world))
                   (files abstract_world) ["test_input.txt"] 0
                 = ((PyInt 0, PyStr "a b a") :: [(PyInt 1, PyStr "b c")], None))
    by (vm_compute; reflexivity).
  destruct (unimplemented_map_stops_the_job abstract_world Mapper_base
              ["test_input.txt"] (PyInt 0, PyStr "a b a") [(PyInt 1, PyStr "b c")]
              None abstract_world_configured Hm eq_refl (fun _ => I) Hphase Hps Hgen)
    as (Hraised & Hcalls & _).
  split; [exact Hraised|]. rewrite Hcalls. vm_compute. reflexivity.
Defined.

